(** * A shallow embedding of [python/triton/runtime/autotuner.py]

    The autotuner core: [Config], the pruner, the key extractor, the
    measurement harness [_bench], the four selection policies
    ([Autotuner], [StepwiseAutotuner], [EpsilonAutotuner],
    [ConfidenceAutotuner]) and the [autotune] dispatch facade.

    Modelling conventions.
    - Python dictionaries are association lists kept in insertion order,
      with Python's update-in-place semantics ([dset]).
    - Python objects whose identity matters (configs used as dictionary
      keys, compared with [is] / [!=]) carry an explicit object id.
    - Python floats are [flt]: exact rationals for finite values plus the
      IEEE special values +inf, -inf and nan with their IEEE rules
      ([inf * 0 = nan], comparisons with nan are false).  Rounding and
      overflow of finite values are not modelled.
    - The external collaborators (kernel launches, the benchmarker, the
      random generator, device events) are oracles read from a [World]
      record; running out of an oracle stream means the Python loop has
      not terminated within the given inputs. *)

From Stdlib Require Import ZArith QArith List String Bool Lia.
Import ListNotations.
Open Scope string_scope.

(** ** Python dictionaries (insertion ordered) *)

Module PyDict.
Section Dict.
Context {K V : Type} (keq : K -> K -> bool).

(** [d.get(k)] *)
Fixpoint dget (d : list (K * V)) (k : K) : option V :=
  match d with
  | [] => None
  | (k', v) :: t => if keq k k' then Some v else dget t k
  end.

(** [d[k] = v]: an existing key keeps its position. *)
Fixpoint dset (d : list (K * V)) (k : K) (v : V) : list (K * V) :=
  match d with
  | [] => [(k, v)]
  | (k', v') :: t => if keq k k' then (k, v) :: t else (k', v') :: dset t k v
  end.

Definition dmem (d : list (K * V)) (k : K) : bool :=
  match dget d k with Some _ => true | None => false end.

(** [{**a, **b}] *)
Definition dmerge (a b : list (K * V)) : list (K * V) :=
  fold_left (fun acc kv => dset acc (fst kv) (snd kv)) b a.

(** [d.keys()] *)
Definition dkeys (d : list (K * V)) : list K := map fst d.
End Dict.
End PyDict.
Import PyDict.

(** ** Python values *)

Inductive pyval : Type :=
| PNone
| PBool (b : bool)
| PInt (z : Z)
| PStr (s : string)
| PTensor (obj : nat) (dtype : string)   (** an object with a [dtype] attribute *)
| PObj (obj : nat).                      (** any other object *)

Definition is_none (v : pyval) : bool :=
  match v with PNone => true | _ => false end.

(** Python truthiness ([if v:]) *)
Definition truthy (v : pyval) : bool :=
  match v with
  | PNone => false
  | PBool b => b
  | PInt z => negb (Z.eqb z 0)
  | PStr s => negb (String.eqb s "")
  | PTensor _ _ | PObj _ => true
  end.

Definition pydict := list (string * pyval).
Definition sget := @dget string pyval String.eqb.
Definition sset := @dset string pyval String.eqb.
Definition smerge := @dmerge string pyval String.eqb.
Definition smem := @dmem string pyval String.eqb.

(** Python exceptions met by the code. *)
Inductive exn : Type :=
| OutOfResources
| CompileTimeAssertionFailure
| ValueError
| TypeError
| AttributeError
| ZeroDivisionError
| NotImplementedError
| OtherException (n : nat).

Inductive pyresult (A : Type) : Type :=
| PyOk (a : A)
| PyRaise (e : exn).
Arguments PyOk {A} a.
Arguments PyRaise {A} e.

(** ** [Config] *)

Record Config : Type := mkConfig {
  kwargs : pydict;
  num_warps : pyval;
  num_ctas : pyval;
  num_stages : pyval;
  num_buffers_warp_spec : pyval;
  num_consumer_groups : pyval;
  reg_dec_producer : pyval;
  reg_inc_consumer : pyval;
  maxnreg : pyval;
  pre_hook : option nat     (** [None] or a user function, by identity *)
}.

(** [Config.__init__(self, kwargs, num_warps=4, num_stages=2, num_ctas=1,
    num_buffers_warp_spec=0, num_consumer_groups=0, reg_dec_producer=0,
    reg_inc_consumer=0, maxnreg=None, pre_hook=None)]: it stores every
    argument; no path of the constructor raises. *)
Definition Config___init__ (kwargs : pydict)
    (num_warps num_stages num_ctas num_buffers_warp_spec num_consumer_groups
     reg_dec_producer reg_inc_consumer maxnreg : pyval)
    (pre_hook : option nat) : pyresult Config :=
  PyOk {| kwargs := kwargs;
          num_warps := num_warps;
          num_ctas := num_ctas;
          num_stages := num_stages;
          num_buffers_warp_spec := num_buffers_warp_spec;
          num_consumer_groups := num_consumer_groups;
          reg_dec_producer := reg_dec_producer;
          reg_inc_consumer := reg_inc_consumer;
          maxnreg := maxnreg;
          pre_hook := pre_hook |}.

(** [Config(kwargs)] with every default. *)
Definition Config_defaults (kwargs : pydict) : pyresult Config :=
  Config___init__ kwargs (PInt 4) (PInt 2) (PInt 1) (PInt 0) (PInt 0)
    (PInt 0) (PInt 0) PNone None.

(** The compiler-hint fields, in the order of [all_kwargs]. *)
Definition hints (c : Config) : pydict :=
  [("num_warps", num_warps c);
   ("num_ctas", num_ctas c);
   ("num_stages", num_stages c);
   ("num_buffers_warp_spec", num_buffers_warp_spec c);
   ("num_consumer_groups", num_consumer_groups c);
   ("reg_dec_producer", reg_dec_producer c);
   ("reg_inc_consumer", reg_inc_consumer c);
   ("maxnreg", maxnreg c)].

Definition hint_names : list string := map fst (hints (mkConfig [] PNone PNone
  PNone PNone PNone PNone PNone PNone None)).

(** [Config.all_kwargs] *)
Definition all_kwargs (c : Config) : pydict :=
  smerge (kwargs c) (filter (fun kv => negb (is_none (snd kv))) (hints c)).

(** ** Python floats *)

Inductive flt : Type :=
| Fin (q : Q)
| PInf
| NInf
| NaN.

Definition qltb (a b : Q) : bool := negb (Qle_bool b a).

(** [x < y] *)
Definition flt_lt (x y : flt) : bool :=
  match x, y with
  | NaN, _ | _, NaN => false
  | Fin a, Fin b => qltb a b
  | NInf, NInf => false
  | NInf, _ => true
  | Fin _, PInf => true
  | _, _ => false
  end.

(** [x == y] *)
Definition flt_eq (x y : flt) : bool :=
  match x, y with
  | Fin a, Fin b => Qeq_bool a b
  | PInf, PInf | NInf, NInf => true
  | _, _ => false
  end.

(** [x >= y] *)
Definition flt_ge (x y : flt) : bool := flt_lt y x || flt_eq x y.

Definition flt_neg (x : flt) : flt :=
  match x with Fin a => Fin (- a) | PInf => NInf | NInf => PInf | NaN => NaN end.

Definition flt_add (x y : flt) : flt :=
  match x, y with
  | NaN, _ | _, NaN => NaN
  | PInf, NInf | NInf, PInf => NaN
  | PInf, _ | _, PInf => PInf
  | NInf, _ | _, NInf => NInf
  | Fin a, Fin b => Fin (a + b)
  end.

Definition flt_sub (x y : flt) : flt := flt_add x (flt_neg y).

(** sign of a finite value: -1, 0 or 1 *)
Definition qsign (a : Q) : Z :=
  if Qeq_bool a 0 then 0 else if qltb a 0 then (-1)%Z else 1%Z.

Definition flt_sign (x : flt) : Z :=
  match x with Fin a => qsign a | PInf => 1 | NInf => -1 | NaN => 0 end.

Definition flt_mul (x y : flt) : flt :=
  match x, y with
  | NaN, _ | _, NaN => NaN
  | Fin a, Fin b => Fin (a * b)
  | _, _ =>
      match (flt_sign x * flt_sign y)%Z with
      | 0%Z => NaN
      | Zpos _ => PInf
      | Zneg _ => NInf
      end
  end.

(** [sys.float_info.max] *)
Definition float_max_Z : Z := ((2 ^ 53 - 1) * 2 ^ 971)%Z.
Definition float_max : flt := Fin (inject_Z float_max_Z).

(** [float("inf")] *)
Definition inf : flt := PInf.

(** Python's comparison [a < b] of two lists of floats (lexicographic). *)
Fixpoint list_lt (a b : list flt) : bool :=
  match a, b with
  | [], [] => false
  | [], _ :: _ => true
  | _ :: _, [] => false
  | x :: a', y :: b' => if flt_eq x y then list_lt a' b' else flt_lt x y
  end.

(** [builtins.min(xs, key=f)]: the first element whose key no later key
    undercuts with [<]; [ValueError] on an empty sequence. *)
Fixpoint py_min_from {A B : Type} (lt : B -> B -> bool) (f : A -> B)
    (best : A) (l : list A) : A :=
  match l with
  | [] => best
  | x :: t => if lt (f x) (f best) then py_min_from lt f x t
              else py_min_from lt f best t
  end.

Definition py_min {A B : Type} (lt : B -> B -> bool) (f : A -> B)
    (l : list A) : pyresult A :=
  match l with
  | [] => PyRaise ValueError
  | x :: t => PyOk (py_min_from lt f x t)
  end.

(** ** Equality of Python values (cache keys are tuples of them) *)

Definition pyval_eqb (a b : pyval) : bool :=
  match a, b with
  | PNone, PNone => true
  | PBool x, PBool y => Bool.eqb x y
  | PInt x, PInt y => Z.eqb x y
  | PStr x, PStr y => String.eqb x y
  | PTensor o _, PTensor o' _ => Nat.eqb o o'
  | PObj o, PObj o' => Nat.eqb o o'
  | _, _ => false
  end.

Fixpoint key_eqb (a b : list pyval) : bool :=
  match a, b with
  | [], [] => true
  | x :: a', y :: b' => pyval_eqb x y && key_eqb a' b'
  | _, _ => false
  end.

(** ** Config objects

    A [Config] instance together with its object identity: the caches use
    configs as dictionary keys, which Python hashes and compares by
    identity since [Config] defines neither [__eq__] nor [__hash__]. *)

Record ConfigObj : Type := mkObj { oid : nat; cfg : Config }.

Definition obj_is (a b : ConfigObj) : bool := Nat.eqb (oid a) (oid b).

(** [f( *args, **d1, **d2, ...)]: a keyword given twice raises [TypeError]. *)
Fixpoint call_kwargs (acc : pydict) (parts : list pydict) : pyresult pydict :=
  match parts with
  | [] => PyOk acc
  | d :: t =>
      if existsb (fun kv => smem acc (fst kv)) d then PyRaise TypeError
      else call_kwargs (acc ++ d)%list t
  end.

(** ** [BaseAutotuner] *)

(** [top_k] of [prune_configs_by]: a Python float or int. *)
Inductive topk : Type :=
| TopKFloat (q : Q)
| TopKInt (n : Z).

(** [prune_configs_by]: the dictionary entries the constructor reads. *)
Record PruneConfigsBy : Type := mkPrune {
  pcb_perf_model : option (pydict -> flt);
  pcb_top_k : option topk;
  pcb_early_config_prune :
    option (list ConfigObj -> option pydict -> pydict -> list ConfigObj)
}.

(** The tuner-level hooks [self.pre_hook] / [self.post_hook]: the
    do-nothing lambdas, the reset/restore closures built by the
    constructor, or a user function. *)
Inductive hook : Type :=
| HookNoop
| HookResetRestore
| HookUser (f : nat).

(** [self.do_bench] *)
Inductive bench_fn : Type :=
| BenchCudaGraph (rep : Z)
| BenchTesting (warmup rep : Z)
| BenchDriver
| BenchUser (f : nat).

Record Base : Type := mkBase {
  fn : nat;
  configs : list ConfigObj;
  keys : list string;
  cache : list (list pyval * ConfigObj);
  arg_names : list string;
  reset_to_zero : list string;
  restore_value : list string;
  tuner_pre_hook : hook;             (** [self.pre_hook] *)
  tuner_post_hook : hook;            (** [self.post_hook] *)
  user_defined_pre_hook : bool;
  user_defined_post_hook : bool;
  perf_model : option (pydict -> flt);
  configs_top_k : topk;
  early_config_prune :
    option (list ConfigObj -> option pydict -> pydict -> list ConfigObj);
  num_warmups : option Z;
  num_reps : option Z;
  use_cuda_graph : bool;
  do_bench : bench_fn;
  nargs : option pydict              (** [self.nargs]; [None] is Python's [None] *)
}.

Definition option_default {A : Type} (d : A) (o : option A) : A :=
  match o with Some a => a | None => d end.

Definition nonempty {A : Type} (l : list A) : bool :=
  match l with [] => false | _ => true end.

(** [BaseAutotuner.__init__].  [fresh] is the object id given to the
    default [Config] created when [configs] is empty or [None]. *)
Definition BaseAutotuner___init__ (fresh : nat) (fn : nat)
    (arg_names : list string) (configs : option (list ConfigObj))
    (key : list string) (reset_to_zero restore_value : option (list string))
    (pre_hook post_hook : option nat) (prune_configs_by : option PruneConfigsBy)
    (warmup rep : option Z) (use_cuda_graph : bool) (do_bench : option nat)
    : pyresult Base :=
  let configs_r :=
    match configs with
    | None | Some [] =>
        match Config___init__ [] (PInt 4) (PInt 2) (PInt 1) (PInt 0) (PInt 0)
                (PInt 0) (PInt 0) PNone None with
        | PyOk c => PyOk [mkObj fresh c]
        | PyRaise e => PyRaise e
        end
    | Some cs => PyOk cs
    end in
  match configs_r with
  | PyRaise e => PyRaise e
  | PyOk cs =>
    let rz := option_default [] reset_to_zero in
    let rv := option_default [] restore_value in
    let pre :=
      match pre_hook with
      | Some f => HookUser f
      | None => if nonempty rz || nonempty rv then HookResetRestore else HookNoop
      end in
    let post :=
      match post_hook with
      | Some f => HookUser f
      | None => if nonempty rv then HookResetRestore else HookNoop
      end in
    let '(pm, tk, ecp) :=
      match prune_configs_by with
      | Some p => (pcb_perf_model p, option_default (TopKFloat 1) (pcb_top_k p),
                   pcb_early_config_prune p)
      | None => (None, TopKFloat 1, None)
      end in
    let bench :=
      if match warmup, rep with None, None => negb use_cuda_graph | _, _ => false end
      then match do_bench with Some f => BenchUser f | None => BenchDriver end
      else if use_cuda_graph then BenchCudaGraph (option_default 100%Z rep)
      else BenchTesting (option_default 25%Z warmup) (option_default 100%Z rep) in
    PyOk {| fn := fn; configs := cs; keys := key; cache := [];
            arg_names := arg_names; reset_to_zero := rz; restore_value := rv;
            tuner_pre_hook := pre; tuner_post_hook := post;
            user_defined_pre_hook := match pre_hook with Some _ => true | None => false end;
            user_defined_post_hook := match post_hook with Some _ => true | None => false end;
            perf_model := pm; configs_top_k := tk; early_config_prune := ecp;
            num_warmups := warmup; num_reps := rep; use_cuda_graph := use_cuda_graph;
            do_bench := bench; nargs := None |}
  end.

(** [dict(zip(self.arg_names, args))] *)
Definition zip_args (names : list string) (args : list pyval) : pydict :=
  fold_left (fun d na => sset d (fst na) (snd na)) (combine names args) [].

(** ** Pruning *)

(** [int(x)] for a finite float: truncation toward zero. *)
Definition py_int (q : Q) : Z := Z.quot (Qnum q) (Zpos (Qden q)).

(** [sorted(xs, key=f)]: a stable insertion sort on [<]. *)
Fixpoint insert_by {A : Type} (f : A -> flt) (x : A) (l : list A) : list A :=
  match l with
  | [] => [x]
  | y :: t => if flt_lt (f x) (f y) then x :: y :: t else y :: insert_by f x t
  end.

Definition sorted_by {A : Type} (f : A -> flt) (l : list A) : list A :=
  fold_left (fun acc x => insert_by f x acc) l [].

Definition odget (d : list (ConfigObj * flt)) (c : ConfigObj) : option flt :=
  dget obj_is d c.

(** [BaseAutotuner.prune_configs].  The product [len(self.configs) * top_k]
    of a fractional [top_k] is taken exactly here, while Python first rounds
    it to a double: for the double nearest 0.7 and ten configs the exact
    product is just below 7, so [int()] gives 6 here and 7 in Python. *)
Definition prune_configs (b : Base) (kwargs : pydict) : pyresult (list ConfigObj) :=
  let pruned :=
    match early_config_prune b with
    | Some f => f (configs b) (nargs b) kwargs
    | None => configs b
    end in
  match perf_model b with
  | None => PyOk pruned
  | Some pm =>
    let top_k :=
      match configs_top_k b with
      | TopKFloat q =>
          if Qle_bool q 1 then TopKInt (py_int (inject_Z (Z.of_nat (List.length (configs b))) * q))
          else TopKFloat q
      | t => t
      end in
    let len := inject_Z (Z.of_nat (List.length pruned)) in
    let exceeds :=
      match top_k with TopKInt n => qltb (inject_Z n) len | TopKFloat q => qltb q len end in
    if negb exceeds then PyOk pruned else
    match nargs b with
    | None => PyRaise TypeError     (** [**None] *)
    | Some na =>
      let est :=
        fold_left (fun acc c =>
          match acc with
          | PyRaise e => PyRaise e
          | PyOk d =>
            match call_kwargs [] [na; kwargs; all_kwargs (cfg c)] with
            | PyRaise e => PyRaise e
            | PyOk args => PyOk (dset obj_is d c (pm args))
            end
          end) pruned (PyOk []) in
      match est with
      | PyRaise e => PyRaise e
      | PyOk est_timing =>
        let srt := sorted_by (fun c => option_default NaN (odget est_timing c))
                     (dkeys est_timing) in
        match top_k with
        | TopKInt n => PyOk (firstn (Z.to_nat n) srt)
        | TopKFloat _ => PyRaise TypeError    (** slicing with a float *)
        end
      end
    end
  end.

(** [BaseAutotuner._get_key] *)
Definition _get_key (b : Base) (keys_ : pydict) : list pyval :=
  let args := filter (fun kv => existsb (String.eqb (fst kv)) (arg_names b)) keys_ in
  let key := flat_map (fun k => match sget args k with Some v => [v] | None => [] end)
               (keys b) in
  (key ++ flat_map (fun kv => match snd kv with
                              | PTensor _ dt => [PStr dt]
                              | _ => []
                              end) args)%list.

(** [d[k] = v] / [d.get(k)] on the per-key caches, keyed by call-key tuples. *)
Definition kdget {V : Type} (d : list (list pyval * V)) (k : list pyval) : option V :=
  dget key_eqb d k.
Definition kdset {V : Type} (d : list (list pyval * V)) (k : list pyval) (v : V)
  : list (list pyval * V) := dset key_eqb d k v.

Definition with_nargs (b : Base) (n : option pydict) : Base :=
  {| fn := fn b; configs := configs b; keys := keys b; cache := cache b;
     arg_names := arg_names b; reset_to_zero := reset_to_zero b;
     restore_value := restore_value b; tuner_pre_hook := tuner_pre_hook b;
     tuner_post_hook := tuner_post_hook b;
     user_defined_pre_hook := user_defined_pre_hook b;
     user_defined_post_hook := user_defined_post_hook b;
     perf_model := perf_model b; configs_top_k := configs_top_k b;
     early_config_prune := early_config_prune b; num_warmups := num_warmups b;
     num_reps := num_reps b; use_cuda_graph := use_cuda_graph b;
     do_bench := do_bench b; nargs := n |}.

Definition with_cache (b : Base) (c : list (list pyval * ConfigObj)) : Base :=
  {| fn := fn b; configs := configs b; keys := keys b; cache := c;
     arg_names := arg_names b; reset_to_zero := reset_to_zero b;
     restore_value := restore_value b; tuner_pre_hook := tuner_pre_hook b;
     tuner_post_hook := tuner_post_hook b;
     user_defined_pre_hook := user_defined_pre_hook b;
     user_defined_post_hook := user_defined_post_hook b;
     perf_model := perf_model b; configs_top_k := configs_top_k b;
     early_config_prune := early_config_prune b; num_warmups := num_warmups b;
     num_reps := num_reps b; use_cuda_graph := use_cuda_graph b;
     do_bench := do_bench b; nargs := nargs b |}.

(** ** The world the tuner runs in

    The answers of the external collaborators, consumed in order, and the
    trace of observable actions of the tuner (newest first). *)

Inductive launch_out : Type :=
| LaunchReturns (r : pyval)          (** [self.fn.run(...)] returns [r] *)
| LaunchRaises (e : exn).            (** [self.fn.run(...)] raises [e] *)

Inductive bench_out : Type :=
| BenchReturns (t : list flt)        (** [[median, p20, p80]] *)
| BenchRaises (e : exn).

Inductive event : Type :=
| EvGetKey (k : list pyval)          (** a call of [self._get_key] *)
| EvBench (c : nat)                  (** [self.do_bench] on config [c] *)
| EvPreHook (reset_only : bool)      (** [self.pre_hook(...)] outside a benchmark *)
| EvConfigPreHook (c : nat)          (** [config.pre_hook(...)] *)
| EvLaunch (c : nat).                (** [self.fn.run(...)] with config [c] *)

Record World : Type := mkWorld {
  launches : list launch_out;
  choices : list nat;                (** [random.choice]: an index, taken modulo the length *)
  randoms : list flt;                (** [random.random()] *)
  elapsed : list Q;                  (** [end_event.elapsed_time(start_event)] *)
  benches : list bench_out;
  trace : list event
}.

Definition log (e : event) (w : World) : World :=
  mkWorld (launches w) (choices w) (randoms w) (elapsed w) (benches w) (e :: trace w).

(** ** A state and exception monad over the tuner object *)

Inductive outcome (S A : Type) : Type :=
| Done (a : A) (s : S) (w : World)   (** returns normally *)
| Thrown (e : exn) (s : S) (w : World)  (** raises [e] *)
| Stuck.                             (** the world's answers ran out *)
Arguments Done {S A} a s w.
Arguments Thrown {S A} e s w.
Arguments Stuck {S A}.

Definition M (S A : Type) : Type := S -> World -> outcome S A.

Definition ret {S A : Type} (a : A) : M S A := fun s w => Done a s w.

Definition bind {S A B : Type} (m : M S A) (k : A -> M S B) : M S B :=
  fun s w =>
    match m s w with
    | Done a s' w' => k a s' w'
    | Thrown e s' w' => Thrown e s' w'
    | Stuck => Stuck
    end.

Notation "x <- m ;; k" := (bind m (fun x => k))
  (at level 61, m at next level, right associativity).
Notation "m ;;; k" := (bind m (fun _ => k))
  (at level 61, right associativity).

Definition raise {S A : Type} (e : exn) : M S A := fun s w => Thrown e s w.
Definition get {S : Type} : M S S := fun s w => Done s s w.
Definition put {S : Type} (s : S) : M S unit := fun _ w => Done tt s w.
Definition emit {S : Type} (e : event) : M S unit := fun s w => Done tt s (log e w).

Definition lift {S A : Type} (r : pyresult A) : M S A :=
  match r with PyOk a => ret a | PyRaise e => raise e end.

Definition next_launch {S : Type} : M S launch_out := fun s w =>
  match launches w with
  | [] => Stuck
  | x :: t => Done x s (mkWorld t (choices w) (randoms w) (elapsed w) (benches w) (trace w))
  end.

(** [random.choice(seq)] for a non-empty [seq]. *)
Definition next_choice {S A : Type} (seq : list A) (dflt : A) : M S A := fun s w =>
  match choices w with
  | [] => Stuck
  | i :: t => Done (nth (Nat.modulo i (List.length seq)) seq dflt) s
                   (mkWorld (launches w) t (randoms w) (elapsed w) (benches w) (trace w))
  end.

Definition next_random {S : Type} : M S flt := fun s w =>
  match randoms w with
  | [] => Stuck
  | x :: t => Done x s (mkWorld (launches w) (choices w) t (elapsed w) (benches w) (trace w))
  end.

Definition next_elapsed {S : Type} : M S Q := fun s w =>
  match elapsed w with
  | [] => Stuck
  | x :: t => Done x s (mkWorld (launches w) (choices w) (randoms w) t (benches w) (trace w))
  end.

Definition next_bench {S : Type} : M S bench_out := fun s w =>
  match benches w with
  | [] => Stuck
  | x :: t => Done x s (mkWorld (launches w) (choices w) (randoms w) (elapsed w) t (trace w))
  end.

(** Every policy object holds the [BaseAutotuner] attributes. *)
Class HasBase (S : Type) := {
  base_of : S -> Base;
  with_base : S -> Base -> S
}.

Definition set_nargs {S : Type} `{HasBase S} (n : option pydict) : M S unit :=
  fun s w => Done tt (with_base s (with_nargs (base_of s) n)) w.

(** [BaseAutotuner._bench(self, *args, config, **meta)]: the benchmarker
    is handed [kernel_call], which runs the hooks and the kernel; its
    answer comes from the world. *)
Definition _bench {S : Type} `{HasBase S} (args : list pyval) (config : ConfigObj)
    (meta : pydict) : M S (list flt) :=
  s <- get ;;
  if existsb (smem (kwargs (cfg config))) (dkeys meta) then raise ValueError else
  let current := smerge meta (all_kwargs (cfg config)) in
  match nargs (base_of s) with
  | None => raise TypeError
  | Some na =>
    let full_nargs := smerge na current in
    emit (EvBench (oid config)) ;;;
    r <- next_bench ;;
    match r with
    | BenchReturns t => ret t
    | BenchRaises OutOfResources | BenchRaises CompileTimeAssertionFailure =>
        ret [inf; inf; inf]
    | BenchRaises e => raise e
    end
  end.

(** [if config.pre_hook is not None: config.pre_hook(full_nargs)] followed
    by [self.fn.run( *args, **kwargs, **config.all_kwargs())]. *)
Definition launch {S : Type} (args : list pyval) (kwargs : pydict)
    (config : ConfigObj) : M S launch_out :=
  (match pre_hook (cfg config) with
   | Some _ => emit (EvConfigPreHook (oid config))
   | None => ret tt
   end) ;;;
  _ <- lift (call_kwargs [] [kwargs; all_kwargs (cfg config)]) ;;
  emit (EvLaunch (oid config)) ;;;
  next_launch.

(** ** [Autotuner]: the exhaustive policy *)

Record Autotuner : Type := mkAutotuner {
  at_base : Base;
  best_config : option ConfigObj;
  configs_timings : list (ConfigObj * list flt)
}.

#[global] Instance Autotuner_HasBase : HasBase Autotuner :=
  { base_of := at_base;
    with_base := fun s b => mkAutotuner b (best_config s) (configs_timings s) }.

(** [{config: self._bench( *args, config=config, **kwargs) for config in
    pruned_configs}] *)
Fixpoint bench_all {S : Type} `{HasBase S} (args : list pyval) (kwargs : pydict)
    (pruned : list ConfigObj) (acc : list (ConfigObj * list flt))
    : M S (list (ConfigObj * list flt)) :=
  match pruned with
  | [] => ret acc
  | c :: t => tm <- _bench args c kwargs ;; bench_all args kwargs t (dset obj_is acc c tm)
  end.

Definition timings_get (timings : list (ConfigObj * list flt)) (c : ConfigObj) : list flt :=
  option_default [] (dget obj_is timings c).

(** [builtins.min(timings, key=timings.get)] *)
Definition select_best (timings : list (ConfigObj * list flt)) : pyresult ConfigObj :=
  py_min list_lt (timings_get timings) (dkeys timings).

(** [Autotuner.run] *)
Definition Autotuner_run (args : list pyval) (kwargs : pydict) : M Autotuner pyval :=
  s0 <- get ;;
  let na := zip_args (arg_names (at_base s0)) args in
  set_nargs (Some na) ;;;
  config <-
    (s <- get ;;
     let b := at_base s in
     if Nat.ltb 1 (List.length (configs b)) then
       let key := _get_key b (smerge na kwargs) in
       emit (EvGetKey key) ;;;
       match kdget (cache b) key with
       | Some c => ret c
       | None =>
           pruned <- lift (prune_configs b kwargs) ;;
           timings <- bench_all args kwargs pruned [] ;;
           best <- lift (select_best timings) ;;
           s1 <- get ;;
           put (mkAutotuner (with_cache (at_base s1) (kdset (cache (at_base s1)) key best))
                  (best_config s1) (configs_timings s1)) ;;;
           emit (EvPreHook true) ;;;
           s2 <- get ;;
           put (mkAutotuner (at_base s2) (best_config s2) timings) ;;;
           ret best
       end
     else
       match configs b with
       | c :: _ => ret c
       | [] => raise (OtherException 0)      (** [IndexError] *)
       end) ;;
  s3 <- get ;;
  put (mkAutotuner (at_base s3) (Some config) (configs_timings s3)) ;;;
  r <- launch args kwargs config ;;
  match r with
  | LaunchRaises e => raise e
  | LaunchReturns v => set_nargs None ;;; ret v
  end.

(** ** The per-key caches of the stepwise and confidence policies

    [self._tcache[key]] is either a decided [Config] or a dictionary from
    configs to their sample lists, [None] marking a failed config. *)

Definition samples := option (list Q).

Inductive entry : Type :=
| Decided (c : ConfigObj)
| Exploring (d : list (ConfigObj * samples)).

Definition tcache_t := list (list pyval * entry).

Class HasTCache (S : Type) := {
  tcache_of : S -> tcache_t;
  with_tcache : S -> tcache_t -> S
}.

Definition get_world {S : Type} : M S World := fun s w => Done w s w.

Section TCache.
Context {S : Type} `{HasTCache S}.

(** [self._tcache[key]] on the [defaultdict]: a missing key gets a new
    empty dictionary. *)
Definition tc_fetch (key : list pyval) : M S entry := fun s w =>
  match kdget (tcache_of s) key with
  | Some e => Done e s w
  | None => Done (Exploring []) (with_tcache s (kdset (tcache_of s) key (Exploring []))) w
  end.

(** A write into the dictionary held by the local variable [cache]: it
    is the object [self._tcache[key]] as long as that is a dictionary. *)
Definition local_sync (key : list pyval) (d : list (ConfigObj * samples)) : M S unit :=
  fun s w =>
    match kdget (tcache_of s) key with
    | Some (Exploring _) => Done tt (with_tcache s (kdset (tcache_of s) key (Exploring d))) w
    | _ => Done tt s w
    end.

(** [self._tcache[key] = config] *)
Definition tc_decide (key : list pyval) (config : ConfigObj) : M S unit :=
  fun s w => Done tt (with_tcache s (kdset (tcache_of s) key (Decided config))) w.

(** [self._tcache[key][config] = None] *)
Definition tc_mark_failed (key : list pyval) (config : ConfigObj)
    : M S (list (ConfigObj * samples)) := fun s w =>
  match option_default (Exploring []) (kdget (tcache_of s) key) with
  | Decided _ => Thrown TypeError s w
  | Exploring d =>
      let d' := dset obj_is d config None in
      Done d' (with_tcache s (kdset (tcache_of s) key (Exploring d'))) w
  end.

(** [self._tcache[key][config].append(t)] *)
Definition tc_append (key : list pyval) (config : ConfigObj) (t : Q)
    : M S (list (ConfigObj * samples)) := fun s w =>
  match option_default (Exploring []) (kdget (tcache_of s) key) with
  | Decided _ => Thrown TypeError s w
  | Exploring d =>
      match option_default (Some []) (dget obj_is d config) with
      | None => Thrown AttributeError s w
      | Some l =>
          let d' := dset obj_is d config (Some (l ++ [t])%list) in
          Done d' (with_tcache s (kdset (tcache_of s) key (Exploring d'))) w
      end
  end.
End TCache.

(** [cache[config]] on the inner [defaultdict(list)] for every pruned
    config, in order: a missing config gets an empty sample list. *)
Definition touch_all (d : list (ConfigObj * samples)) (pruned : list ConfigObj)
    : list (ConfigObj * samples) :=
  fold_left (fun acc c => match dget obj_is acc c with
                          | Some _ => acc
                          | None => dset obj_is acc c (Some [])
                          end) pruned d.

Definition sample_of (d : list (ConfigObj * samples)) (c : ConfigObj) : samples :=
  option_default (Some []) (dget obj_is d c).

Definition not_failed (d : list (ConfigObj * samples)) (c : ConfigObj) : bool :=
  match sample_of d c with Some _ => true | None => false end.

Definition Qsum (l : list Q) : Q := fold_left Qplus l 0.

(** [builtins.min(xs, key=f)] with a key function that may raise: every
    key is computed, in order. *)
Definition py_min_res {A : Type} (lt : flt -> flt -> bool) (f : A -> pyresult flt)
    (l : list A) : pyresult A :=
  let ks := map (fun x => (x, f x)) l in
  match find (fun p => match snd p with PyRaise _ => true | PyOk _ => false end) ks with
  | Some (_, PyRaise e) => PyRaise e
  | _ => py_min lt (fun x => match f x with PyOk v => v | PyRaise _ => NaN end) l
  end.

(** ** The exploration loop shared by the stepwise and confidence policies

    The bodies of the [while ret == None] loops of [StepwiseAutotuner.run]
    and [ConfidenceAutotuner.run] differ only in how an undecided pass
    chooses its config ([select]); [cache] is the local variable of that
    name, read once from [self._tcache[key]] before the loop. *)
Section ExploreLoop.
Context {St : Type} `{HasTCache St}.
Variable prune : St -> pydict -> pyresult (list ConfigObj).
Variable select : list pyval -> list (ConfigObj * samples) -> list ConfigObj ->
                  M St (ConfigObj * bool).

Fixpoint explore_loop (fuel : nat) (args : list pyval) (kwargs : pydict)
    (key : list pyval) (cache : entry) : M St pyval :=
  match fuel with
  | O => fun _ _ => Stuck
  | S fuel' =>
    s <- get ;;
    sel <- (match cache with
            | Decided c => ret (c, true, cache)
            | Exploring d =>
                pruned <- lift (prune s kwargs) ;;
                let d1 := touch_all d pruned in
                local_sync key d1 ;;;
                cb <- select key d1 pruned ;;
                let '(config, isconfig) := cb in
                ret (config, isconfig, Exploring d1)
            end) ;;
    let '(config, isconfig, cache1) := sel in
    r <- launch args kwargs config ;;
    rv <- (match r with
           | LaunchReturns v => ret v
           | LaunchRaises OutOfResources => ret PNone
           | LaunchRaises e => raise e
           end) ;;
    cache2 <- (if isconfig then ret cache1 else
                 t <- next_elapsed ;;
                 d' <- (if truthy rv then tc_append key config t
                        else tc_mark_failed key config) ;;
                 ret (Exploring d')) ;;
    if is_none rv then explore_loop fuel' args kwargs key cache2 else ret rv
  end.
End ExploreLoop.

(** ** [StepwiseAutotuner] *)

Record StepwiseAutotuner : Type := mkStepwise {
  sw_base : Base;
  _min_try : Z;
  sw_tcache : tcache_t                 (** [self._tcache] *)
}.

#[global] Instance Stepwise_HasBase : HasBase StepwiseAutotuner :=
  { base_of := sw_base;
    with_base := fun s b => mkStepwise b (_min_try s) (sw_tcache s) }.
#[global] Instance Stepwise_HasTCache : HasTCache StepwiseAutotuner :=
  { tcache_of := sw_tcache;
    with_tcache := fun s t => mkStepwise (sw_base s) (_min_try s) t }.

(** [lambda c: sum(cache[c]) / len(cache[c])] *)
Definition stepwise_mean (d : list (ConfigObj * samples)) (c : ConfigObj) : pyresult flt :=
  match sample_of d c with
  | None => PyRaise TypeError
  | Some [] => PyRaise ZeroDivisionError
  | Some l => PyOk (Fin (Qsum l / inject_Z (Z.of_nat (List.length l))))
  end.

(** The eligible configs of the stepwise policy: pruned, not failed and
    sampled fewer than [min_try] times. *)
Definition stepwise_eligible (min_try : Z) (d : list (ConfigObj * samples))
    (pruned : list ConfigObj) : list ConfigObj :=
  filter (fun c => match sample_of d c with
                   | Some l => Z.ltb (Z.of_nat (List.length l)) min_try
                   | None => false
                   end) pruned.

(** The choice of an undecided pass of [StepwiseAutotuner.run] on the
    dictionary [d1] after [cache[config]] touched every pruned config: a
    random eligible config, or, when none is eligible, the committed config
    of least mean time. *)
Definition stepwise_select (key : list pyval) (d1 : list (ConfigObj * samples))
    (pruned : list ConfigObj) : M StepwiseAutotuner (ConfigObj * bool) :=
  s <- get ;;
  let configs := stepwise_eligible (_min_try s) d1 pruned in
  match configs with
  | c0 :: _ =>
      config <- next_choice configs c0 ;;
      ret (config, false)
  | [] =>
      config <- lift (py_min_res flt_lt (stepwise_mean d1)
                        (filter (not_failed d1) (dkeys d1))) ;;
      tc_decide key config ;;;
      ret (config, true)
  end.

Definition Stepwise_loop := explore_loop (fun s => prune_configs (sw_base s)) stepwise_select.

(** [StepwiseAutotuner.run] *)
Definition StepwiseAutotuner_run (args : list pyval) (kwargs : pydict)
    : M StepwiseAutotuner pyval :=
  s0 <- get ;;
  let na := zip_args (arg_names (sw_base s0)) args in
  set_nargs (Some na) ;;;
  s <- get ;;
  let key := _get_key (sw_base s) (smerge na kwargs) in
  emit (EvGetKey key) ;;;
  cache <- tc_fetch key ;;
  w <- get_world ;;
  rv <- Stepwise_loop (S (List.length (launches w))) args kwargs key cache ;;
  set_nargs None ;;;
  ret rv.

(** ** [ConfidenceAutotuner] *)

Record ConfidenceAutotuner : Type := mkConfidence {
  cf_base : Base;
  _ratio : flt;
  cf_tcache : tcache_t
}.

#[global] Instance Confidence_HasBase : HasBase ConfidenceAutotuner :=
  { base_of := cf_base;
    with_base := fun s b => mkConfidence b (_ratio s) (cf_tcache s) }.
#[global] Instance Confidence_HasTCache : HasTCache ConfidenceAutotuner :=
  { tcache_of := cf_tcache;
    with_tcache := fun s t => mkConfidence (cf_base s) (_ratio s) t }.

Definition qlen (l : list Q) : Q := inject_Z (Z.of_nat (List.length l)).

(** [statistics.mean] and [statistics.variance] (sample variance). *)
Definition st_mean (l : list Q) : Q := Qsum l / qlen l.
Definition st_variance (l : list Q) : Q :=
  let m := st_mean l in
  Qsum (map (fun x => (x - m) * (x - m)) l) / (qlen l - 1).

(** [_get_boundary(timelist, op)]: [if timelist:] is false for [None] and
    for the empty list; [len(None)] raises [TypeError]. *)
Definition _get_boundary (ratio : flt) (timelist : samples) (op : flt -> flt -> flt)
    : pyresult flt :=
  let mean := match timelist with
              | Some ((_ :: _) as l) => Fin (st_mean l)
              | _ => float_max
              end in
  match timelist with
  | None => PyRaise TypeError
  | Some l =>
      let variance :=
        if Nat.ltb 1 (List.length l) then Fin (st_variance l)
        else if Nat.eqb (List.length l) 1 then float_max
        else Fin 0 in
      PyOk (op mean (flt_mul ratio variance))
  end.

Definition _get_upper_boundary (ratio : flt) (timelist : samples) : pyresult flt :=
  _get_boundary ratio timelist flt_add.

Definition _get_lower_boundary (ratio : flt) (timelist : samples) : pyresult flt :=
  _get_boundary ratio timelist flt_sub.

(** [all(_get_lower_boundary(v) >= config_upper_boundary
         for k, v in cache.items() if k != config)], evaluated lazily. *)
Fixpoint conf_all (ratio : flt) (items : list (ConfigObj * samples))
    (config : ConfigObj) (ub : flt) : pyresult bool :=
  match items with
  | [] => PyOk true
  | (k, v) :: t =>
      if obj_is k config then conf_all ratio t config ub else
      match _get_lower_boundary ratio v with
      | PyRaise e => PyRaise e
      | PyOk lv => if flt_ge lv ub then conf_all ratio t config ub else PyOk false
      end
  end.

(** The decision of one undecided pass of [ConfidenceAutotuner.run], on the
    dictionary [d1] after [cache[config]] touched every pruned config:
    the config [c*] of least lower boundary, and whether it is committed. *)
Definition confidence_decide (ratio : flt) (d1 : list (ConfigObj * samples))
    (pruned : list ConfigObj) : pyresult (ConfigObj * bool) :=
  let configs := filter (not_failed d1) pruned in
  match py_min_res flt_lt (fun c => _get_lower_boundary ratio (sample_of d1 c)) configs with
  | PyRaise e => PyRaise e
  | PyOk config =>
      match _get_upper_boundary ratio (sample_of d1 config) with
      | PyRaise e => PyRaise e
      | PyOk ub =>
          match conf_all ratio d1 config ub with
          | PyRaise e => PyRaise e
          | PyOk b => PyOk (config, b)
          end
      end
  end.

(** The choice of an undecided pass of [ConfidenceAutotuner.run]. *)
Definition confidence_select (key : list pyval) (d1 : list (ConfigObj * samples))
    (pruned : list ConfigObj) : M ConfidenceAutotuner (ConfigObj * bool) :=
  s <- get ;;
  cb <- lift (confidence_decide (_ratio s) d1 pruned) ;;
  let '(config, commit) := cb in
  (if commit then tc_decide key config else ret tt) ;;;
  ret (config, commit).

Definition Confidence_loop := explore_loop (fun s => prune_configs (cf_base s)) confidence_select.

(** [ConfidenceAutotuner.run] *)
Definition ConfidenceAutotuner_run (args : list pyval) (kwargs : pydict)
    : M ConfidenceAutotuner pyval :=
  s0 <- get ;;
  let na := zip_args (arg_names (cf_base s0)) args in
  set_nargs (Some na) ;;;
  s <- get ;;
  let key := _get_key (cf_base s) (smerge na kwargs) in
  emit (EvGetKey key) ;;;
  cache <- tc_fetch key ;;
  w <- get_world ;;
  rv <- Confidence_loop (S (List.length (launches w))) args kwargs key cache ;;
  set_nargs None ;;;
  ret rv.

(** ** [EpsilonAutotuner] *)

Record EpsilonAutotuner : Type := mkEpsilon {
  ep_base : Base;
  _epsilon : flt;
  _decay : flt;
  ep_tcache : list (list pyval * (option ConfigObj * flt * flt))
}.

#[global] Instance Epsilon_HasBase : HasBase EpsilonAutotuner :=
  { base_of := ep_base;
    with_base := fun s b => mkEpsilon b (_epsilon s) (_decay s) (ep_tcache s) }.

Fixpoint Epsilon_loop (fuel : nat) (args : list pyval) (kwargs : pydict)
    (key : list pyval) : M EpsilonAutotuner pyval :=
  match fuel with
  | O => fun _ _ => Stuck
  | S fuel' =>
    s <- get ;;
    st <- (match kdget (ep_tcache s) key with
           | Some (candidate, epsilon, perf) =>
               u <- next_random ;;
               ret (flt_lt u epsilon, candidate, epsilon, perf)
           | None => ret (true, None, _epsilon s, float_max)
           end) ;;
    let '(is_explore, candidate, epsilon, perf) := st in
    choice <- (if is_explore then
                 pruned <- lift (prune_configs (ep_base s) kwargs) ;;
                 let configs := filter (fun c => match candidate with
                                                 | Some k => negb (obj_is c k)
                                                 | None => true
                                                 end) pruned in
                 match configs with
                 | c0 :: _ => c <- next_choice configs c0 ;; ret (Some c)
                 | [] => ret None
                 end
               else ret None) ;;
    config <- (match choice, candidate with
               | Some c, _ => ret c
               | None, Some c => ret c
               | None, None => raise AttributeError    (** [None.pre_hook] *)
               end) ;;
    r <- launch args kwargs config ;;
    rv <- (match r with
           | LaunchReturns v => ret v
           | LaunchRaises OutOfResources => ret PNone
           | LaunchRaises e => raise e
           end) ;;
    if is_none rv then Epsilon_loop fuel' args kwargs key else
    (if is_explore then
       t <- next_elapsed ;;
       let '(candidate', epsilon', perf') :=
         if flt_lt (Fin t) perf then (Some config, _epsilon s, Fin t)
         else (candidate, flt_mul epsilon (flt_sub (Fin 1) (_decay s)), perf) in
       s' <- get ;;
       put (mkEpsilon (ep_base s') (_epsilon s') (_decay s')
              (kdset (ep_tcache s') key (candidate', epsilon', perf')))
     else ret tt) ;;;
    ret rv
  end.

(** [EpsilonAutotuner.run]: the loop returns from inside its body. *)
Definition EpsilonAutotuner_run (args : list pyval) (kwargs : pydict)
    : M EpsilonAutotuner pyval :=
  s0 <- get ;;
  let na := zip_args (arg_names (ep_base s0)) args in
  set_nargs (Some na) ;;;
  s <- get ;;
  let key := _get_key (ep_base s) (smerge na kwargs) in
  emit (EvGetKey key) ;;;
  w <- get_world ;;
  Epsilon_loop (S (List.length (launches w))) args kwargs key.

(** ** Constructors of the four policies *)

Definition Autotuner___init__ (fresh fn : nat) (arg_names : list string)
    (configs : option (list ConfigObj)) (key : list string)
    (reset_to_zero restore_value : option (list string))
    (pre_hook post_hook : option nat) (prune_configs_by : option PruneConfigsBy)
    (warmup rep : option Z) (use_cuda_graph : bool) (do_bench : option nat)
    : pyresult Autotuner :=
  match BaseAutotuner___init__ fresh fn arg_names configs key reset_to_zero
          restore_value pre_hook post_hook prune_configs_by warmup rep
          use_cuda_graph do_bench with
  | PyOk b => PyOk (mkAutotuner b None [])
  | PyRaise e => PyRaise e
  end.

Definition StepwiseAutotuner___init__ (fresh fn : nat) (arg_names : list string)
    (configs : option (list ConfigObj)) (key : list string)
    (reset_to_zero restore_value : option (list string))
    (pre_hook post_hook : option nat) (prune_configs_by : option PruneConfigsBy)
    (warmup rep : option Z) (use_cuda_graph : bool) (do_bench : option nat)
    (min_try : Z) : pyresult StepwiseAutotuner :=
  match BaseAutotuner___init__ fresh fn arg_names configs key reset_to_zero
          restore_value pre_hook post_hook prune_configs_by warmup rep
          use_cuda_graph do_bench with
  | PyOk b => PyOk (mkStepwise b min_try [])
  | PyRaise e => PyRaise e
  end.

Definition EpsilonAutotuner___init__ (fresh fn : nat) (arg_names : list string)
    (configs : option (list ConfigObj)) (key : list string)
    (reset_to_zero restore_value : option (list string))
    (pre_hook post_hook : option nat) (prune_configs_by : option PruneConfigsBy)
    (warmup rep : option Z) (use_cuda_graph : bool) (do_bench : option nat)
    (epsilon decay : flt) : pyresult EpsilonAutotuner :=
  match BaseAutotuner___init__ fresh fn arg_names configs key reset_to_zero
          restore_value pre_hook post_hook prune_configs_by warmup rep
          use_cuda_graph do_bench with
  | PyOk b => PyOk (mkEpsilon b epsilon decay [])
  | PyRaise e => PyRaise e
  end.

Definition ConfidenceAutotuner___init__ (fresh fn : nat) (arg_names : list string)
    (configs : option (list ConfigObj)) (key : list string)
    (reset_to_zero restore_value : option (list string))
    (pre_hook post_hook : option nat) (prune_configs_by : option PruneConfigsBy)
    (warmup rep : option Z) (use_cuda_graph : bool) (do_bench : option nat)
    (ratio : flt) : pyresult ConfidenceAutotuner :=
  match BaseAutotuner___init__ fresh fn arg_names configs key reset_to_zero
          restore_value pre_hook post_hook prune_configs_by warmup rep
          use_cuda_graph do_bench with
  | PyOk b => PyOk (mkConfidence b ratio [])
  | PyRaise e => PyRaise e
  end.

(** The Python default values of the policy-specific parameters. *)
Definition default_min_try : Z := 20.
Definition default_epsilon : flt := Fin 1.
Definition default_decay : flt := Fin (1 # 1000).
Definition default_ratio : flt := Fin 3.

(** ** The dispatch facade [autotune] *)

(** The parameters of [autotune(configs, key, prune_configs_by=None,
    reset_to_zero=None, restore_value=None, pre_hook=None, post_hook=None,
    warmup=None, rep=None, use_cuda_graph=False, do_bench=None)]. *)
Record AutotuneArgs : Type := mkAutotuneArgs {
  a_configs : option (list ConfigObj);
  a_key : list string;
  a_prune_configs_by : option PruneConfigsBy;
  a_reset_to_zero : option (list string);
  a_restore_value : option (list string);
  a_pre_hook : option nat;
  a_post_hook : option nat;
  a_warmup : option Z;
  a_rep : option Z;
  a_use_cuda_graph : bool;
  a_do_bench : option nat
}.



(** A jit'd kernel: its identity and [arg_names]. *)
Record Kernel : Type := mkKernel { k_fn : nat; k_arg_names : list string }.

Inductive Tuner : Type :=
| TAutotuner (t : Autotuner)
| TStepwise (t : StepwiseAutotuner)
| TEpsilon (t : EpsilonAutotuner)
| TConfidence (t : ConfidenceAutotuner).

Definition map_res {A B : Type} (f : A -> B) (r : pyresult A) : pyresult B :=
  match r with PyOk a => PyOk (f a) | PyRaise e => PyRaise e end.

(** [decorator(fn, autotuner="default")] inside [autotune]: the selected
    class is called with twelve positional arguments. *)
Definition autotune_decorator (a : AutotuneArgs) (fresh : nat) (fn : Kernel)
    (autotuner : string) : pyresult Tuner :=
  let f := k_fn fn in
  let an := k_arg_names fn in
  if String.eqb autotuner "default" then
    map_res TAutotuner (Autotuner___init__ fresh f an (a_configs a) (a_key a)
      (a_reset_to_zero a) (a_restore_value a) (a_pre_hook a) (a_post_hook a)
      (a_prune_configs_by a) (a_warmup a) (a_rep a) (a_use_cuda_graph a) None)
  else if String.eqb autotuner "stepwise" then
    map_res TStepwise (StepwiseAutotuner___init__ fresh f an (a_configs a) (a_key a)
      (a_reset_to_zero a) (a_restore_value a) (a_pre_hook a) (a_post_hook a)
      (a_prune_configs_by a) (a_warmup a) (a_rep a) (a_use_cuda_graph a) None
      default_min_try)
  else if String.eqb autotuner "epsilon" then
    map_res TEpsilon (EpsilonAutotuner___init__ fresh f an (a_configs a) (a_key a)
      (a_reset_to_zero a) (a_restore_value a) (a_pre_hook a) (a_post_hook a)
      (a_prune_configs_by a) (a_warmup a) (a_rep a) (a_use_cuda_graph a) None
      default_epsilon default_decay)
  else if String.eqb autotuner "confidence" then
    map_res TConfidence (ConfidenceAutotuner___init__ fresh f an (a_configs a) (a_key a)
      (a_reset_to_zero a) (a_restore_value a) (a_pre_hook a) (a_post_hook a)
      (a_prune_configs_by a) (a_warmup a) (a_rep a) (a_use_cuda_graph a) None
      default_ratio)
  else PyRaise NotImplementedError.

(** A sequence of calls [tuner.run( *args, **kwargs)] on one tuner object;
    an exception ends the sequence. *)
Fixpoint run_seq {S : Type} (run : list pyval -> pydict -> M S pyval)
    (calls : list (list pyval * pydict)) : M S (list pyval) :=
  match calls with
  | [] => ret []
  | (args, kwargs) :: rest =>
      v <- run args kwargs ;;
      vs <- run_seq run rest ;;
      ret (v :: vs)
  end.


(** Actions that belong to tuning: measuring a config or computing the
    call key. *)
Definition no_tuning_event (e : event) : Prop :=
  match e with
  | EvBench _ | EvGetKey _ => False
  | _ => True
  end.



(** Only the decided config is run. *)
Definition runs_only (c : ConfigObj) (e : event) : Prop :=
  match e with
  | EvLaunch n | EvConfigPreHook n => n = oid c
  | EvGetKey _ => True
  | _ => False
  end.

(** Any event: a trace with no restriction. *)
Definition any_event (e : event) : Prop := True.

(** The key [run] computes from its arguments. *)
Definition run_key (b : Base) (args : list pyval) (kwargs : pydict) : list pyval :=
  _get_key b (smerge (zip_args (arg_names b) args) kwargs).

(** A property [Q] of the entry of [self._tcache] for the key [K]. *)
Definition keyed {St : Type} `{HasTCache St} (K : list pyval) (Q : option entry -> Prop)
    (s : St) : Prop :=
  Q (kdget (tcache_of s) K).

(** [self._tcache[K]] holds the decided config [c]. *)
Definition decided_at {St : Type} `{HasTCache St} (K : list pyval) (c : ConfigObj) : St -> Prop :=
  keyed K (fun e => e = Some (Decided c)).

(** The exhaustive policy's cache holds [c] for [K]; it is consulted only
    with at least two configs. *)
Definition cached_at (K : list pyval) (c : ConfigObj) (s : Autotuner) : Prop :=
  kdget (cache (at_base s)) K = Some c /\ (1 < List.length (configs (at_base s)))%nat.

(** The exhaustive cache is filled only when there are at least two configs. *)
Definition cache_needs_two (s : Autotuner) : Prop :=
  cache (at_base s) <> [] -> (1 < List.length (configs (at_base s)))%nat.

(** [c] is marked failed in an entry of [self._tcache]: its sample list
    is [None], or the entry is a decided config other than [c]. *)
Definition failed_entry (c : ConfigObj) (e : option entry) : Prop :=
  match e with
  | Some (Exploring d) => dget obj_is d c = Some None
  | Some (Decided c') => oid c' <> oid c
  | None => False
  end.

(** The entry of [self._tcache] for [K] marks [c] failed. *)
Definition failed_at {St : Type} `{HasTCache St} (K : list pyval) (c : ConfigObj) : St -> Prop :=
  keyed K (failed_entry c).

(** Neither the pre-hook nor the kernel is run with [c]. *)
Definition not_run (c : ConfigObj) (e : event) : Prop :=
  match e with
  | EvLaunch n | EvConfigPreHook n => n <> oid c
  | _ => True
  end.

(** ** [BaseAutotuner.warmup] *)

(** [self.fn.warmup( *args, **kwargs, **config.all_kwargs())] for each
    pruned config, in order; [fn_warmup] is [self.fn.warmup], an external
    function of the positional and keyword arguments. *)
Fixpoint warmup_all (fn_warmup : list pyval -> pydict -> pyresult pyval)
    (args : list pyval) (kwargs : pydict) (pruned : list ConfigObj)
    (acc : list pyval) : pyresult (list pyval) :=
  match pruned with
  | [] => PyOk acc
  | c :: t =>
      match call_kwargs [] [kwargs; all_kwargs (cfg c)] with
      | PyRaise e => PyRaise e
      | PyOk kw =>
          match fn_warmup args kw with
          | PyRaise e => PyRaise e
          | PyOk r => warmup_all fn_warmup args kwargs t (acc ++ [r])%list
          end
      end
  end.

(** [BaseAutotuner.warmup] *)
Definition BaseAutotuner_warmup {S : Type} `{HasBase S}
    (fn_warmup : list pyval -> pydict -> pyresult pyval)
    (args : list pyval) (kwargs : pydict) : M S (list pyval) :=
  s0 <- get ;;
  set_nargs (Some (zip_args (arg_names (base_of s0)) args)) ;;;
  s <- get ;;
  pruned <- lift (prune_configs (base_of s) kwargs) ;;
  r <- lift (warmup_all fn_warmup args kwargs pruned []) ;;
  set_nargs None ;;;
  ret r.

(** ** [Heuristics] *)

(** A heuristic of [values]: a function of the argument dictionary, which
    may raise. *)
Record Heuristics : Type := mkHeuristics {
  h_fn : nat;
  h_values : list (string * (pydict -> pyresult pyval));
  h_arg_names : list string
}.

(** [heuristics(values)(fn)]: [Heuristics(fn, fn.arg_names, values)]. *)
Definition heuristics (values : list (string * (pydict -> pyresult pyval)))
    (fn : Kernel) : Heuristics :=
  mkHeuristics (k_fn fn) values (k_arg_names fn).

(** The loop [for v, heur in self.values.items(): kwargs[v] =
    heur({**dict(zip(self.arg_names, args)), **kwargs})]: the keyword
    arguments it leaves. *)
Fixpoint heuristics_kwargs (arg_names : list string) (args : list pyval)
    (values : list (string * (pydict -> pyresult pyval))) (kwargs : pydict)
    : pyresult pydict :=
  match values with
  | [] => PyOk kwargs
  | (v, heur) :: t =>
      match heur (smerge (zip_args arg_names args) kwargs) with
      | PyRaise e => PyRaise e
      | PyOk x => heuristics_kwargs arg_names args t (sset kwargs v x)
      end
  end.

(** [Heuristics.run]; [fn_run] is [self.fn.run]. *)
Definition Heuristics_run (fn_run : list pyval -> pydict -> pyresult pyval)
    (h : Heuristics) (args : list pyval) (kwargs : pydict) : pyresult pyval :=
  match heuristics_kwargs (h_arg_names h) args (h_values h) kwargs with
  | PyRaise e => PyRaise e
  | PyOk kw => fn_run args kw
  end.

(** ** The reset and restore hooks and [kernel_call]

    The closures [_pre_hook] and [_post_hook] of [BaseAutotuner.__init__]
    act on tensors: [zero_()], [clone()] and [copy_()].  A tensor is an
    object whose contents are a list of numbers; [tmem] holds the contents
    of every tensor object by its object id, and a clone is the snapshot of
    its source's contents (nothing else refers to the clone). *)

Definition tmem := list (nat * list Z).

Definition tget (m : tmem) (o : nat) : list Z := option_default [] (dget Nat.eqb m o).
Definition tset (m : tmem) (o : nat) (v : list Z) : tmem := dset Nat.eqb m o v.

(** The tensors and the attribute [self.restore_copies] ([None] while it
    has not been assigned). *)
Record HookState : Type := mkHookState {
  hs_mem : tmem;
  restore_copies : option (list (string * list Z))
}.

(** [KeyError] *)
Definition KeyError : exn := OtherException 1.

Definition modify_mem (f : tmem -> tmem) : M HookState unit :=
  fun s w => Done tt (mkHookState (f (hs_mem s)) (restore_copies s)) w.

(** [kwargs[name]] used as a tensor: [KeyError] when the name is missing;
    a value that is no tensor has no [zero_], [clone] or [copy_]. *)
Definition kw_tensor (kw : pydict) (name : string) : M HookState nat :=
  match sget kw name with
  | None => raise KeyError
  | Some (PTensor o _) => ret o
  | Some _ => raise AttributeError
  end.

(** [t.zero_()] *)
Definition zero_ (o : nat) : M HookState unit :=
  modify_mem (fun m => tset m o (map (fun _ => 0%Z) (tget m o))).

(** [for name in self.reset_to_zero: kwargs[name].zero_()] *)
Fixpoint zero_all (kw : pydict) (names : list string) : M HookState unit :=
  match names with
  | [] => ret tt
  | n :: t => o <- kw_tensor kw n ;; zero_ o ;;; zero_all kw t
  end.

(** [{name: kwargs[name].clone() for name in self.restore_value}] *)
Fixpoint clone_all (kw : pydict) (names : list string) (acc : list (string * list Z))
    : M HookState (list (string * list Z)) :=
  match names with
  | [] => ret acc
  | n :: t =>
      o <- kw_tensor kw n ;;
      s <- get ;;
      clone_all kw t (dset String.eqb acc n (tget (hs_mem s) o))
  end.

(** [_pre_hook(kwargs, reset_only=False)] *)
Definition _pre_hook (rz rv : list string) (kw : pydict) (reset_only : bool)
    : M HookState unit :=
  zero_all kw rz ;;;
  if reset_only then ret tt else
  copies <- clone_all kw rv [] ;;
  s <- get ;;
  put (mkHookState (hs_mem s) (Some copies)).

(** [for name in self.restore_value:
       kwargs[name].copy_(self.restore_copies[name])] *)
Fixpoint restore_all (kw : pydict) (names : list string) : M HookState unit :=
  match names with
  | [] => ret tt
  | n :: t =>
      o <- kw_tensor kw n ;;
      s <- get ;;
      match restore_copies s with
      | None => raise AttributeError
      | Some cp =>
          match dget String.eqb cp n with
          | None => raise KeyError
          | Some v => put (mkHookState (tset (hs_mem s) o v) (restore_copies s)) ;;;
                      restore_all kw t
          end
      end
  end.

(** [_post_hook(kwargs, exception)] *)
Definition _post_hook (rv : list string) (kw : pydict) : M HookState unit :=
  restore_all kw rv ;;;
  s <- get ;;
  put (mkHookState (hs_mem s) (Some [])).

(** A user hook [f] called on [kw]: [user f kw] maps the tensors before
    the call to the tensors after it, or to the exception the hook raises
    (which leaves the tensors as they were when it raised; here: as
    before the call).  A user hook acts on the tensors only. *)
Definition run_user (user : nat -> pydict -> tmem -> pyresult tmem) (f : nat) (kw : pydict)
    : M HookState unit :=
  fun s w =>
    match user f kw (hs_mem s) with
    | PyOk m => Done tt (mkHookState m (restore_copies s)) w
    | PyRaise e => Thrown e s w
    end.

(** [self.pre_hook(kwargs, reset_only=...)] *)
Definition call_pre_hook (user : nat -> pydict -> tmem -> pyresult tmem) (b : Base)
    (kw : pydict) (reset_only : bool) : M HookState unit :=
  match tuner_pre_hook b with
  | HookNoop => ret tt
  | HookResetRestore => _pre_hook (reset_to_zero b) (restore_value b) kw reset_only
  | HookUser f => run_user user f kw
  end.

(** [self.post_hook(kwargs, exception=...)] *)
Definition call_post_hook (user : nat -> pydict -> tmem -> pyresult tmem) (b : Base)
    (kw : pydict) : M HookState unit :=
  match tuner_post_hook b with
  | HookNoop => ret tt
  | HookResetRestore => _post_hook (restore_value b) kw
  | HookUser f => run_user user f kw
  end.

(** [kernel_call] of [BaseAutotuner._bench], on [full_nargs]; the kernel
    [self.fn.run( *args, **current)] answers from the world and changes the
    tensors by [effect], also when it raises.  When the kernel raises, the
    post-hook runs and the kernel's exception is raised again; an exception
    of the post-hook takes its place. *)
Definition kernel_call (user : nat -> pydict -> tmem -> pyresult tmem) (effect : tmem -> tmem)
    (b : Base) (config : ConfigObj) (full_nargs : pydict) : M HookState unit :=
  (match pre_hook (cfg config) with
   | Some f => emit (EvConfigPreHook (oid config)) ;;; run_user user f full_nargs
   | None => ret tt
   end) ;;;
  call_pre_hook user b full_nargs false ;;;
  emit (EvLaunch (oid config)) ;;;
  r <- next_launch ;;
  modify_mem effect ;;;
  match r with
  | LaunchReturns _ => call_post_hook user b full_nargs
  | LaunchRaises e => call_post_hook user b full_nargs ;;; raise e
  end.

(** The tensor of [kwargs[n]], when it is one. *)
Definition tensor_id (kw : pydict) (n : string) : option nat :=
  match sget kw n with Some (PTensor o _) => Some o | _ => None end.

(** Whether one of [names] is the tensor [o] in [kw]. *)
Definition names_tensor (kw : pydict) (names : list string) (o : nat) : bool :=
  existsb (fun n => match tensor_id kw n with Some o' => Nat.eqb o o' | None => false end) names.

(** The contents of tensor [o] once [_pre_hook] zeroed the tensors of
    [reset_to_zero]. *)
Definition after_reset (rz : list string) (kw : pydict) (m : tmem) (o : nat) : list Z :=
  if names_tensor kw rz o then map (fun _ => 0%Z) (tget m o) else tget m o.

(** The best time the epsilon policy records for key [K] is at most [p]. *)
Definition best_time_le (K : list pyval) (p : flt) (s : EpsilonAutotuner) : Prop :=
  exists c e p', kdget (ep_tcache s) K = Some (c, e, p') /\ flt_ge p p' = true.

(** Every sample list of the stepwise cache holds at most [n] samples. *)
Definition samples_bounded (n : nat) (t : tcache_t) : Prop :=
  forall K d c l, kdget t K = Some (Exploring d) -> In (c, Some l) d -> (List.length l <= n)%nat.

(** Every name of [names] is a tensor of [kw]. *)
Definition all_tensors (kw : pydict) (names : list string) : Prop :=
  forall n, In n names -> exists o, tensor_id kw n = Some o.

(** Every sample list of a stepwise dictionary holds at most [n] samples. *)
Definition dict_bounded (n : nat) (d : list (ConfigObj * samples)) : Prop :=
  forall c l, In (c, Some l) d -> (List.length l <= n)%nat.

Definition entry_bounded (n : nat) (e : entry) : Prop :=
  match e with Exploring d => dict_bounded n d | Decided _ => True end.

(** The stepwise tuner keeps [min_try] at [m] and at most [m] samples per config. *)
Definition sw_bounded (m : Z) (s : StepwiseAutotuner) : Prop :=
  _min_try s = m /\ samples_bounded (Z.to_nat m) (sw_tcache s).

(** What an exploring pass knows about the config it will time. *)
Definition sw_sel_ok (m : Z) (key : list pyval) (config : ConfigObj) (isconfig : bool)
    (cache1 : entry) (s : StepwiseAutotuner) : Prop :=
  sw_bounded m s /\ entry_bounded (Z.to_nat m) cache1 /\
  (isconfig = false ->
   exists d1, (forall d'', kdget (sw_tcache s) key = Some (Exploring d'') -> d'' = d1) /\
   exists l, sample_of d1 config = Some l /\ (Z.of_nat (List.length l) < m)%Z).

(** Every sample list of a stepwise dictionary is empty. *)
Definition all_empty (d : list (ConfigObj * samples)) : Prop :=
  forall c v, In (c, v) d -> v = Some [].

(** ** Example inputs *)

(** [Config({"BLOCK": block})] *)
Definition example_cfg (block : Z) : Config :=
  mkConfig [("BLOCK", PInt block)] (PInt 4) (PInt 1) (PInt 2) (PInt 0) (PInt 0)
    (PInt 0) (PInt 0) PNone None.

Definition example_config : Config := example_cfg 64.

(** Two candidate config objects. *)
Definition example_c1 : ConfigObj := mkObj 1 (example_cfg 64).
Definition example_c2 : ConfigObj := mkObj 2 (example_cfg 128).

(** A kernel [f(x, n)], called as [f[grid](x, 1024)]; the key is [["n"]]. *)
Definition example_kernel : Kernel := mkKernel 7 ["x"; "n"].
Definition example_args : list pyval := [PTensor 100 "float32"; PInt 1024].

(** [@autotune(configs=[c1, c2], key=["n"])] *)
Definition example_autotune_args : AutotuneArgs :=
  mkAutotuneArgs (Some [example_c1; example_c2]) ["n"] None None None None None
    None None false None.

(** A world with the given launch results, random choices, elapsed times
    and benchmark results. *)
Definition example_world (l : list launch_out) (c : list nat) (e : list Q)
    (b : list bench_out) : World :=
  mkWorld l c [] e b [].

(** A tuner's attributes while it runs [f(x, 1024)] over [[c1, c2]]. *)
Definition example_base : Base :=
  {| fn := 7; configs := [example_c1; example_c2]; keys := ["n"]; cache := [];
     arg_names := ["x"; "n"]; reset_to_zero := []; restore_value := [];
     tuner_pre_hook := HookNoop; tuner_post_hook := HookNoop;
     user_defined_pre_hook := false; user_defined_post_hook := false;
     perf_model := None; configs_top_k := TopKFloat 1; early_config_prune := None;
     num_warmups := None; num_reps := None; use_cuda_graph := false;
     do_bench := BenchDriver;
     nargs := Some [("x", PTensor 100 "float32"); ("n", PInt 1024)] |}.

(** The exhaustive tuner over [[c1, c2]] before its first call. *)
Definition example_autotuner : Autotuner :=
  mkAutotuner (with_nargs example_base None) None [].

(** The key of [f(x, 1024)]: the value of [n] and the dtype of [x]. *)
Definition example_key : list pyval := [PInt 1024; PStr "float32"].
(** A stepwise tuner over [[c1, c2]] with the given [self._tcache]. *)
Definition example_stepwise (tc : tcache_t) : StepwiseAutotuner :=
  mkStepwise (with_nargs example_base None) default_min_try tc.

(** [fn.warmup] that returns [None], and one that raises [TypeError]. *)
Definition example_warmup (args : list pyval) (kw : pydict) : pyresult pyval := PyOk PNone.
Definition example_warmup_raising (args : list pyval) (kw : pydict) : pyresult pyval :=
  PyRaise TypeError.

(** The attributes of a tuner of [f(x, n)] over [cs] with the given
    [perf_model], [top_k] and [early_config_prune], before a call. *)
Definition example_pruning_base (pm : option (pydict -> flt)) (tk : topk)
    (ecp : option (list ConfigObj -> option pydict -> pydict -> list ConfigObj))
    (cs : list ConfigObj) : Base :=
  {| fn := 7; configs := cs; keys := ["n"]; cache := [];
     arg_names := ["x"; "n"]; reset_to_zero := []; restore_value := [];
     tuner_pre_hook := HookNoop; tuner_post_hook := HookNoop;
     user_defined_pre_hook := false; user_defined_post_hook := false;
     perf_model := pm; configs_top_k := tk; early_config_prune := ecp;
     num_warmups := None; num_reps := None; use_cuda_graph := false;
     do_bench := BenchDriver; nargs := None |}.

(** A perf model that estimates the time of a config by its [BLOCK]. *)
Definition example_perf_model (d : pydict) : flt :=
  match sget d "BLOCK" with Some (PInt z) => Fin (inject_Z z) | _ => NaN end.

(** An [early_config_prune] that drops every config. *)
Definition example_prune_all (cs : list ConfigObj) (na : option pydict) (kw : pydict)
    : list ConfigObj := [].

(** [BaseAutotuner.__init__] of a kernel [f(x, out)] over [[c1]] with the
    given [reset_to_zero], [restore_value] and [pre_hook]. *)
Definition example_hook_base (rz rv : option (list string)) (pre : option nat) : Base :=
  match BaseAutotuner___init__ 3 7 ["x"; "out"] (Some [example_c1]) ["x"] rz rv pre None
          None None None false None with
  | PyOk b => b
  | PyRaise _ => example_base
  end.

(** The call's dictionary of [f(x, out)] and the tensors' contents. *)
Definition example_hook_kwargs : pydict :=
  [("x", PTensor 100 "float32"); ("out", PTensor 101 "float32")].
Definition example_hook_mem : tmem := [(100%nat, [1; 2]%Z); (101%nat, [3; 4]%Z)].

(** A kernel that writes both tensors, and user hooks that do nothing. *)
Definition example_kernel_effect (m : tmem) : tmem := tset (tset m 100 [5; 5]%Z) 101 [7; 7]%Z.
Definition example_user (f : nat) (kw : pydict) (m : tmem) : pyresult tmem := PyOk m.

(** * Properties *)

(** ** Dictionary lemmas *)

Module DictFacts.
Section Facts.
Context {K V : Type} (keq : K -> K -> bool).
Hypothesis keq_refl : forall a, keq a a = true.
Hypothesis keq_sym : forall a b, keq a b = keq b a.
Hypothesis keq_trans : forall a b c, keq a b = true -> keq b c = true -> keq a c = true.

Lemma dget_dset_same (d : list (K * V)) k v : dget keq (dset keq d k v) k = Some v.
Proof.
  induction d as [|[k' v'] t IH]; simpl.
  - now rewrite keq_refl.
  - destruct (keq k k') eqn:E; simpl.
    + now rewrite keq_refl.
    + now rewrite E.
Qed.

Lemma dget_dset_other (d : list (K * V)) k k' v :
  keq k' k = false -> dget keq (dset keq d k v) k' = dget keq d k'.
Proof.
  intros Hne. induction d as [|[k'' v''] t IH]; simpl.
  - now rewrite Hne.
  - destruct (keq k k'') eqn:E; simpl.
    + rewrite Hne.
      destruct (keq k' k'') eqn:E'; [|reflexivity].
      rewrite keq_sym in E.
      pose proof (keq_trans _ _ _ E' E) as C. congruence.
    + now rewrite IH.
Qed.

End Facts.
End DictFacts.

(** String-keyed dictionaries. *)

Lemma sget_dset_same (d : pydict) k v : sget (sset d k v) k = Some v.
Proof.
  apply DictFacts.dget_dset_same. apply String.eqb_refl.
Qed.

Lemma sget_sset_other (d : pydict) k k' v :
  k' <> k -> sget (sset d k v) k' = sget d k'.
Proof.
  intros Hne. apply DictFacts.dget_dset_other.
  - apply String.eqb_sym.
  - intros a b c H1 H2. apply String.eqb_eq in H1, H2. subst. apply String.eqb_refl.
  - now apply String.eqb_neq.
Qed.

Lemma sget_notin (d : pydict) k : ~ In k (map fst d) -> sget d k = None.
Proof.
  induction d as [|[k' v'] t IH]; simpl; intros Hn; [reflexivity|].
  unfold sget in *; simpl.
  destruct (String.eqb k k') eqn:E.
  - apply String.eqb_eq in E. subst. tauto.
  - apply IH. tauto.
Qed.

Lemma sget_in (d : pydict) k v :
  NoDup (map fst d) -> In (k, v) d -> sget d k = Some v.
Proof.
  induction d as [|[k' v'] t IH]; simpl; intros Hnd Hin; [contradiction|].
  inversion Hnd as [|? ? Hnot Hnd']; subst.
  unfold sget in *; simpl.
  destruct Hin as [Heq | Hin].
  - inversion Heq; subst. now rewrite String.eqb_refl.
  - destruct (String.eqb k k') eqn:E.
    + apply String.eqb_eq in E. subst.
      exfalso. apply Hnot. now apply (in_map fst) in Hin.
    + now apply IH.
Qed.

(** [{**a, **b}] when [b] has distinct keys: [b] wins. *)
Lemma sget_smerge (a b : pydict) k :
  NoDup (map fst b) ->
  sget (smerge a b) k = match sget b k with Some v => Some v | None => sget a k end.
Proof.
  revert a. induction b as [|[k1 v1] b IH]; intros a Hnd; simpl; [reflexivity|].
  inversion Hnd as [|? ? Hnot Hnd']; subst.
  unfold smerge, dmerge in *. simpl. rewrite IH by assumption.
  unfold sget at 2. simpl.
  destruct (String.eqb k k1) eqn:E.
  - apply String.eqb_eq in E. subst.
    rewrite sget_notin by assumption. apply sget_dset_same.
  - fold (sget b k). destruct (sget b k); [reflexivity|].
    apply sget_sset_other. now apply String.eqb_neq.
Qed.

Lemma NoDup_map_filter {A B : Type} (g : A -> B) (f : A -> bool) (l : list A) :
  NoDup (map g l) -> NoDup (map g (filter f l)).
Proof.
  induction l as [|x l IH]; simpl; intros Hnd; [constructor|].
  inversion Hnd as [|? ? Hnot Hnd']; subst.
  destruct (f x); simpl; [constructor|]; auto.
  intros Hin. apply Hnot. apply in_map_iff in Hin as [y [Hy Hiny]].
  apply filter_In in Hiny as [Hiny _]. rewrite <- Hy. now apply in_map.
Qed.

Lemma sget_filter (l : pydict) (f : string * pyval -> bool) k :
  NoDup (map fst l) ->
  sget (filter f l) k =
    match sget l k with Some v => if f (k, v) then Some v else None | None => None end.
Proof.
  induction l as [|[k' v'] t IH]; simpl; intros Hnd; [reflexivity|].
  inversion Hnd as [|? ? Hnot Hnd']; subst.
  unfold sget in *. simpl.
  destruct (String.eqb k k') eqn:E.
  - apply String.eqb_eq in E. subst.
    destruct (f (k', v')) eqn:F; simpl.
    + now rewrite String.eqb_refl.
    + pose proof (sget_notin t k' Hnot) as N. unfold sget in N.
      rewrite IH by assumption. now rewrite N.
  - destruct (f (k', v')); simpl; [rewrite E|]; apply IH; assumption.
Qed.

(** ** [Config.all_kwargs] *)

Lemma hints_NoDup (c : Config) : NoDup (map fst (hints c)).
Proof.
  simpl. repeat constructor; simpl; intuition discriminate.
Qed.

Lemma hints_names (c : Config) : map fst (hints c) = hint_names.
Proof. reflexivity. Qed.

(** [all_kwargs()] is [kwargs] overridden by the non-null compiler hints. *)
Lemma sget_all_kwargs (c : Config) k :
  sget (all_kwargs c) k =
    match sget (hints c) k with
    | Some v => if is_none v then sget (kwargs c) k else Some v
    | None => sget (kwargs c) k
    end.
Proof.
  unfold all_kwargs.
  rewrite sget_smerge by (apply NoDup_map_filter, hints_NoDup).
  rewrite sget_filter by apply hints_NoDup.
  destruct (sget (hints c) k) as [v|]; [|reflexivity].
  destruct (is_none v) eqn:E; cbn; rewrite E; reflexivity.
Qed.

(** ** Claims on [Config] *)

(** C5 (counterexample): [Config({"num_warps": 8})] is constructed; its
    [num_warps] hint (the default 4) silently overrides the kwarg. *)
Lemma Config_conflicting_kwarg_constructed :
  match Config_defaults [("num_warps", PInt 8)] with
  | PyOk c => sget (all_kwargs c) "num_warps" = Some (PInt 4)
  | PyRaise _ => False
  end.
Proof. reflexivity. Qed.

(** C5 (amended): [Config.__init__] performs no conflict check: it
    succeeds for every [kwargs], including names of compiler hints, and
    [all_kwargs()] then takes every non-null hint over the kwarg of the
    same name. *)
Theorem Config_init_accepts_hint_names (kw : pydict)
    (nw ns nc nb ng rd ri mx : pyval) (ph : option nat) :
  exists c, Config___init__ kw nw ns nc nb ng rd ri mx ph = PyOk c /\ kwargs c = kw /\
    (forall h v, In (h, v) (hints c) -> v <> PNone -> sget (all_kwargs c) h = Some v).
Proof.
  eexists. split; [reflexivity|]. split; [reflexivity|].
  intros h v Hin Hv. rewrite sget_all_kwargs.
  rewrite (sget_in _ h v (hints_NoDup _) Hin).
  destruct v; simpl; congruence.
Qed.

Lemma Config_init_accepts_hint_names_witness :
  match Config_defaults [("num_warps", PInt 8)] with
  | PyOk c => sget (all_kwargs c) "num_warps" = Some (PInt 4)
  | PyRaise _ => False
  end.
Proof.
  destruct (Config_init_accepts_hint_names [("num_warps", PInt 8)] (PInt 4) (PInt 2)
              (PInt 1) (PInt 0) (PInt 0) (PInt 0) (PInt 0) PNone None)
    as [c [Hc [_ Hh]]].
  unfold Config_defaults. rewrite Hc.
  apply Hh; [|discriminate].
  injection Hc as <-. simpl. now left.
Defined.

(** C8 (counterexample): a null kwarg stays null in [all_kwargs()]. *)
Lemma all_kwargs_keeps_null_kwarg :
  match Config_defaults [("BLOCK", PNone)] with
  | PyOk c => sget (all_kwargs c) "BLOCK" = Some PNone
  | PyRaise _ => False
  end.
Proof. reflexivity. Qed.

(** C8 (amended): [all_kwargs()] is [kwargs] overridden by exactly the
    non-null compiler hints: a key is mapped to null only when [kwargs]
    maps it to null; a non-null hint always appears; a null hint or a name
    that is no hint leaves the [kwargs] entry as it is. *)
Theorem all_kwargs_nulls_from_kwargs (c : Config) :
  (forall k, sget (all_kwargs c) k = Some PNone -> sget (kwargs c) k = Some PNone) /\
  (forall k v, In (k, v) (hints c) -> v <> PNone -> sget (all_kwargs c) k = Some v) /\
  (forall k, ~ In k hint_names -> sget (all_kwargs c) k = sget (kwargs c) k) /\
  (forall k, In (k, PNone) (hints c) -> sget (all_kwargs c) k = sget (kwargs c) k).
Proof.
  split; [|split; [|split]].
  - intros k. rewrite sget_all_kwargs.
    destruct (sget (hints c) k) as [v|]; [|tauto].
    destruct v; simpl; congruence.
  - intros k v Hin Hv. rewrite sget_all_kwargs.
    rewrite (sget_in _ k v (hints_NoDup _) Hin).
    destruct v; simpl; congruence.
  - intros k Hk. rewrite sget_all_kwargs.
    rewrite sget_notin; [reflexivity|]. now rewrite hints_names.
  - intros k Hin. rewrite sget_all_kwargs.
    now rewrite (sget_in _ k PNone (hints_NoDup _) Hin).
Qed.

Lemma all_kwargs_nulls_from_kwargs_witness :
  sget (all_kwargs example_config) "maxnreg" = sget (kwargs example_config) "maxnreg" /\
  sget (all_kwargs example_config) "num_warps" = Some (PInt 4).
Proof.
  pose proof (all_kwargs_nulls_from_kwargs example_config) as [_ [H2 [_ H4]]].
  split.
  - apply H4. simpl. tauto.
  - apply H2; [simpl; tauto | discriminate].
Defined.

(** ** Reasoning about tuner runs

    [hoare Pre m Post]: from a state satisfying [Pre], [m] returns a value
    and state satisfying [Post], or raises in a state satisfying [Inv];
    either way every action it adds to the trace satisfies [ok]. *)

Module Hoare.
Section Hoare.
Context {S : Type} (Inv : S -> Prop) (ok : event -> Prop).

Definition trace_ext (w w' : World) : Prop :=
  exists new, trace w' = (new ++ trace w)%list /\ Forall ok new.

Lemma trace_ext_refl w : trace_ext w w.
Proof. exists []. split; [reflexivity | constructor]. Qed.

Lemma trace_ext_eq w w' : trace w' = trace w -> trace_ext w w'.
Proof. intros E. exists []. split; [exact E | constructor]. Qed.

Lemma trace_ext_trans w1 w2 w3 : trace_ext w1 w2 -> trace_ext w2 w3 -> trace_ext w1 w3.
Proof.
  intros [n1 [E1 F1]] [n2 [E2 F2]]. exists (n2 ++ n1)%list. split.
  - rewrite E2, E1. now rewrite app_assoc.
  - now apply Forall_app.
Qed.

Definition hoare {A : Type} (Pre : S -> Prop) (m : M S A) (Post : A -> S -> Prop) : Prop :=
  forall s w, Pre s ->
    match m s w with
    | Done a s' w' => Post a s' /\ trace_ext w w'
    | Thrown _ s' w' => Inv s' /\ trace_ext w w'
    | Stuck => True
    end.

Lemma hoare_bind {A B : Type} (Pre : S -> Prop) (Mid : A -> S -> Prop) (Post : B -> S -> Prop)
    (m : M S A) (k : A -> M S B) :
  hoare Pre m Mid -> (forall a, hoare (Mid a) (k a) Post) -> hoare Pre (bind m k) Post.
Proof.
  intros Hm Hk s w Hs. unfold bind. specialize (Hm s w Hs).
  destruct (m s w) as [a s1 w1 | e s1 w1 |]; [|exact Hm|exact I].
  destruct Hm as [Hmid Hw1]. specialize (Hk a s1 w1 Hmid).
  destruct (k a s1 w1) as [b s2 w2 | e s2 w2 |]; [| |exact I];
    destruct Hk as [Hp Hw2]; split; [exact Hp | eapply trace_ext_trans; eauto
                                    | exact Hp | eapply trace_ext_trans; eauto].
Qed.

Lemma hoare_conseq {A : Type} (Pre Pre' : S -> Prop) (Post Post' : A -> S -> Prop) m :
  hoare Pre m Post -> (forall s, Pre' s -> Pre s) -> (forall a s, Post a s -> Post' a s) ->
  hoare Pre' m Post'.
Proof.
  intros H HP HQ s w Hs. specialize (H s w (HP s Hs)).
  destruct (m s w); intuition.
Qed.

Lemma hoare_ret {A : Type} (Pre : S -> Prop) (Post : A -> S -> Prop) (a : A) :
  (forall s, Pre s -> Post a s) -> hoare Pre (ret a) Post.
Proof. intros H s w Hs. split; [auto | apply trace_ext_refl]. Qed.

Lemma hoare_get (Pre : S -> Prop) : hoare Pre get (fun a s => Pre s /\ a = s).
Proof. intros s w Hs. split; [auto | apply trace_ext_refl]. Qed.

Lemma hoare_get_world (Pre : S -> Prop) : hoare Pre get_world (fun _ s => Pre s).
Proof. intros s w Hs. split; [auto | apply trace_ext_refl]. Qed.

Lemma hoare_raise {A : Type} (Pre : S -> Prop) (Post : A -> S -> Prop) e :
  (forall s, Pre s -> Inv s) -> hoare Pre (raise e) Post.
Proof. intros H s w Hs. split; [auto | apply trace_ext_refl]. Qed.

Lemma hoare_lift {A : Type} (Pre : S -> Prop) (Post : A -> S -> Prop) (r : pyresult A) :
  (forall a, r = PyOk a -> forall s, Pre s -> Post a s) ->
  (forall s, Pre s -> Inv s) -> hoare Pre (lift r) Post.
Proof.
  intros H1 H2. destruct r as [a|e]; simpl.
  - apply hoare_ret. now apply H1.
  - now apply hoare_raise.
Qed.

Lemma hoare_emit (Pre : S -> Prop) e : ok e -> hoare Pre (emit e) (fun _ s => Pre s).
Proof.
  intros He s w Hs. split; [auto|]. exists [e]. split; [reflexivity|]. now constructor.
Qed.

Lemma hoare_put (Pre : S -> Prop) (s0 : S) : hoare Pre (put s0) (fun _ s => s = s0).
Proof. intros s w Hs. split; [reflexivity | apply trace_ext_refl]. Qed.

Lemma hoare_next_launch (Pre : S -> Prop) : hoare Pre next_launch (fun _ s => Pre s).
Proof.
  intros s w Hs. unfold next_launch. destruct (launches w); [exact I|].
  split; [auto | now apply trace_ext_eq].
Qed.

Lemma hoare_next_choice {A : Type} (Pre : S -> Prop) (seq : list A) (d : A) :
  seq <> [] -> hoare Pre (next_choice seq d) (fun a s => Pre s /\ In a seq).
Proof.
  intros Hne s w Hs. unfold next_choice. destruct (choices w) as [|i t]; [exact I|].
  split; [|now apply trace_ext_eq]. split; [auto|].
  apply nth_In. apply Nat.mod_upper_bound. destruct seq; [congruence | simpl; lia].
Qed.

Lemma hoare_next_random (Pre : S -> Prop) : hoare Pre next_random (fun _ s => Pre s).
Proof.
  intros s w Hs. unfold next_random. destruct (randoms w); [exact I|].
  split; [auto | now apply trace_ext_eq].
Qed.

Lemma hoare_next_elapsed (Pre : S -> Prop) : hoare Pre next_elapsed (fun _ s => Pre s).
Proof.
  intros s w Hs. unfold next_elapsed. destruct (elapsed w); [exact I|].
  split; [auto | now apply trace_ext_eq].
Qed.

Lemma hoare_next_bench (Pre : S -> Prop) : hoare Pre next_bench (fun _ s => Pre s).
Proof.
  intros s w Hs. unfold next_bench. destruct (benches w); [exact I|].
  split; [auto | now apply trace_ext_eq].
Qed.

Lemma hoare_bind_get {A : Type} (Pre : S -> Prop) (k : S -> M S A) (Post : A -> S -> Prop) :
  (forall s0, Pre s0 -> hoare Pre (k s0) Post) -> hoare Pre (bind get k) Post.
Proof. intros H s w Hs. unfold bind, get. now apply H. Qed.

Lemma hoare_set_nargs `{HasBase S} (Pre : S -> Prop) n :
  (forall s, Pre s -> Pre (with_base s (with_nargs (base_of s) n))) ->
  hoare Pre (set_nargs n) (fun _ => Pre).
Proof. intros HP s w Hs. split; [now apply HP | apply trace_ext_refl]. Qed.

Lemma hoare_run_seq (P : S -> Prop) (run : list pyval -> pydict -> M S pyval) calls :
  (forall s, P s -> Inv s) ->
  (forall args kwargs, hoare P (run args kwargs) (fun _ => P)) ->
  hoare P (run_seq run calls) (fun _ => P).
Proof.
  intros HI Hr. induction calls as [|[a k] rest IH]; simpl.
  - apply hoare_ret. auto.
  - apply hoare_bind with (Mid := fun _ => P); [apply Hr|]. intros v.
    apply hoare_bind with (Mid := fun _ => P); [exact IH|]. intros vs.
    apply hoare_ret. auto.
Qed.

(** [launch] adds a config pre-hook and a launch of [config] to the trace. *)
Lemma hoare_launch (Pre : S -> Prop) args kwargs config :
  ok (EvConfigPreHook (oid config)) -> ok (EvLaunch (oid config)) ->
  (forall s, Pre s -> Inv s) ->
  hoare Pre (launch args kwargs config) (fun _ s => Pre s).
Proof.
  intros H1 H2 HI. unfold launch.
  apply hoare_bind with (Mid := fun _ s => Pre s).
  { destruct (pre_hook (cfg config)).
    - apply hoare_emit; exact H1.
    - apply hoare_ret. intros s Hs; exact Hs. }
  intros _. apply hoare_bind with (Mid := fun _ s => Pre s).
  { apply hoare_lift; [intros a _ s Hs; exact Hs | exact HI]. }
  intros _. apply hoare_bind with (Mid := fun _ s => Pre s); [apply hoare_emit; exact H2|].
  intros _. apply hoare_next_launch.
Qed.
End Hoare.
End Hoare.
Import Hoare.

(** ** Claims checked on concrete runs *)


(** C3 (code bug): [ConfidenceAutotuner(ratio=float("inf"))] over
    [[c1, c2]]: the first pass measures [c1], whose launch raises
    [OutOfResources], so [c1] is marked failed.  On the second pass [c2] is
    the only non-failed candidate and nothing else has to be beaten, yet
    the commit test runs over all of [cache.items()], calls
    [_get_lower_boundary(None)] on the failed [c1], and the run raises
    [TypeError] ([len(None)]). *)
Lemma ConfidenceAutotuner_run_failed_candidate_raises :
  match ConfidenceAutotuner___init__ 0 7 ["x"; "n"] (Some [example_c1; example_c2])
          ["n"] None None None None None None None false None PInf with
  | PyOk t =>
      match ConfidenceAutotuner_run example_args [] t
              (example_world [LaunchRaises OutOfResources; LaunchReturns (PObj 9)]
                 [] [1] []) with
      | Thrown e s w =>
          e = TypeError /\
          kdget (cf_tcache s) [PInt 1024; PStr "float32"] =
            Some (Exploring [(example_c1, None); (example_c2, Some [])]) /\
          filter (not_failed [(example_c1, None); (example_c2, Some [])])
            [example_c1; example_c2] = [example_c2] /\
          confidence_decide PInf [(example_c1, None); (example_c2, Some [])]
            [example_c1; example_c2] = PyRaise TypeError /\
          trace w = [EvLaunch 1; EvGetKey [PInt 1024; PStr "float32"]]
      | _ => False
      end
  | PyRaise _ => False
  end.
Proof. vm_compute. repeat split. Qed.

(** C7 (code bug): [EpsilonAutotuner.run] returns from inside its loop
    and never sets [self.nargs = None]: after a successful call the tuner
    still holds the call's arguments. *)
Lemma EpsilonAutotuner_run_leaves_nargs :
  match autotune_decorator example_autotune_args 0 example_kernel "epsilon" with
  | PyOk (TEpsilon t) =>
      nargs (ep_base t) = None /\
      match EpsilonAutotuner_run example_args [] t
              (example_world [LaunchReturns (PObj 9)] [0%nat] [5] []) with
      | Done v s _ =>
          v = PObj 9 /\
          nargs (ep_base s) = Some [("x", PTensor 100 "float32"); ("n", PInt 1024)]
      | _ => False
      end
  | _ => False
  end.
Proof. vm_compute. repeat split. Qed.


(** ** The dispatch facade *)



(** ** The measurement harness *)

(** C9: when the config's kwargs do not clash with the meta-parameters of
    the call and [self.nargs] is set, [_bench] records one benchmark of
    the config and answers what the benchmarker answered: its
    [[median, p20, p80]] list, or [[inf, inf, inf]] when the benchmark
    raised [OutOfResources] or [CompileTimeAssertionFailure]; any other
    exception propagates. *)
Theorem _bench_result {S : Type} `{HasBase S} (args : list pyval) (config : ConfigObj)
    (meta : pydict) (s : S) (w : World) (na : pydict) (r : bench_out)
    (rest : list bench_out) :
  existsb (smem (kwargs (cfg config))) (dkeys meta) = false ->
  nargs (base_of s) = Some na ->
  benches w = r :: rest ->
  let w' := mkWorld (launches w) (choices w) (randoms w) (elapsed w) rest
              (EvBench (oid config) :: trace w) in
  _bench args config meta s w =
    match r with
    | BenchReturns t => Done t s w'
    | BenchRaises OutOfResources | BenchRaises CompileTimeAssertionFailure =>
        Done [inf; inf; inf] s w'
    | BenchRaises e => Thrown e s w'
    end.
Proof.
  intros Hm Hn Hb w'. unfold _bench, bind, get, emit, next_bench, ret, raise, log.
  rewrite Hm, Hn. simpl. rewrite Hb. subst w'.
  destruct r as [t|[]]; reflexivity.
Qed.

Lemma _bench_result_witness :
  _bench example_args example_c1 [] (mkAutotuner example_base None [])
    (example_world [] [] [] [BenchRaises OutOfResources])
  = Done [inf; inf; inf] (mkAutotuner example_base None [])
      (mkWorld [] [] [] [] [] [EvBench 1]).
Proof.
  exact (_bench_result example_args example_c1 [] (mkAutotuner example_base None [])
           (example_world [] [] [] [BenchRaises OutOfResources])
           [("x", PTensor 100 "float32"); ("n", PInt 1024)]
           (BenchRaises OutOfResources) [] eq_refl eq_refl eq_refl).
Defined.

(** ** An empty candidate list *)

(** The exhaustive policy over a single candidate [c0] with an empty cache
    takes the [configs[0]] path: it keeps its config list and its empty
    cache, and neither measures a config nor computes a key. *)
Lemma Autotuner_run_single_config (c0 : ConfigObj) (args : list pyval) (kwargs : pydict) :
  let P := fun s : Autotuner => configs (at_base s) = [c0] /\ cache (at_base s) = [] in
  hoare P no_tuning_event P (Autotuner_run args kwargs) (fun _ => P).
Proof.
  intros P. unfold Autotuner_run.
  apply hoare_bind_get. intros s0 _.
  apply hoare_bind with (Mid := fun _ => P).
  { apply hoare_set_nargs. intros s Hs. exact Hs. }
  intros _. apply hoare_bind with (Mid := fun _ => P).
  { apply hoare_bind_get. intros s [Hc Hk]. rewrite Hc. simpl.
    apply hoare_ret. intros s' Hs'; exact Hs'. }
  intros config. apply hoare_bind_get. intros s3 Hs3.
  apply hoare_bind with (Mid := fun _ => P).
  { eapply hoare_conseq; [apply hoare_put | intros s Hs; exact Hs |].
    intros _ s ->. exact Hs3. }
  intros _. apply hoare_bind with (Mid := fun _ => P).
  { apply hoare_launch; [exact I | exact I | intros s Hs; exact Hs]. }
  intros [v|e].
  - apply hoare_bind with (Mid := fun _ => P).
    + apply hoare_set_nargs. intros s Hs. exact Hs.
    + intros _. apply hoare_ret. intros s Hs; exact Hs.
  - apply hoare_raise. intros s Hs; exact Hs.
Qed.

(** C10: a [configs] argument that is [None] or empty gives the tuner the
    single default [Config({})] (4 warps, 2 stages, 1 CTA, the other hints
    0, no [maxnreg], no pre-hook) and an empty cache; from then on every
    sequence of [Autotuner.run] calls keeps that config list and the empty
    cache, and adds no benchmark and no key computation to the trace. *)
Theorem BaseAutotuner_empty_configs_default (fresh fn : nat) (arg_names : list string)
    (configs0 : option (list ConfigObj)) (key : list string)
    (rz rv : option (list string)) (pre post : option nat)
    (pcb : option PruneConfigsBy) (warmup rep : option Z) (ucg : bool)
    (db : option nat) (b : Base) :
  (configs0 = None \/ configs0 = Some []) ->
  BaseAutotuner___init__ fresh fn arg_names configs0 key rz rv pre post pcb warmup rep
    ucg db = PyOk b ->
  configs b = [mkObj fresh {| kwargs := []; num_warps := PInt 4; num_ctas := PInt 1;
                              num_stages := PInt 2; num_buffers_warp_spec := PInt 0;
                              num_consumer_groups := PInt 0; reg_dec_producer := PInt 0;
                              reg_inc_consumer := PInt 0; maxnreg := PNone;
                              pre_hook := None |}] /\
  cache b = [] /\
  forall calls : list (list pyval * pydict),
    let P := fun s : Autotuner => configs (at_base s) = configs b /\ cache (at_base s) = [] in
    P (mkAutotuner b None []) /\
    hoare P no_tuning_event P (run_seq Autotuner_run calls) (fun _ => P).
Proof.
  intros Hc Hb.
  assert (Hcb : configs b = [mkObj fresh {| kwargs := []; num_warps := PInt 4;
                  num_ctas := PInt 1; num_stages := PInt 2; num_buffers_warp_spec := PInt 0;
                  num_consumer_groups := PInt 0; reg_dec_producer := PInt 0;
                  reg_inc_consumer := PInt 0; maxnreg := PNone; pre_hook := None |}]
                /\ cache b = []).
  { unfold BaseAutotuner___init__ in Hb.
    destruct Hc as [-> | ->]; destruct pcb; simpl in Hb; injection Hb as <-;
      split; reflexivity. }
  destruct Hcb as [Hcb Hcache].
  split; [exact Hcb|]. split; [exact Hcache|].
  intros calls P. split.
  - split; [reflexivity | exact Hcache].
  - subst P. rewrite Hcb. apply hoare_run_seq; [intros s Hs; exact Hs|].
    intros args kwargs. apply Autotuner_run_single_config.
Qed.

Lemma BaseAutotuner_empty_configs_default_witness :
  match BaseAutotuner___init__ 5 7 ["x"; "n"] (Some []) ["n"] None None None None None
          None None false None with
  | PyOk b => List.length (configs b) = 1%nat /\ cache b = []
  | PyRaise _ => False
  end.
Proof.
  destruct (BaseAutotuner___init__ 5 7 ["x"; "n"] (Some []) ["n"] None None None None None
              None None false None) as [b|e] eqn:E; [|discriminate E].
  destruct (BaseAutotuner_empty_configs_default 5 7 ["x"; "n"] (Some []) ["n"] None None
              None None None None None false None b (or_intror eq_refl) E)
    as [Hc [Hk _]].
  rewrite Hc. split; [reflexivity | exact Hk].
Defined.

(** ** Order of timings *)

Lemma qltb_iff a b : qltb a b = true <-> (a < b)%Q.
Proof.
  unfold qltb. rewrite negb_true_iff. split.
  - intros H. apply Qnot_le_lt. intros H'. apply Qle_bool_iff in H'. congruence.
  - intros H. destruct (Qle_bool b a) eqn:E; [|reflexivity].
    apply Qle_bool_iff in E. exfalso. apply (Qlt_not_le a b H E).
Qed.

Lemma flt_lt_trans x y z : flt_lt x y = true -> flt_lt y z = true -> flt_lt x z = true.
Proof.
  destruct x, y, z; simpl; try discriminate; auto.
  rewrite !qltb_iff. apply Qlt_trans.
Qed.


Lemma flt_eq_lt_r x y z : flt_eq y z = true -> flt_lt x y = flt_lt x z.
Proof.
  destruct x, y, z; simpl; try discriminate; auto.
  intros E. apply Qeq_bool_iff in E.
  destruct (qltb q q0) eqn:A, (qltb q q1) eqn:B; auto; exfalso.
  - apply qltb_iff in A. assert (Hb : (q < q1)%Q) by (rewrite <- E; exact A).
    apply qltb_iff in Hb. congruence.
  - apply qltb_iff in B. assert (Ha : (q < q0)%Q) by (rewrite E; exact B).
    apply qltb_iff in Ha. congruence.
Qed.







(** [builtins.min] under an order that is transitive and co-transitive on
    the keys met: the result is an element no element undercuts, and every
    element before it is strictly worse. *)
Section PyMin.
Context {A B : Type} (lt : B -> B -> bool) (f : A -> B) (good : B -> Prop).
Hypothesis lt_irrefl : forall x, lt x x = false.
Hypothesis lt_trans : forall x y z, lt x y = true -> lt y z = true -> lt x z = true.
Hypothesis lt_cotrans : forall x y z, good y -> lt x z = true -> lt x y = true \/ lt y z = true.

Lemma py_min_from_in b l : In (py_min_from lt f b l) (b :: l).
Proof.
  revert b. induction l as [|x t IH]; intros b; simpl; [now left|].
  destruct (lt (f x) (f b)).
  - right. apply IH.
  - destruct (IH b) as [E|E]; [now left | right; right; exact E].
Qed.


End PyMin.

(** ** Runs of the exhaustive policy *)






Lemma pyval_eqb_refl x : pyval_eqb x x = true.
Proof.
  destruct x; simpl; try reflexivity.
  - apply eqb_reflx.
  - apply Z.eqb_refl.
  - apply String.eqb_refl.
  - apply Nat.eqb_refl.
  - apply Nat.eqb_refl.
Qed.

Lemma key_eqb_refl k : key_eqb k k = true.
Proof. induction k as [|x k IH]; simpl; [reflexivity|]. now rewrite pyval_eqb_refl, IH. Qed.

Lemma kdget_kdset_same {V : Type} (d : list (list pyval * V)) k v : kdget (kdset d k v) k = Some v.
Proof.
  unfold kdget, kdset. induction d as [|[k' v'] t IH]; simpl.
  - now rewrite key_eqb_refl.
  - destruct (key_eqb k k') eqn:E; simpl; [now rewrite key_eqb_refl | now rewrite E].
Qed.








(** ** Decided and failed configs *)

Lemma pyval_eqb_sym a b : pyval_eqb a b = pyval_eqb b a.
Proof.
  destruct a, b; simpl; try reflexivity.
  - destruct b, b0; reflexivity. - apply Z.eqb_sym. - apply String.eqb_sym.
  - apply Nat.eqb_sym. - apply Nat.eqb_sym.
Qed.

Lemma pyval_eqb_trans a b c : pyval_eqb a b = true -> pyval_eqb b c = true -> pyval_eqb a c = true.
Proof.
  destruct a, b; simpl; try discriminate; destruct c; simpl; try discriminate;
    intros E1 E2.
  - reflexivity.
  - apply Bool.eqb_prop in E1, E2. subst. apply eqb_reflx.
  - apply Z.eqb_eq in E1, E2. subst. apply Z.eqb_refl.
  - apply String.eqb_eq in E1, E2. subst. apply String.eqb_refl.
  - apply Nat.eqb_eq in E1, E2. subst. apply Nat.eqb_refl.
  - apply Nat.eqb_eq in E1, E2. subst. apply Nat.eqb_refl.
Qed.

Lemma key_eqb_sym a b : key_eqb a b = key_eqb b a.
Proof.
  revert b. induction a as [|x a IH]; intros [|y b]; simpl; try reflexivity.
  now rewrite pyval_eqb_sym, IH.
Qed.

Lemma key_eqb_trans a b c : key_eqb a b = true -> key_eqb b c = true -> key_eqb a c = true.
Proof.
  revert b c. induction a as [|x a IH]; intros [|y b] [|z c]; simpl; try discriminate; auto.
  intros E1 E2. apply andb_prop in E1 as [E1 F1]. apply andb_prop in E2 as [E2 F2].
  rewrite (pyval_eqb_trans _ _ _ E1 E2). simpl. eauto.
Qed.

Lemma kdget_kdset_other {V : Type} (d : list (list pyval * V)) k k' v :
  key_eqb k k' = false -> kdget (kdset d k' v) k = kdget d k.
Proof.
  intros E. unfold kdget, kdset. apply DictFacts.dget_dset_other.
  - exact key_eqb_sym. - exact key_eqb_trans. - exact E.
Qed.

Lemma kdget_congr {V : Type} (d : list (list pyval * V)) k k' :
  key_eqb k' k = true -> kdget d k' = kdget d k.
Proof.
  intros E. unfold kdget. induction d as [|[k'' v] t IH]; simpl; [reflexivity|].
  destruct (key_eqb k k'') eqn:E1, (key_eqb k' k'') eqn:E2; try reflexivity; try exact IH.
  - rewrite (key_eqb_trans _ _ _ E E1) in E2. discriminate.
  - rewrite key_eqb_sym in E. rewrite (key_eqb_trans _ _ _ E E2) in E1. discriminate.
Qed.

Lemma hoare_bind_get_eq {S A : Type} Inv ok (Pre : S -> Prop) (k : S -> M S A) Post :
  (forall s0, Pre s0 -> hoare Inv ok (fun s => Pre s /\ s = s0) (k s0) Post) ->
  hoare Inv ok Pre (bind get k) Post.
Proof. intros H s w Hs. unfold bind, get. now apply H. Qed.



Section Keyed.
Context {St : Type} `{HasTCache St}.
Hypothesis tcache_with : forall s t, tcache_of (with_tcache s t) = t.
Variable K : list pyval.
Variable Q : option entry -> Prop.



Lemma hoare_tc_fetch_other ok K' :
  key_eqb K K' = false ->
  hoare (keyed K Q) ok (keyed K Q) (tc_fetch K') (fun _ => (keyed K Q)).
Proof.
  intros E s w Hs. unfold tc_fetch. destruct (kdget (tcache_of s) K').
  - split; [exact Hs | apply trace_ext_refl].
  - split; [|apply trace_ext_refl]. unfold keyed. rewrite tcache_with, kdget_kdset_other; auto.
Qed.

Lemma hoare_local_sync_other ok K' d :
  key_eqb K K' = false ->
  hoare (keyed K Q) ok (keyed K Q) (local_sync K' d) (fun _ => (keyed K Q)).
Proof.
  intros E s w Hs. unfold local_sync. destruct (kdget (tcache_of s) K') as [[]|];
    (split; [|apply trace_ext_refl]); try exact Hs.
  unfold keyed. rewrite tcache_with, kdget_kdset_other; auto.
Qed.

Lemma hoare_tc_decide_other ok K' c' :
  key_eqb K K' = false ->
  hoare (keyed K Q) ok (keyed K Q) (tc_decide K' c') (fun _ => (keyed K Q)).
Proof.
  intros E s w Hs. unfold tc_decide. split; [|apply trace_ext_refl].
  unfold keyed. rewrite tcache_with, kdget_kdset_other; auto.
Qed.

Lemma hoare_tc_append_other ok K' c' t :
  key_eqb K K' = false ->
  hoare (keyed K Q) ok (keyed K Q) (tc_append K' c' t) (fun _ => (keyed K Q)).
Proof.
  intros E s w Hs. unfold tc_append.
  destruct (option_default _ _) as [|d]; [split; [exact Hs | apply trace_ext_refl]|].
  destruct (option_default _ _) as [l|]; (split; [|apply trace_ext_refl]); [|exact Hs].
  unfold keyed. rewrite tcache_with, kdget_kdset_other; auto.
Qed.

Lemma hoare_tc_mark_failed_other ok K' c' :
  key_eqb K K' = false ->
  hoare (keyed K Q) ok (keyed K Q) (tc_mark_failed K' c') (fun _ => (keyed K Q)).
Proof.
  intros E s w Hs. unfold tc_mark_failed.
  destruct (option_default _ _) as [|d]; (split; [|apply trace_ext_refl]); [exact Hs|].
  unfold keyed. rewrite tcache_with, kdget_kdset_other; auto.
Qed.

Lemma hoare_explore_other prune select fuel args kwargs K' cache :
  key_eqb K K' = false ->
  (forall d pruned, hoare (keyed K Q) any_event (keyed K Q) (select K' d pruned) (fun _ => (keyed K Q))) ->
  hoare (keyed K Q) any_event (keyed K Q)
    (explore_loop prune select fuel args kwargs K' cache) (fun _ => (keyed K Q)).
Proof.
  intros E Hsel. revert cache. induction fuel as [|fuel IH]; intros cache; simpl.
  { intros s w _. exact I. }
  apply hoare_bind_get. intros s0 _.
  apply hoare_bind with (Mid := fun _ => (keyed K Q)).
  { destruct cache as [c0|d].
    - apply hoare_ret. auto.
    - apply hoare_bind with (Mid := fun _ => (keyed K Q)).
      { apply hoare_lift; auto. }
      intros pruned. apply hoare_bind with (Mid := fun _ => (keyed K Q)).
      { apply hoare_local_sync_other. exact E. }
      intros _. apply hoare_bind with (Mid := fun _ => (keyed K Q)); [apply Hsel|].
      intros [config isconfig]. apply hoare_ret. auto. }
  intros [[config isconfig] cache1].
  apply hoare_bind with (Mid := fun _ => (keyed K Q)).
  { apply hoare_launch; [exact I | exact I | auto]. }
  intros r. apply hoare_bind with (Mid := fun _ => (keyed K Q)).
  { destruct r as [v|[]]; first [apply hoare_ret; now auto | apply hoare_raise; now auto]. }
  intros rv. apply hoare_bind with (Mid := fun _ => (keyed K Q)).
  { destruct isconfig.
    - apply hoare_ret. auto.
    - apply hoare_bind with (Mid := fun _ => (keyed K Q)); [apply hoare_next_elapsed|].
      intros t. apply hoare_bind with (Mid := fun _ => (keyed K Q)).
      + destruct (truthy rv).
        * apply hoare_tc_append_other. exact E.
        * apply hoare_tc_mark_failed_other. exact E.
      + intros d'. apply hoare_ret. auto. }
  intros cache2. destruct (is_none rv); [apply IH | apply hoare_ret; auto].
Qed.
End Keyed.


Lemma hoare_tc_fetch_same {St : Type} `{HasTCache St} K c ok K' :
  key_eqb K' K = true ->
  hoare (decided_at K c) ok (decided_at K c) (tc_fetch K') (fun e s => decided_at K c s /\ e = Decided c).
Proof.
  intros E s w Hs. unfold tc_fetch. unfold decided_at, keyed in Hs.
  rewrite (kdget_congr _ _ _ E), Hs. split; [split; [exact Hs | reflexivity] | apply trace_ext_refl].
Qed.



Lemma hoare_explore_decided {St : Type} `{HasTCache St} (Inv Pre : St -> Prop)
    (ok : event -> Prop) prune select fuel args kwargs K' c :
  ok (EvConfigPreHook (oid c)) -> ok (EvLaunch (oid c)) -> (forall s, Pre s -> Inv s) ->
  hoare Inv ok Pre (explore_loop prune select fuel args kwargs K' (Decided c)) (fun _ => Pre).
Proof.
  intros H1 H2 HI. induction fuel as [|fuel IH]; simpl.
  { intros s w _. exact I. }
  apply hoare_bind_get. intros s0 _.
  apply hoare_bind with (Mid := fun sel s => Pre s /\ sel = (c, true, Decided c)).
  { apply hoare_ret. auto. }
  intros [[config isconfig] cache1].
  apply hoare_bind with (Mid := fun _ s => Pre s /\ config = c /\ isconfig = true /\ cache1 = Decided c).
  { intros s w [Hs Eq]. injection Eq as -> -> ->.
    pose proof (hoare_launch Inv ok Pre args kwargs c H1 H2 HI s w Hs) as Hl.
    destruct (launch args kwargs c s w); [|exact Hl|exact I].
    destruct Hl as [Hp Ht]. auto. }
  intros r. apply hoare_bind with (Mid := fun _ s => Pre s /\ config = c /\ isconfig = true /\ cache1 = Decided c).
  { destruct r as [v|[]]; first [apply hoare_ret; now auto | apply hoare_raise; intros s []; now auto]. }
  intros rv. apply hoare_bind with (Mid := fun cache2 s => Pre s /\ cache2 = Decided c).
  { intros s w (Hs & -> & -> & ->). split; [auto | apply trace_ext_refl]. }
  intros cache2. destruct (is_none rv).
  - intros s w [Hs ->]. exact (IH s w Hs).
  - apply hoare_ret. intros s []; auto.
Qed.


Lemma hoare_stepwise_select_other K Q K' d pruned :
  key_eqb K K' = false ->
  hoare (keyed K Q) any_event (keyed K Q) (stepwise_select K' d pruned)
    (fun _ => keyed K Q).
Proof.
  intros E. unfold stepwise_select. apply hoare_bind_get. intros s0 _.
  destruct (stepwise_eligible _ _ _) as [|c0 rest].
  - apply hoare_bind with (Mid := fun _ => keyed K Q); [apply hoare_lift; auto|].
    intros config. apply hoare_bind with (Mid := fun _ => keyed K Q).
    + apply hoare_tc_decide_other; [reflexivity | exact E].
    + intros _. apply hoare_ret. auto.
  - apply hoare_bind with (Mid := fun _ => keyed K Q).
    + apply hoare_conseq with (Pre := keyed K Q) (Post := fun a s => keyed K Q s /\ In a (c0 :: rest));
        [apply hoare_next_choice; discriminate | auto | intros a s []; auto].
    + intros config. apply hoare_ret. auto.
Qed.

Lemma hoare_confidence_select_other K Q K' d pruned :
  key_eqb K K' = false ->
  hoare (keyed K Q) any_event (keyed K Q) (confidence_select K' d pruned)
    (fun _ => keyed K Q).
Proof.
  intros E. unfold confidence_select. apply hoare_bind_get. intros s0 _.
  apply hoare_bind with (Mid := fun _ => keyed K Q); [apply hoare_lift; auto|].
  intros [config commit]. apply hoare_bind with (Mid := fun _ => keyed K Q).
  - destruct commit; [apply hoare_tc_decide_other; [reflexivity | exact E] | apply hoare_ret; auto].
  - intros _. apply hoare_ret. auto.
Qed.

Lemma Stepwise_run_decided K c args kwargs :
  hoare (decided_at K c) any_event (decided_at K c) (StepwiseAutotuner_run args kwargs)
    (fun _ => decided_at K c) /\
  hoare (decided_at K c) (runs_only c)
    (fun s => decided_at K c s /\ key_eqb (run_key (sw_base s) args kwargs) K = true)
    (StepwiseAutotuner_run args kwargs) (fun _ => decided_at K c).
Proof.
  split.
  - unfold StepwiseAutotuner_run. apply hoare_bind_get. intros s0 _.
    apply hoare_bind with (Mid := fun _ => decided_at K c); [apply hoare_set_nargs; auto|].
    intros _. apply hoare_bind_get. intros s1 _.
    apply hoare_bind with (Mid := fun _ => decided_at K c); [apply hoare_emit; exact I|].
    intros _. set (key := _get_key _ _).
    destruct (key_eqb key K) eqn:Ek.
    + apply hoare_bind with (Mid := fun e s => decided_at K c s /\ e = Decided c);
        [apply hoare_tc_fetch_same; exact Ek|].
      intros cache. apply hoare_bind with (Mid := fun _ s => decided_at K c s /\ cache = Decided c);
        [apply hoare_get_world|].
      intros w. apply hoare_bind with (Mid := fun _ => decided_at K c).
      * intros s w' [Hs ->]. unfold Stepwise_loop.
        apply (hoare_explore_decided (decided_at K c) (decided_at K c) any_event); auto; exact I.
      * intros rv. apply hoare_bind with (Mid := fun _ => decided_at K c);
          [apply hoare_set_nargs; auto | intros _; apply hoare_ret; auto].
    + rewrite key_eqb_sym in Ek.
      apply hoare_bind with (Mid := fun _ => decided_at K c);
        [apply hoare_tc_fetch_other; [reflexivity | exact Ek]|].
      intros cache. apply hoare_bind with (Mid := fun _ => decided_at K c); [apply hoare_get_world|].
      intros w. apply hoare_bind with (Mid := fun _ => decided_at K c).
      * apply hoare_explore_other; [reflexivity | exact Ek |].
        intros d pruned. apply hoare_stepwise_select_other. exact Ek.
      * intros rv. apply hoare_bind with (Mid := fun _ => decided_at K c);
          [apply hoare_set_nargs; auto | intros _; apply hoare_ret; auto].
  - unfold StepwiseAutotuner_run. apply hoare_bind_get_eq. intros s0 _.
    apply hoare_bind with (Mid := fun _ s => decided_at K c s /\
        key_eqb (_get_key (sw_base s) (smerge (zip_args (arg_names (sw_base s0)) args) kwargs)) K = true).
    { intros s w [[Hs Hk] ->]. split; [split; [exact Hs | exact Hk] | apply trace_ext_refl]. }
    intros _. apply hoare_bind_get. intros s1 [Hs1 Ek].
    apply hoare_bind with (Mid := fun _ => decided_at K c).
    { intros s w [Hs _]. split; [exact Hs | exists [EvGetKey (_get_key (sw_base s1) (smerge (zip_args (arg_names (sw_base s0)) args) kwargs))]; split; [reflexivity | repeat constructor]]. }
    intros _.
    apply hoare_bind with (Mid := fun e s => decided_at K c s /\ e = Decided c);
      [apply hoare_tc_fetch_same; exact Ek|].
    intros cache. apply hoare_bind with (Mid := fun _ s => decided_at K c s /\ cache = Decided c);
      [apply hoare_get_world|].
    intros w. apply hoare_bind with (Mid := fun _ => decided_at K c).
    + intros s w' [Hs ->]. unfold Stepwise_loop.
      apply (hoare_explore_decided (decided_at K c) (decided_at K c) (runs_only c)); [reflexivity | reflexivity | auto | exact Hs].
    + intros rv. apply hoare_bind with (Mid := fun _ => decided_at K c);
        [apply hoare_set_nargs; auto | intros _; apply hoare_ret; auto].
Qed.

Lemma Confidence_run_decided K c args kwargs :
  hoare (decided_at K c) any_event (decided_at K c) (ConfidenceAutotuner_run args kwargs)
    (fun _ => decided_at K c) /\
  hoare (decided_at K c) (runs_only c)
    (fun s => decided_at K c s /\ key_eqb (run_key (cf_base s) args kwargs) K = true)
    (ConfidenceAutotuner_run args kwargs) (fun _ => decided_at K c).
Proof.
  split.
  - unfold ConfidenceAutotuner_run. apply hoare_bind_get. intros s0 _.
    apply hoare_bind with (Mid := fun _ => decided_at K c); [apply hoare_set_nargs; auto|].
    intros _. apply hoare_bind_get. intros s1 _.
    apply hoare_bind with (Mid := fun _ => decided_at K c); [apply hoare_emit; exact I|].
    intros _. set (key := _get_key _ _).
    destruct (key_eqb key K) eqn:Ek.
    + apply hoare_bind with (Mid := fun e s => decided_at K c s /\ e = Decided c);
        [apply hoare_tc_fetch_same; exact Ek|].
      intros cache. apply hoare_bind with (Mid := fun _ s => decided_at K c s /\ cache = Decided c);
        [apply hoare_get_world|].
      intros w. apply hoare_bind with (Mid := fun _ => decided_at K c).
      * intros s w' [Hs ->]. unfold Confidence_loop.
        apply (hoare_explore_decided (decided_at K c) (decided_at K c) any_event); auto; exact I.
      * intros rv. apply hoare_bind with (Mid := fun _ => decided_at K c);
          [apply hoare_set_nargs; auto | intros _; apply hoare_ret; auto].
    + rewrite key_eqb_sym in Ek.
      apply hoare_bind with (Mid := fun _ => decided_at K c);
        [apply hoare_tc_fetch_other; [reflexivity | exact Ek]|].
      intros cache. apply hoare_bind with (Mid := fun _ => decided_at K c); [apply hoare_get_world|].
      intros w. apply hoare_bind with (Mid := fun _ => decided_at K c).
      * apply hoare_explore_other; [reflexivity | exact Ek |].
        intros d pruned. apply hoare_confidence_select_other. exact Ek.
      * intros rv. apply hoare_bind with (Mid := fun _ => decided_at K c);
          [apply hoare_set_nargs; auto | intros _; apply hoare_ret; auto].
  - unfold ConfidenceAutotuner_run. apply hoare_bind_get_eq. intros s0 _.
    apply hoare_bind with (Mid := fun _ s => decided_at K c s /\
        key_eqb (_get_key (cf_base s) (smerge (zip_args (arg_names (cf_base s0)) args) kwargs)) K = true).
    { intros s w [[Hs Hk] ->]. split; [split; [exact Hs | exact Hk] | apply trace_ext_refl]. }
    intros _. apply hoare_bind_get. intros s1 [Hs1 Ek].
    apply hoare_bind with (Mid := fun _ => decided_at K c).
    { intros s w [Hs _]. split; [exact Hs | exists [EvGetKey (_get_key (cf_base s1) (smerge (zip_args (arg_names (cf_base s0)) args) kwargs))]; split; [reflexivity | repeat constructor]]. }
    intros _.
    apply hoare_bind with (Mid := fun e s => decided_at K c s /\ e = Decided c);
      [apply hoare_tc_fetch_same; exact Ek|].
    intros cache. apply hoare_bind with (Mid := fun _ s => decided_at K c s /\ cache = Decided c);
      [apply hoare_get_world|].
    intros w. apply hoare_bind with (Mid := fun _ => decided_at K c).
    + intros s w' [Hs ->]. unfold Confidence_loop.
      apply (hoare_explore_decided (decided_at K c) (decided_at K c) (runs_only c)); [reflexivity | reflexivity | auto | exact Hs].
    + intros rv. apply hoare_bind with (Mid := fun _ => decided_at K c);
        [apply hoare_set_nargs; auto | intros _; apply hoare_ret; auto].
Qed.

Lemma hoare_bench_all {S : Type} `{HasBase S} (Inv Pre : S -> Prop) args kwargs pruned acc :
  (forall s, Pre s -> Inv s) ->
  hoare Inv any_event Pre (bench_all args kwargs pruned acc) (fun _ => Pre).
Proof.
  intros HI. revert acc. induction pruned as [|c t IH]; intros acc; simpl.
  { apply hoare_ret. auto. }
  apply hoare_bind with (Mid := fun _ => Pre); [|intros tm; apply IH].
  unfold _bench. apply hoare_bind_get. intros s0 _.
  destruct (existsb _ _); [apply hoare_raise; exact HI|].
  destruct (nargs (base_of s0)); [|apply hoare_raise; exact HI].
  apply hoare_bind with (Mid := fun _ => Pre); [apply hoare_emit; exact I|].
  intros _. apply hoare_bind with (Mid := fun _ => Pre); [apply hoare_next_bench|].
  intros [r|[]]; first [apply hoare_ret; now auto | apply hoare_raise; exact HI].
Qed.


Lemma Autotuner_run_cached K c args kwargs :
  hoare (cached_at K c) any_event (cached_at K c) (Autotuner_run args kwargs)
    (fun _ => cached_at K c) /\
  hoare (cached_at K c) (runs_only c)
    (fun s => cached_at K c s /\ key_eqb (run_key (at_base s) args kwargs) K = true)
    (Autotuner_run args kwargs) (fun _ => cached_at K c).
Proof.
  split.
  - unfold Autotuner_run. apply hoare_bind_get. intros s0 _.
    apply hoare_bind with (Mid := fun _ => cached_at K c); [apply hoare_set_nargs; auto|].
    intros _. apply hoare_bind with (Mid := fun _ => cached_at K c).
    + apply hoare_bind_get_eq. intros s1 [Hc Hl].
      assert (Hlt : Nat.ltb 1 (List.length (configs (at_base s1))) = true) by now apply Nat.ltb_lt.
      rewrite Hlt.
      apply hoare_bind with (Mid := fun _ s => cached_at K c s /\ s = s1).
      { intros s w [Hs ->]. split; [auto | eexists [_]; split; [reflexivity | repeat constructor]]. }
      intros _. set (key := _get_key _ _).
      destruct (kdget (cache (at_base s1)) key) as [c'|] eqn:Ek.
      { apply hoare_ret. intros s []. auto. }
      assert (Ne : key_eqb K key = false).
      { destruct (key_eqb K key) eqn:E; [|reflexivity].
        rewrite key_eqb_sym in E. rewrite (kdget_congr _ _ _ E), Hc in Ek. discriminate. }
      apply hoare_bind with (Mid := fun _ s => cached_at K c s /\ s = s1).
      { apply hoare_lift; [intros; auto | intros s []; auto]. }
      intros pruned. apply hoare_bind with (Mid := fun _ s => cached_at K c s /\ s = s1).
      { apply hoare_bench_all. intros s []; auto. }
      intros timings. apply hoare_bind with (Mid := fun _ => cached_at K c).
      { apply hoare_lift; [intros a _ s []; auto | intros s []; auto]. }
      intros best. apply hoare_bind_get_eq. intros s2 [Hc2 Hl2].
      apply hoare_bind with (Mid := fun _ => cached_at K c).
      { intros s w _. split; [|apply trace_ext_refl]. split; simpl.
        - unfold with_cache; simpl. rewrite kdget_kdset_other; auto.
        - exact Hl2. }
      intros _. apply hoare_bind with (Mid := fun _ => cached_at K c); [apply hoare_emit; exact I|].
      intros _. apply hoare_bind_get_eq. intros s3 [Hc3 Hl3].
      apply hoare_bind with (Mid := fun _ => cached_at K c).
      { intros s w _. split; [split; auto | apply trace_ext_refl]. }
      intros _. apply hoare_ret. auto.
    + intros config. apply hoare_bind_get_eq. intros s3 [Hc3 Hl3].
      apply hoare_bind with (Mid := fun _ => cached_at K c).
      { intros s w _. split; [split; auto | apply trace_ext_refl]. }
      intros _. apply hoare_bind with (Mid := fun _ => cached_at K c).
      { apply hoare_launch; [exact I | exact I | auto]. }
      intros [v|e]; [|apply hoare_raise; auto].
      apply hoare_bind with (Mid := fun _ => cached_at K c); [apply hoare_set_nargs; auto|].
      intros _. apply hoare_ret. auto.
  - unfold Autotuner_run. apply hoare_bind_get_eq. intros s0 _.
    apply hoare_bind with (Mid := fun _ s => cached_at K c s /\
        key_eqb (_get_key (at_base s) (smerge (zip_args (arg_names (at_base s0)) args) kwargs)) K = true).
    { intros s w [[Hs Hk] ->]. split; [split; [exact Hs | exact Hk] | apply trace_ext_refl]. }
    intros _. apply hoare_bind with (Mid := fun config s => cached_at K c s /\ config = c).
    + apply hoare_bind_get_eq. intros s1 [[Hc Hl] Ek].
      assert (Hlt : Nat.ltb 1 (List.length (configs (at_base s1))) = true) by now apply Nat.ltb_lt.
      rewrite Hlt. rewrite (kdget_congr _ _ _ Ek), Hc.
      apply hoare_bind with (Mid := fun _ => cached_at K c).
      { intros s w [[Hs _] _]. split; [exact Hs | eexists [_]; split; [reflexivity | repeat constructor]]. }
      intros _. apply hoare_ret. auto.
    + intros config. apply hoare_bind_get_eq. intros s3 [[Hc3 Hl3] ->].
      apply hoare_bind with (Mid := fun _ => cached_at K c).
      { intros s w _. split; [split; auto | apply trace_ext_refl]. }
      intros _. apply hoare_bind with (Mid := fun _ => cached_at K c).
      { apply hoare_launch; [reflexivity | reflexivity | auto]. }
      intros [v|e]; [|apply hoare_raise; auto].
      apply hoare_bind with (Mid := fun _ => cached_at K c); [apply hoare_set_nargs; auto|].
      intros _. apply hoare_ret. auto.
Qed.

Lemma BaseAutotuner_init_cache fresh fn arg_names configs0 key rz rv pre post pcb warmup rep
    cg db b :
  BaseAutotuner___init__ fresh fn arg_names configs0 key rz rv pre post pcb warmup rep cg db
    = PyOk b -> cache b = [].
Proof.
  unfold BaseAutotuner___init__. cbv zeta.
  repeat match goal with |- context [match ?x with _ => _ end] => destruct x end;
    intros E; try discriminate E; injection E as <-; reflexivity.
Qed.


Lemma Autotuner_run_cache_needs_two args kwargs :
  hoare cache_needs_two any_event cache_needs_two (Autotuner_run args kwargs)
    (fun _ => cache_needs_two).
Proof.
  unfold Autotuner_run. apply hoare_bind_get. intros s0 _.
  apply hoare_bind with (Mid := fun _ => cache_needs_two); [apply hoare_set_nargs; auto|].
  intros _. apply hoare_bind with (Mid := fun _ => cache_needs_two).
  - apply hoare_bind_get_eq. intros s1 Hq.
    destruct (Nat.ltb 1 (List.length (configs (at_base s1)))) eqn:Hlt.
    + apply Nat.ltb_lt in Hlt.
      apply hoare_bind with (Mid := fun _ s => cache_needs_two s /\ s = s1).
      { intros s w [Hs ->]. split; [auto | eexists [_]; split; [reflexivity | repeat constructor]]. }
      intros _. destruct (kdget (cache (at_base s1)) _) as [c'|].
      { apply hoare_ret. intros s []. auto. }
      apply hoare_bind with (Mid := fun _ s => cache_needs_two s /\ s = s1).
      { apply hoare_lift; [intros; auto | intros s []; auto]. }
      intros pruned. apply hoare_bind with (Mid := fun _ s => cache_needs_two s /\ s = s1).
      { apply hoare_bench_all. intros s []; auto. }
      intros timings. apply hoare_bind with (Mid := fun _ s => cache_needs_two s /\ s = s1).
      { apply hoare_lift; [intros a _ s []; auto | intros s []; auto]. }
      intros best. apply hoare_bind_get_eq. intros s2 [_ ->].
      apply hoare_bind with (Mid := fun _ => cache_needs_two).
      { intros s w _. split; [|apply trace_ext_refl]. intros _. exact Hlt. }
      intros _. apply hoare_bind with (Mid := fun _ => cache_needs_two); [apply hoare_emit; exact I|].
      intros _. apply hoare_bind_get_eq. intros s3 Hq3.
      apply hoare_bind with (Mid := fun _ => cache_needs_two).
      { intros s w _. split; [exact Hq3 | apply trace_ext_refl]. }
      intros _. apply hoare_ret. auto.
    + destruct (configs (at_base s1)) as [|c0 rest].
      * apply hoare_raise. intros s []; auto.
      * apply hoare_ret. intros s []; auto.
  - intros config. apply hoare_bind_get_eq. intros s3 Hq3.
    apply hoare_bind with (Mid := fun _ => cache_needs_two).
    { intros s w _. split; [exact Hq3 | apply trace_ext_refl]. }
    intros _. apply hoare_bind with (Mid := fun _ => cache_needs_two).
    { apply hoare_launch; [exact I | exact I | auto]. }
    intros [v|e]; [|apply hoare_raise; auto].
    apply hoare_bind with (Mid := fun _ => cache_needs_two); [apply hoare_set_nargs; auto|].
    intros _. apply hoare_ret. auto.
Qed.

(** ** A config marked failed under a key *)

Lemma hoare_frame_pure {S A : Type} Inv ok (Pre : S -> Prop) (P : Prop) (m : M S A) Post :
  (P -> hoare Inv ok Pre m Post) ->
  hoare Inv ok (fun s => Pre s /\ P) m (fun a s => Post a s /\ P).
Proof.
  intros H s w [Hs Hp]. specialize (H Hp s w Hs).
  destruct (m s w); [destruct H; auto | exact H | exact I].
Qed.

Lemma dget_obj_oid {V : Type} (d : list (ConfigObj * V)) k k' :
  oid k = oid k' -> dget obj_is d k = dget obj_is d k'.
Proof.
  intros E. induction d as [|[x v] t IH]; simpl; [reflexivity|].
  unfold obj_is. rewrite E. destruct (Nat.eqb (oid k') (oid x)); [reflexivity | exact IH].
Qed.

Lemma dget_dset_obj_other {V : Type} (d : list (ConfigObj * V)) k k' v :
  oid k <> oid k' -> dget obj_is (dset obj_is d k' v) k = dget obj_is d k.
Proof.
  intros Ne. induction d as [|[x v'] t IH]; simpl; unfold obj_is.
  - apply Nat.eqb_neq in Ne. now rewrite Ne.
  - destruct (Nat.eqb (oid k') (oid x)) eqn:E1; simpl; unfold obj_is.
    + apply Nat.eqb_eq in E1. rewrite E1 in Ne |- *. apply Nat.eqb_neq in Ne. now rewrite Ne.
    + destruct (Nat.eqb (oid k) (oid x)); [reflexivity | exact IH].
Qed.

Lemma dget_dset_obj_same {V : Type} (d : list (ConfigObj * V)) k k' v :
  oid k = oid k' -> dget obj_is (dset obj_is d k' v) k = Some v.
Proof.
  intros E. rewrite (dget_obj_oid _ _ _ E).
  exact (DictFacts.dget_dset_same obj_is (fun a => Nat.eqb_refl (oid a)) d k' v).
Qed.

Lemma touch_all_failed (d : list (ConfigObj * samples)) pruned c :
  dget obj_is d c = Some None -> dget obj_is (touch_all d pruned) c = Some None.
Proof.
  unfold touch_all, samples in *. revert d. induction pruned as [|x t IH]; intros d Hd; simpl; [exact Hd|].
  apply IH. destruct (dget obj_is d x) eqn:E; [exact Hd|].
  rewrite dget_dset_obj_other; [exact Hd|].
  intros Eq. rewrite (dget_obj_oid _ _ _ Eq), E in Hd. discriminate.
Qed.

Lemma failed_not_eligible (d : list (ConfigObj * samples)) c x :
  dget obj_is d c = Some None -> oid x = oid c -> sample_of d x = None.
Proof. intros Hd E. unfold sample_of. now rewrite (dget_obj_oid d _ _ E), Hd. Qed.

Lemma stepwise_eligible_excludes m (d : list (ConfigObj * samples)) pruned c x :
  dget obj_is d c = Some None -> In x (stepwise_eligible m d pruned) -> oid x <> oid c.
Proof.
  intros Hd Hx E. unfold stepwise_eligible in Hx. apply filter_In in Hx as [_ Hx].
  rewrite (failed_not_eligible _ _ _ Hd E) in Hx. discriminate.
Qed.

Lemma not_failed_excludes (d : list (ConfigObj * samples)) l c x :
  dget obj_is d c = Some None -> In x (filter (not_failed d) l) -> oid x <> oid c.
Proof.
  intros Hd Hx E. apply filter_In in Hx as [_ Hx]. unfold not_failed in Hx.
  rewrite (failed_not_eligible _ _ _ Hd E) in Hx. discriminate.
Qed.

Lemma py_min_res_in {A : Type} lt (f : A -> pyresult flt) l x :
  py_min_res lt f l = PyOk x -> In x l.
Proof.
  unfold py_min_res. intros E.
  destruct (find _ _) as [[y [v|e]]|]; [| discriminate E |];
    unfold py_min in E; destruct l as [|b t]; try discriminate E;
    injection E as <-; apply py_min_from_in.
Qed.

Lemma confidence_decide_in ratio d pruned config commit :
  confidence_decide ratio d pruned = PyOk (config, commit) -> In config (filter (not_failed d) pruned).
Proof.
  unfold confidence_decide. destruct (py_min_res _ _ _) as [c0|e] eqn:E; [|discriminate].
  destruct (_get_upper_boundary _ _); [|discriminate].
  destruct (conf_all _ _ _ _); [|discriminate].
  intros H. injection H as <- _. exact (py_min_res_in _ _ _ _ E).
Qed.

Lemma kdget_kdset_congr {V : Type} (d : list (list pyval * V)) k k' v :
  key_eqb k k' = true -> kdget (kdset d k' v) k = Some v.
Proof. intros E. rewrite (kdget_congr _ _ _ E). apply kdget_kdset_same. Qed.

Lemma hoare_pure_pre {S A : Type} Inv ok (Pre : S -> Prop) (P : Prop) (m : M S A) Post :
  (P -> hoare Inv ok Pre m Post) -> hoare Inv ok (fun s => Pre s /\ P) m Post.
Proof. intros H s w [Hs Hp]. exact (H Hp s w Hs). Qed.

Lemma hoare_weaken_ok {S A : Type} Inv (ok ok' : event -> Prop) (Pre : S -> Prop) (m : M S A) Post :
  (forall e, ok e -> ok' e) -> hoare Inv ok Pre m Post -> hoare Inv ok' Pre m Post.
Proof.
  intros Hok H s w Hs. specialize (H s w Hs).
  destruct (m s w) as [a s' w'|e s' w'|]; [| |exact I];
    destruct H as [Hp [new [Et Hf]]]; (split; [exact Hp | exists new; split; [exact Et | eapply Forall_impl; eauto]]).
Qed.




Section Failed.
Context {St : Type} `{HasTCache St}.
Hypothesis tcache_with : forall s t, tcache_of (with_tcache s t) = t.
Variables (K K' : list pyval) (c : ConfigObj).
Hypothesis HK : key_eqb K K' = true.

Lemma failed_at_fetch s : failed_at K c s -> failed_entry c (kdget (tcache_of s) K').
Proof.
  unfold failed_at, keyed. rewrite key_eqb_sym in HK. now rewrite (kdget_congr _ _ _ HK).
Qed.

Lemma failed_at_set s e :
  failed_entry c (Some e) -> failed_at K c (with_tcache s (kdset (tcache_of s) K' e)).
Proof. intros He. unfold failed_at, keyed. now rewrite tcache_with, (kdget_kdset_congr _ _ _ _ HK). Qed.

Lemma hoare_tc_fetch_failed ok :
  hoare (failed_at K c) ok (failed_at K c) (tc_fetch K')
    (fun e s => failed_at K c s /\ failed_entry c (Some e)).
Proof.
  intros s w Hs. pose proof (failed_at_fetch s Hs) as Hf. unfold tc_fetch.
  destruct (kdget (tcache_of s) K') as [e|]; [|contradiction].
  split; [split; [exact Hs | exact Hf] | apply trace_ext_refl].
Qed.

Lemma hoare_local_sync_failed ok d :
  dget obj_is d c = Some None ->
  hoare (failed_at K c) ok (failed_at K c) (local_sync K' d) (fun _ => failed_at K c).
Proof.
  intros Hd s w Hs. unfold local_sync.
  destruct (kdget (tcache_of s) K') as [[c0|d0]|]; (split; [|apply trace_ext_refl]); try exact Hs.
  apply failed_at_set. exact Hd.
Qed.

Lemma hoare_tc_decide_failed ok c' :
  oid c' <> oid c ->
  hoare (failed_at K c) ok (failed_at K c) (tc_decide K' c') (fun _ => failed_at K c).
Proof.
  intros Ne s w Hs. unfold tc_decide. split; [|apply trace_ext_refl]. apply failed_at_set. exact Ne.
Qed.

Lemma hoare_tc_append_failed ok c' t :
  oid c' <> oid c ->
  hoare (failed_at K c) ok (failed_at K c) (tc_append K' c' t)
    (fun d' s => failed_at K c s /\ dget obj_is d' c = Some None).
Proof.
  intros Ne s w Hs. pose proof (failed_at_fetch s Hs) as Hf. unfold tc_append.
  destruct (kdget (tcache_of s) K') as [[c0|d0]|]; simpl in Hf |- *;
    [split; [exact Hs | apply trace_ext_refl] | | contradiction].
  destruct (option_default (Some []) (dget obj_is d0 c')) as [l|];
    [|split; [exact Hs | apply trace_ext_refl]].
  assert (Hd : dget obj_is (dset obj_is d0 c' (Some (l ++ [t])%list)) c = Some None)
    by (rewrite dget_dset_obj_other; [exact Hf | auto]).
  split; [split; [apply failed_at_set; exact Hd | exact Hd] | apply trace_ext_refl].
Qed.

Lemma hoare_tc_mark_failed_failed ok c' :
  hoare (failed_at K c) ok (failed_at K c) (tc_mark_failed K' c')
    (fun d' s => failed_at K c s /\ dget obj_is d' c = Some None).
Proof.
  intros s w Hs. pose proof (failed_at_fetch s Hs) as Hf. unfold tc_mark_failed.
  destruct (kdget (tcache_of s) K') as [[c0|d0]|]; simpl in Hf |- *;
    [split; [exact Hs | apply trace_ext_refl] | | contradiction].
  assert (Hd : dget obj_is (dset obj_is d0 c' None) c = Some None).
  { destruct (Nat.eq_dec (oid c) (oid c')) as [E|E].
    - now apply dget_dset_obj_same.
    - now rewrite dget_dset_obj_other. }
  split; [split; [apply failed_at_set; exact Hd | exact Hd] | apply trace_ext_refl].
Qed.
End Failed.

Lemma hoare_explore_failed {St : Type} `{HasTCache St}
    (tw : forall s t, tcache_of (with_tcache s t) = t) K K' c (HK : key_eqb K K' = true)
    prune select fuel args kwargs cache :
  (forall d pruned, dget obj_is d c = Some None ->
     hoare (failed_at K c) (not_run c) (failed_at K c) (select K' d pruned)
       (fun cb s => failed_at K c s /\ oid (fst cb) <> oid c)) ->
  failed_entry c (Some cache) ->
  hoare (failed_at K c) (not_run c) (failed_at K c)
    (explore_loop prune select fuel args kwargs K' cache) (fun _ => failed_at K c).
Proof.
  intros Hsel. revert cache. induction fuel as [|fuel IH]; intros cache Hc; simpl.
  { intros s w _. exact I. }
  apply hoare_bind_get. intros s0 _.
  apply hoare_bind with (Mid := fun sel s => failed_at K c s /\
                          (oid (fst (fst sel)) <> oid c /\ failed_entry c (Some (snd sel)))).
  { destruct cache as [c0|d]; simpl in Hc.
    - apply hoare_ret. intros s Hs. simpl. auto.
    - apply hoare_bind with (Mid := fun _ => failed_at K c); [apply hoare_lift; auto|].
      intros pruned. apply hoare_bind with (Mid := fun _ => failed_at K c).
      { apply (hoare_local_sync_failed tw K K' c HK). now apply touch_all_failed. }
      intros _. apply hoare_bind with (Mid := fun cb s => failed_at K c s /\ oid (fst cb) <> oid c).
      { apply Hsel. now apply touch_all_failed. }
      intros [config isconfig]. apply hoare_ret. intros s [Hs Hne]. simpl.
      split; [exact Hs | split; [exact Hne | now apply touch_all_failed]]. }
  intros [[config isconfig] cache1].
  apply hoare_conseq with
    (Pre := fun s => failed_at K c s /\ (oid config <> oid c /\ failed_entry c (Some cache1)))
    (Post := fun _ => failed_at K c); [| intros s Hs; exact Hs | auto].
  apply hoare_bind with
    (Mid := fun _ s => failed_at K c s /\ (oid config <> oid c /\ failed_entry c (Some cache1))).
  { apply hoare_frame_pure. intros [Hne _]. apply hoare_launch; [exact Hne | exact Hne | auto]. }
  intros r. apply hoare_bind with
    (Mid := fun _ s => failed_at K c s /\ (oid config <> oid c /\ failed_entry c (Some cache1))).
  { apply hoare_frame_pure. intros _.
    destruct r as [v|[]]; first [apply hoare_ret; now auto | apply hoare_raise; now auto]. }
  intros rv. apply hoare_bind with
    (Mid := fun cache2 s => failed_at K c s /\ failed_entry c (Some cache2)).
  { destruct isconfig.
    - apply hoare_ret. intros s [Hs [_ Hce]]. auto.
    - apply hoare_pure_pre. intros [Hne _].
      apply hoare_bind with (Mid := fun _ => failed_at K c); [apply hoare_next_elapsed|].
      intros t. apply hoare_bind with (Mid := fun d' s => failed_at K c s /\ dget obj_is d' c = Some None).
      + destruct (truthy rv).
        * exact (hoare_tc_append_failed tw K K' c HK _ config t Hne).
        * exact (hoare_tc_mark_failed_failed tw K K' c HK _ config).
      + intros d'. apply hoare_ret. intros s [Hs Hd]. split; [exact Hs | exact Hd]. }
  intros cache2. destruct (is_none rv).
  - intros s w [Hs Hce]. exact (IH cache2 Hce s w Hs).
  - apply hoare_ret. intros s [Hs _]. exact Hs.
Qed.

Lemma hoare_stepwise_select_failed K K' c (HK : key_eqb K K' = true) d pruned :
  dget obj_is d c = Some None ->
  hoare (failed_at K c) (not_run c) (failed_at K c) (stepwise_select K' d pruned)
    (fun cb s => failed_at K c s /\ oid (fst cb) <> oid c).
Proof.
  intros Hd. unfold stepwise_select. apply hoare_bind_get. intros s0 _.
  destruct (stepwise_eligible _ _ _) as [|c0 rest] eqn:Ee.
  - apply hoare_bind with (Mid := fun config s => failed_at K c s /\ oid config <> oid c).
    { apply hoare_lift; [|auto]. intros a Ea s Hs. split; [exact Hs|].
      exact (not_failed_excludes d (dkeys d) c a Hd (py_min_res_in _ _ _ _ Ea)). }
    intros config. apply hoare_pure_pre. intros Hne.
    apply hoare_bind with (Mid := fun _ => failed_at K c).
    + exact (@hoare_tc_decide_failed StepwiseAutotuner _ (fun _ _ => eq_refl) K K' c HK _ config Hne).
    + intros _. apply hoare_ret. intros s Hs. split; [exact Hs | exact Hne].
  - apply hoare_bind with (Mid := fun a s => failed_at K c s /\ In a (c0 :: rest));
      [apply hoare_next_choice; discriminate|].
    intros config. apply hoare_ret. intros s [Hs Hin]. split; [exact Hs|]. simpl.
    rewrite <- Ee in Hin. exact (stepwise_eligible_excludes _ d pruned c config Hd Hin).
Qed.

Lemma hoare_confidence_select_failed K K' c (HK : key_eqb K K' = true) d pruned :
  dget obj_is d c = Some None ->
  hoare (failed_at K c) (not_run c) (failed_at K c) (confidence_select K' d pruned)
    (fun cb s => failed_at K c s /\ oid (fst cb) <> oid c).
Proof.
  intros Hd. unfold confidence_select. apply hoare_bind_get. intros s0 _.
  apply hoare_bind with (Mid := fun cb s => failed_at K c s /\ oid (fst cb) <> oid c).
  { apply hoare_lift; [|auto]. intros [config commit] Ea s Hs. split; [exact Hs|].
    exact (not_failed_excludes d pruned c config Hd (confidence_decide_in _ _ _ _ _ Ea)). }
  intros [config commit]. apply hoare_pure_pre. intros Hne.
  apply hoare_bind with (Mid := fun _ => failed_at K c).
  - destruct commit; [|apply hoare_ret; auto].
    exact (@hoare_tc_decide_failed ConfidenceAutotuner _ (fun _ _ => eq_refl) K K' c HK _ config Hne).
  - intros _. apply hoare_ret. intros s Hs. split; [exact Hs | exact Hne].
Qed.

Lemma Stepwise_run_failed K c args kwargs :
  hoare (failed_at K c) any_event (failed_at K c) (StepwiseAutotuner_run args kwargs)
    (fun _ => failed_at K c) /\
  hoare (failed_at K c) (not_run c)
    (fun s => failed_at K c s /\ key_eqb (run_key (sw_base s) args kwargs) K = true)
    (StepwiseAutotuner_run args kwargs) (fun _ => failed_at K c).
Proof.
  assert (Hsame : forall key, key_eqb K key = true -> forall ok, (forall e, not_run c e -> ok e) ->
    hoare (failed_at K c) ok (failed_at K c)
      (cache <- tc_fetch key ;;
       w <- get_world ;;
       rv <- Stepwise_loop (S (List.length (launches w))) args kwargs key cache ;;
       set_nargs None ;;; ret rv) (fun _ => failed_at K c)).
  { intros key Ek ok Hok.
    apply hoare_bind with (Mid := fun e s => failed_at K c s /\ failed_entry c (Some e));
      [exact (hoare_tc_fetch_failed K key c Ek ok)|].
    intros cache. apply hoare_bind with (Mid := fun _ s => failed_at K c s /\ failed_entry c (Some cache));
      [apply hoare_get_world|].
    intros w. apply hoare_bind with (Mid := fun _ => failed_at K c).
    - apply hoare_pure_pre. intros Hce. apply (hoare_weaken_ok _ (not_run c)); [exact Hok|].
      unfold Stepwise_loop. apply (@hoare_explore_failed StepwiseAutotuner Stepwise_HasTCache (fun _ _ => eq_refl) K key c Ek); [|exact Hce].
      intros d pruned Hd. exact (hoare_stepwise_select_failed K key c Ek d pruned Hd).
    - intros rv. apply hoare_bind with (Mid := fun _ => failed_at K c);
        [apply hoare_set_nargs; auto | intros _; apply hoare_ret; auto]. }
  split.
  - unfold StepwiseAutotuner_run. apply hoare_bind_get. intros s0 _.
    apply hoare_bind with (Mid := fun _ => failed_at K c); [apply hoare_set_nargs; auto|].
    intros _. apply hoare_bind_get. intros s1 _.
    apply hoare_bind with (Mid := fun _ => failed_at K c); [apply hoare_emit; exact I|].
    intros _. set (key := _get_key _ _).
    destruct (key_eqb K key) eqn:Ek; [apply Hsame; [exact Ek | intros; exact I]|].
    apply hoare_bind with (Mid := fun _ => failed_at K c);
      [apply hoare_tc_fetch_other; [reflexivity | exact Ek]|].
    intros cache. apply hoare_bind with (Mid := fun _ => failed_at K c); [apply hoare_get_world|].
    intros w. apply hoare_bind with (Mid := fun _ => failed_at K c).
    + apply hoare_explore_other; [reflexivity | exact Ek |].
      intros d pruned. apply hoare_stepwise_select_other. exact Ek.
    + intros rv. apply hoare_bind with (Mid := fun _ => failed_at K c);
        [apply hoare_set_nargs; auto | intros _; apply hoare_ret; auto].
  - unfold StepwiseAutotuner_run. apply hoare_bind_get_eq. intros s0 _.
    apply hoare_bind with (Mid := fun _ s => failed_at K c s /\
        key_eqb (_get_key (sw_base s) (smerge (zip_args (arg_names (sw_base s0)) args) kwargs)) K = true).
    { intros s w [[Hs Hk] ->]. split; [split; [exact Hs | exact Hk] | apply trace_ext_refl]. }
    intros _. apply hoare_bind_get. intros s1 [Hs1 Ek]. rewrite key_eqb_sym in Ek.
    apply hoare_bind with (Mid := fun _ => failed_at K c).
    { intros s w [Hs _]. split; [exact Hs | exists [EvGetKey (_get_key (sw_base s1) (smerge (zip_args (arg_names (sw_base s0)) args) kwargs))]; split; [reflexivity | repeat constructor]]. }
    intros _. apply Hsame; [exact Ek | auto].
Qed.

Lemma Confidence_run_failed K c args kwargs :
  hoare (failed_at K c) any_event (failed_at K c) (ConfidenceAutotuner_run args kwargs)
    (fun _ => failed_at K c) /\
  hoare (failed_at K c) (not_run c)
    (fun s => failed_at K c s /\ key_eqb (run_key (cf_base s) args kwargs) K = true)
    (ConfidenceAutotuner_run args kwargs) (fun _ => failed_at K c).
Proof.
  assert (Hsame : forall key, key_eqb K key = true -> forall ok, (forall e, not_run c e -> ok e) ->
    hoare (failed_at K c) ok (failed_at K c)
      (cache <- tc_fetch key ;;
       w <- get_world ;;
       rv <- Confidence_loop (S (List.length (launches w))) args kwargs key cache ;;
       set_nargs None ;;; ret rv) (fun _ => failed_at K c)).
  { intros key Ek ok Hok.
    apply hoare_bind with (Mid := fun e s => failed_at K c s /\ failed_entry c (Some e));
      [exact (hoare_tc_fetch_failed K key c Ek ok)|].
    intros cache. apply hoare_bind with (Mid := fun _ s => failed_at K c s /\ failed_entry c (Some cache));
      [apply hoare_get_world|].
    intros w. apply hoare_bind with (Mid := fun _ => failed_at K c).
    - apply hoare_pure_pre. intros Hce. apply (hoare_weaken_ok _ (not_run c)); [exact Hok|].
      unfold Confidence_loop. apply (@hoare_explore_failed ConfidenceAutotuner Confidence_HasTCache (fun _ _ => eq_refl) K key c Ek); [|exact Hce].
      intros d pruned Hd. exact (hoare_confidence_select_failed K key c Ek d pruned Hd).
    - intros rv. apply hoare_bind with (Mid := fun _ => failed_at K c);
        [apply hoare_set_nargs; auto | intros _; apply hoare_ret; auto]. }
  split.
  - unfold ConfidenceAutotuner_run. apply hoare_bind_get. intros s0 _.
    apply hoare_bind with (Mid := fun _ => failed_at K c); [apply hoare_set_nargs; auto|].
    intros _. apply hoare_bind_get. intros s1 _.
    apply hoare_bind with (Mid := fun _ => failed_at K c); [apply hoare_emit; exact I|].
    intros _. set (key := _get_key _ _).
    destruct (key_eqb K key) eqn:Ek; [apply Hsame; [exact Ek | intros; exact I]|].
    apply hoare_bind with (Mid := fun _ => failed_at K c);
      [apply hoare_tc_fetch_other; [reflexivity | exact Ek]|].
    intros cache. apply hoare_bind with (Mid := fun _ => failed_at K c); [apply hoare_get_world|].
    intros w. apply hoare_bind with (Mid := fun _ => failed_at K c).
    + apply hoare_explore_other; [reflexivity | exact Ek |].
      intros d pruned. apply hoare_confidence_select_other. exact Ek.
    + intros rv. apply hoare_bind with (Mid := fun _ => failed_at K c);
        [apply hoare_set_nargs; auto | intros _; apply hoare_ret; auto].
  - unfold ConfidenceAutotuner_run. apply hoare_bind_get_eq. intros s0 _.
    apply hoare_bind with (Mid := fun _ s => failed_at K c s /\
        key_eqb (_get_key (cf_base s) (smerge (zip_args (arg_names (cf_base s0)) args) kwargs)) K = true).
    { intros s w [[Hs Hk] ->]. split; [split; [exact Hs | exact Hk] | apply trace_ext_refl]. }
    intros _. apply hoare_bind_get. intros s1 [Hs1 Ek]. rewrite key_eqb_sym in Ek.
    apply hoare_bind with (Mid := fun _ => failed_at K c).
    { intros s w [Hs _]. split; [exact Hs | exists [EvGetKey (_get_key (cf_base s1) (smerge (zip_args (arg_names (cf_base s0)) args) kwargs))]; split; [reflexivity | repeat constructor]]. }
    intros _. apply Hsame; [exact Ek | auto].
Qed.

Lemma Autotuner_init_cache_needs_two fresh fn arg_names configs0 key rz rv pre post pcb warmup
    rep cg db t :
  Autotuner___init__ fresh fn arg_names configs0 key rz rv pre post pcb warmup rep cg db = PyOk t ->
  cache_needs_two t.
Proof.
  unfold Autotuner___init__.
  destruct (BaseAutotuner___init__ _ _ _ _ _ _ _ _ _ _ _ _ _ _) as [b|e] eqn:E; [|discriminate].
  intros H. injection H as <-. intros Hne. exfalso. apply Hne. exact (BaseAutotuner_init_cache _ _ _ _ _ _ _ _ _ _ _ _ _ _ _ E).
Qed.

Lemma tc_mark_failed_marks {St : Type} `{HasTCache St}
    (tw : forall s t, tcache_of (with_tcache s t) = t) K c (s : St) w d' s' w' :
  tc_mark_failed K c s w = Done d' s' w' -> failed_at K c s'.
Proof.
  unfold tc_mark_failed. destruct (option_default _ _) as [c0|d]; [discriminate|].
  intros E. injection E as _ <- _. unfold failed_at, keyed.
  rewrite tw, kdget_kdset_same. simpl. now apply dget_dset_obj_same.
Qed.

(** C2: a decided config is final. For the exhaustive policy, whose
    decision is [self.cache[key]]: the cache is filled only when there are at
    least two configs (from construction on, across any sequence of runs), and
    once it maps [K] to [c] every later run keeps that entry, and a run whose
    key is [K] launches (and pre-hooks) no config other than [c]. For the
    stepwise and confidence policies, once [self._tcache[K]] is [Decided c] every
    sequence of later runs (with any keys) keeps it, and a run with key [K]
    launches no config other than [c], also when it relaunches after
    [OutOfResources]. The epsilon policy's cache holds
    [(candidate, eps, perf)] tuples and never a decided config. The triples
    are partial: a run that is stuck on an input of the world is not covered. *)
Theorem decided_config_is_final (K : list pyval) (c : ConfigObj) :
  (forall fresh fn arg_names configs0 key rz rv pre post pcb warmup rep cg db t,
     Autotuner___init__ fresh fn arg_names configs0 key rz rv pre post pcb warmup rep cg db
       = PyOk t -> cache_needs_two t) /\
  (forall calls, hoare cache_needs_two any_event cache_needs_two
                   (run_seq Autotuner_run calls) (fun _ => cache_needs_two)) /\
  (forall s, cache_needs_two s -> kdget (cache (at_base s)) K = Some c -> cached_at K c s) /\
  (forall calls, hoare (cached_at K c) any_event (cached_at K c)
                   (run_seq Autotuner_run calls) (fun _ => cached_at K c)) /\
  (forall args kwargs,
     hoare (cached_at K c) (runs_only c)
       (fun s => cached_at K c s /\ key_eqb (run_key (at_base s) args kwargs) K = true)
       (Autotuner_run args kwargs) (fun _ => cached_at K c)) /\
  (forall calls, hoare (decided_at K c) any_event (decided_at K c)
                   (run_seq StepwiseAutotuner_run calls) (fun _ => decided_at K c)) /\
  (forall args kwargs,
     hoare (decided_at K c) (runs_only c)
       (fun s => decided_at K c s /\ key_eqb (run_key (sw_base s) args kwargs) K = true)
       (StepwiseAutotuner_run args kwargs) (fun _ => decided_at K c)) /\
  (forall calls, hoare (decided_at K c) any_event (decided_at K c)
                   (run_seq ConfidenceAutotuner_run calls) (fun _ => decided_at K c)) /\
  (forall args kwargs,
     hoare (decided_at K c) (runs_only c)
       (fun s => decided_at K c s /\ key_eqb (run_key (cf_base s) args kwargs) K = true)
       (ConfidenceAutotuner_run args kwargs) (fun _ => decided_at K c)).
Proof.
  split; [exact Autotuner_init_cache_needs_two|].
  split; [intros calls; apply hoare_run_seq; [auto | exact Autotuner_run_cache_needs_two]|].
  split; [intros s Hq Hk; split; [exact Hk | apply Hq; intros E; rewrite E in Hk; discriminate]|].
  split; [intros calls; apply hoare_run_seq; [auto | intros; apply Autotuner_run_cached]|].
  split; [intros; apply Autotuner_run_cached|].
  split; [intros calls; apply hoare_run_seq; [auto | intros; apply Stepwise_run_decided]|].
  split; [intros; apply Stepwise_run_decided|].
  split; [intros calls; apply hoare_run_seq; [auto | intros; apply Confidence_run_decided]|].
  intros; apply Confidence_run_decided.
Qed.

Lemma decided_config_is_final_witness :
  match StepwiseAutotuner_run example_args [] (example_stepwise [(example_key, Decided example_c2)])
          (example_world [LaunchRaises OutOfResources; LaunchReturns (PObj 9)] [] [] []) with
  | Done v s w =>
      v = PObj 9 /\ decided_at example_key example_c2 s /\ Forall (runs_only example_c2) (trace w)
  | _ => False
  end.
Proof.
  destruct (decided_config_is_final example_key example_c2) as (_ & _ & _ & _ & _ & _ & Hs & _).
  specialize (Hs example_args [] (example_stepwise [(example_key, Decided example_c2)])
                (example_world [LaunchRaises OutOfResources; LaunchReturns (PObj 9)] [] [] [])
                (conj eq_refl eq_refl)).
  destruct (StepwiseAutotuner_run example_args [] (example_stepwise [(example_key, Decided example_c2)])
              (example_world [LaunchRaises OutOfResources; LaunchReturns (PObj 9)] [] [] []))
    as [v s w|e s w|] eqn:E; [| vm_compute in E; discriminate E | vm_compute in E; discriminate E].
  destruct Hs as [Hd [new [Et Hf]]].
  split; [vm_compute in E; injection E as <- _ _; reflexivity | split; [exact Hd|]].
  rewrite Et. simpl. rewrite app_nil_r. exact Hf.
Defined.

(** C4: a config marked failed is never selected again. For the stepwise and
    confidence policies: [tc_mark_failed K c] (run on [OutOfResources]) leaves
    [self._tcache[K]] with [c]'s samples set to [None]; from then on every
    sequence of runs keeps [c] failed under [K] (the entry may only become a
    decided config other than [c]); a run with key [K] never pre-hooks or
    launches [c]; and the selection step of either policy, on an entry where
    [c] is failed, returns a candidate other than [c], both as an exploration
    choice and as the committed config. *)
Theorem failed_config_never_selected (K : list pyval) (c : ConfigObj) :
  (forall (s : StepwiseAutotuner) w d' s' w',
     tc_mark_failed K c s w = Done d' s' w' -> failed_at K c s') /\
  (forall calls, hoare (failed_at K c) any_event (failed_at K c)
                   (run_seq StepwiseAutotuner_run calls) (fun _ => failed_at K c)) /\
  (forall args kwargs,
     hoare (failed_at K c) (not_run c)
       (fun s => failed_at K c s /\ key_eqb (run_key (sw_base s) args kwargs) K = true)
       (StepwiseAutotuner_run args kwargs) (fun _ => failed_at K c)) /\
  (forall K' d pruned, key_eqb K K' = true -> dget obj_is d c = Some None ->
     hoare (failed_at K c) (not_run c) (failed_at K c) (stepwise_select K' d pruned)
       (fun cb s => failed_at K c s /\ oid (fst cb) <> oid c)) /\
  (forall (s : ConfidenceAutotuner) w d' s' w',
     tc_mark_failed K c s w = Done d' s' w' -> failed_at K c s') /\
  (forall calls, hoare (failed_at K c) any_event (failed_at K c)
                   (run_seq ConfidenceAutotuner_run calls) (fun _ => failed_at K c)) /\
  (forall args kwargs,
     hoare (failed_at K c) (not_run c)
       (fun s => failed_at K c s /\ key_eqb (run_key (cf_base s) args kwargs) K = true)
       (ConfidenceAutotuner_run args kwargs) (fun _ => failed_at K c)) /\
  (forall K' d pruned, key_eqb K K' = true -> dget obj_is d c = Some None ->
     hoare (failed_at K c) (not_run c) (failed_at K c) (confidence_select K' d pruned)
       (fun cb s => failed_at K c s /\ oid (fst cb) <> oid c)).
Proof.
  split; [intros s w d' s' w'; apply (@tc_mark_failed_marks StepwiseAutotuner Stepwise_HasTCache (fun _ _ => eq_refl))|].
  split; [intros calls; apply hoare_run_seq; [auto | intros; apply Stepwise_run_failed]|].
  split; [intros; apply Stepwise_run_failed|].
  split; [intros K' d pruned HK Hd; exact (hoare_stepwise_select_failed K K' c HK d pruned Hd)|].
  split; [intros s w d' s' w'; apply (@tc_mark_failed_marks ConfidenceAutotuner Confidence_HasTCache (fun _ _ => eq_refl))|].
  split; [intros calls; apply hoare_run_seq; [auto | intros; apply Confidence_run_failed]|].
  split; [intros; apply Confidence_run_failed|].
  intros K' d pruned HK Hd; exact (hoare_confidence_select_failed K K' c HK d pruned Hd).
Qed.

Lemma failed_config_never_selected_witness :
  match StepwiseAutotuner_run example_args []
          (example_stepwise [(example_key, Exploring [(example_c1, None); (example_c2, Some [])])])
          (example_world [LaunchReturns (PObj 9)] [0%nat] [5] []) with
  | Done v s w =>
      v = PObj 9 /\ failed_at example_key example_c1 s /\ Forall (not_run example_c1) (trace w)
  | _ => False
  end.
Proof.
  destruct (failed_config_never_selected example_key example_c1) as (_ & _ & Hs & _).
  specialize (Hs example_args []
                (example_stepwise [(example_key, Exploring [(example_c1, None); (example_c2, Some [])])])
                (example_world [LaunchReturns (PObj 9)] [0%nat] [5] [])
                (conj eq_refl eq_refl)).
  destruct (StepwiseAutotuner_run example_args []
              (example_stepwise [(example_key, Exploring [(example_c1, None); (example_c2, Some [])])])
              (example_world [LaunchReturns (PObj 9)] [0%nat] [5] []))
    as [v s w|e s w|] eqn:E; [| vm_compute in E; discriminate E | vm_compute in E; discriminate E].
  destruct Hs as [Hd [new [Et Hf]]].
  split; [vm_compute in E; injection E as <- _ _; reflexivity | split; [exact Hd|]].
  rewrite Et. simpl. rewrite app_nil_r. exact Hf.
Defined.

(** * Further properties of the tuners *)

(** ** Extra: [warmup] *)

Section Warmup.
Context {S : Type} `{HasBase S}.
Hypothesis base_with : forall s b, base_of (with_base s b) = b.
Hypothesis with_with : forall s b b', with_base (with_base s b) b' = with_base s b'.

Lemma existsb_smem_nil (l : pydict) : existsb (fun kv => smem [] (fst kv)) l = false.
Proof. induction l as [|kv t IH]; [reflexivity | exact IH]. Qed.

Lemma warmup_all_ok fn_warmup args kwargs pruned acc rs :
  (forall c, In c pruned -> forall k, In k (dkeys (all_kwargs (cfg c))) -> smem kwargs k = false) ->
  Forall2 (fun c r => fn_warmup args (kwargs ++ all_kwargs (cfg c))%list = PyOk r) pruned rs ->
  warmup_all fn_warmup args kwargs pruned acc = PyOk (acc ++ rs)%list.
Proof.
  intros Hk Hf. revert acc. induction Hf as [|c r pruned rs Hr Hf IH]; intros acc; simpl.
  { now rewrite app_nil_r. }
  assert (Hc : existsb (fun kv => smem kwargs (fst kv)) (all_kwargs (cfg c)) = false).
  { apply Bool.not_true_iff_false. intros Hx. apply existsb_exists in Hx as [kv [Hin Hm]].
    rewrite (Hk c (or_introl eq_refl) (fst kv) (in_map fst _ _ Hin)) in Hm. discriminate. }
  simpl.
  rewrite existsb_smem_nil.
  rewrite Hc, Hr. rewrite IH; [now rewrite <- app_assoc|].
  intros c' Hc'. apply Hk. now right.
Qed.

(** [BaseAutotuner.warmup] on success: one [fn.warmup] result per pruned
    config, in order, each called with the caller's keyword arguments and
    the config's [all_kwargs()]; afterwards [self.nargs] is [None] again, no
    other attribute has changed and nothing is launched or benchmarked. *)
Theorem BaseAutotuner_warmup_ok fn_warmup args kwargs pruned rs (s : S) w :
  prune_configs (with_nargs (base_of s) (Some (zip_args (arg_names (base_of s)) args))) kwargs
    = PyOk pruned ->
  (forall c, In c pruned -> forall k, In k (dkeys (all_kwargs (cfg c))) -> smem kwargs k = false) ->
  Forall2 (fun c r => fn_warmup args (kwargs ++ all_kwargs (cfg c))%list = PyOk r) pruned rs ->
  BaseAutotuner_warmup fn_warmup args kwargs s w
    = Done rs (with_base s (with_nargs (base_of s) None)) w.
Proof.
  intros Hp Hk Hf. unfold BaseAutotuner_warmup, bind, get, set_nargs. simpl.
  rewrite base_with, Hp. simpl. rewrite (warmup_all_ok _ _ _ _ _ _ Hk Hf). simpl.
  rewrite with_with, base_with. reflexivity.
Qed.

(** When [BaseAutotuner.warmup] raises (a keyword given twice, [fn.warmup]
    or the pruner raising), [self.nargs] keeps the call's arguments: the
    method resets it only on its normal return. *)
Theorem BaseAutotuner_warmup_raise_keeps_nargs fn_warmup args kwargs (s : S) w e s' w' :
  BaseAutotuner_warmup fn_warmup args kwargs s w = Thrown e s' w' ->
  nargs (base_of s') = Some (zip_args (arg_names (base_of s)) args) /\ w' = w.
Proof.
  unfold BaseAutotuner_warmup, bind, get, set_nargs. simpl.
  rewrite base_with. unfold lift.
  destruct (prune_configs _ kwargs) as [pruned|e0]; simpl.
  - destruct (warmup_all _ _ _ _ _) as [r|e1]; simpl; [discriminate|].
    intros E. injection E as _ <- <-. rewrite base_with. split; reflexivity.
  - intros E. injection E as _ <- <-. rewrite base_with. split; reflexivity.
Qed.
End Warmup.

(** ** Extra: [Heuristics] *)

Lemma heuristics_kwargs_other an args values kw kw' k :
  heuristics_kwargs an args values kw = PyOk kw' -> ~ In k (map fst values) ->
  sget kw' k = sget kw k.
Proof.
  revert kw. induction values as [|[v heur] t IH]; intros kw; simpl.
  { intros E _. now injection E as <-. }
  destruct (heur _) as [x|e]; [|discriminate]. intros E Hn.
  rewrite (IH _ E) by tauto. apply sget_sset_other. intros ->. tauto.
Qed.

Lemma heuristics_kwargs_app an args pre post kw :
  heuristics_kwargs an args (pre ++ post) kw =
  match heuristics_kwargs an args pre kw with
  | PyRaise e => PyRaise e
  | PyOk kw1 => heuristics_kwargs an args post kw1
  end.
Proof.
  revert kw. induction pre as [|[v heur] t IH]; intros kw; simpl; [reflexivity|].
  destruct (heur _); [apply IH | reflexivity].
Qed.

(** [Heuristics.run] of [heuristics(values)(fn)]: when a heuristic raises,
    [fn.run] is not called and the exception propagates.  Otherwise
    [fn.run] gets the positional arguments and keyword arguments in which
    every name that is no heuristic keeps the caller's value, and the name
    [v] of a heuristic [heur] holds what [heur] returned on
    [{**dict(zip(arg_names, args)), **kwargs}], where [kwargs] already holds
    the values of the heuristics before it (and a caller's value for [v] is
    replaced), provided no later heuristic has the same name. *)
Theorem Heuristics_run_kwargs fn_run values (k : Kernel) args kwargs :
  match heuristics_kwargs (k_arg_names k) args values kwargs with
  | PyRaise e => Heuristics_run fn_run (heuristics values k) args kwargs = PyRaise e
  | PyOk kw' =>
      Heuristics_run fn_run (heuristics values k) args kwargs = fn_run args kw' /\
      (forall n, ~ In n (map fst values) -> sget kw' n = sget kwargs n) /\
      (forall pre v heur post, values = (pre ++ (v, heur) :: post)%list ->
         ~ In v (map fst post) ->
         exists kwp x, heuristics_kwargs (k_arg_names k) args pre kwargs = PyOk kwp /\
           heur (smerge (zip_args (k_arg_names k) args) kwp) = PyOk x /\
           sget kw' v = Some x)
  end.
Proof.
  unfold Heuristics_run, heuristics. simpl.
  destruct (heuristics_kwargs (k_arg_names k) args values kwargs) as [kw'|e] eqn:E; [|reflexivity].
  split; [reflexivity|]. split.
  { intros n Hn. exact (heuristics_kwargs_other _ _ _ _ _ _ E Hn). }
  intros pre v heur post -> Hv. rewrite heuristics_kwargs_app in E.
  destruct (heuristics_kwargs _ args pre kwargs) as [kwp|e]; [|discriminate].
  simpl in E. destruct (heur _) as [x|e] eqn:Eh; [|discriminate].
  exists kwp, x. split; [reflexivity|]. split; [exact Eh|].
  rewrite (heuristics_kwargs_other _ _ _ _ _ _ E Hv). apply sget_dset_same.
Qed.

(** ** Extra: the reset and restore hooks *)

Lemma tget_tset_same m o v : tget (tset m o v) o = v.
Proof.
  unfold tget, tset. now rewrite (DictFacts.dget_dset_same Nat.eqb Nat.eqb_refl).
Qed.

Lemma tget_tset_other m o o' v : o' <> o -> tget (tset m o v) o' = tget m o'.
Proof.
  intros Ne. unfold tget, tset. rewrite DictFacts.dget_dset_other; [reflexivity | apply Nat.eqb_sym | |].
  - intros a b c H1 H2. apply Nat.eqb_eq in H1, H2. subst. apply Nat.eqb_refl.
  - now apply Nat.eqb_neq.
Qed.

Lemma map_zero_idem (l : list Z) : map (fun _ => 0%Z) (map (fun _ => 0%Z) l) = map (fun _ => 0%Z) l.
Proof. rewrite map_map. reflexivity. Qed.

Lemma all_tensors_cons kw n t : all_tensors kw (n :: t) ->
  (exists o, tensor_id kw n = Some o) /\ all_tensors kw t.
Proof. intros H. split; [apply H; now left | intros x Hx; apply H; now right]. Qed.

Lemma kw_tensor_ok kw n o s w : tensor_id kw n = Some o -> kw_tensor kw n s w = Done o s w.
Proof.
  unfold tensor_id, kw_tensor. destruct (sget kw n) as [[]|]; try discriminate.
  intros E. now injection E as ->.
Qed.

Lemma zero_all_spec kw rz s w :
  all_tensors kw rz ->
  exists m', zero_all kw rz s w = Done tt (mkHookState m' (restore_copies s)) w /\
    forall o, tget m' o = after_reset rz kw (hs_mem s) o.
Proof.
  revert s. induction rz as [|n t IH]; intros s Ht; simpl.
  { exists (hs_mem s). split; [now destruct s | reflexivity]. }
  apply all_tensors_cons in Ht as [[o Ho] Ht].
  unfold bind at 1. rewrite (kw_tensor_ok _ _ _ _ _ Ho).
  unfold bind at 1, zero_, modify_mem.
  destruct (IH (mkHookState (tset (hs_mem s) o (map (fun _ => 0%Z) (tget (hs_mem s) o)))
                  (restore_copies s)) Ht) as [m' [E Hm]].
  exists m'. split; [exact E|]. intros o'. rewrite Hm. unfold after_reset.
  change (names_tensor kw (n :: t) o') with
    ((match tensor_id kw n with Some o'' => Nat.eqb o' o'' | None => false end) || names_tensor kw t o').
  rewrite Ho. simpl hs_mem. destruct (Nat.eqb o' o) eqn:Eo.
  - apply Nat.eqb_eq in Eo. subst o'. rewrite tget_tset_same, map_zero_idem.
    destruct (names_tensor kw t o); reflexivity.
  - apply Nat.eqb_neq in Eo. rewrite tget_tset_other by exact Eo. reflexivity.
Qed.

Lemma sdget_dset_same {V : Type} (d : list (string * V)) k v :
  dget String.eqb (dset String.eqb d k v) k = Some v.
Proof. apply DictFacts.dget_dset_same, String.eqb_refl. Qed.

Lemma sdget_dset_other {V : Type} (d : list (string * V)) k k' v :
  k' <> k -> dget String.eqb (dset String.eqb d k v) k' = dget String.eqb d k'.
Proof.
  intros Ne. apply DictFacts.dget_dset_other; [apply String.eqb_sym | | now apply String.eqb_neq].
  intros a b c H1 H2. apply String.eqb_eq in H1, H2. subst. apply String.eqb_refl.
Qed.

Lemma clone_all_spec kw rv acc s w :
  all_tensors kw rv ->
  exists cp, clone_all kw rv acc s w = Done cp s w /\
    (forall n o, In n rv -> tensor_id kw n = Some o -> dget String.eqb cp n = Some (tget (hs_mem s) o)) /\
    (forall n, ~ In n rv -> dget String.eqb cp n = dget String.eqb acc n).
Proof.
  revert acc. induction rv as [|n t IH]; intros acc Ht; simpl.
  { exists acc. split; [reflexivity | split; [intros n o [] | reflexivity]]. }
  apply all_tensors_cons in Ht as [[o Ho] Ht].
  unfold bind at 1. rewrite (kw_tensor_ok _ _ _ _ _ Ho). unfold bind at 1, get.
  destruct (IH (dset String.eqb acc n (tget (hs_mem s) o)) Ht) as [cp [E [Hcp Hnot]]].
  exists cp. split; [exact E|]. split.
  - intros n' o' [<-|Hin] Ho'.
    + rewrite Ho in Ho'. injection Ho' as <-.
      destruct (in_dec string_dec n t) as [Hin|Hn]; [exact (Hcp n o Hin Ho)|].
      rewrite (Hnot n Hn). apply sdget_dset_same.
    + exact (Hcp n' o' Hin Ho').
  - intros n' Hn'. rewrite Hnot by tauto. apply sdget_dset_other. intros ->. tauto.
Qed.

Lemma restore_all_spec kw rv (f : nat -> list Z) cp s w :
  all_tensors kw rv -> restore_copies s = Some cp ->
  (forall n o, In n rv -> tensor_id kw n = Some o -> dget String.eqb cp n = Some (f o)) ->
  exists m', restore_all kw rv s w = Done tt (mkHookState m' (Some cp)) w /\
    forall o, tget m' o = if names_tensor kw rv o then f o else tget (hs_mem s) o.
Proof.
  revert s. induction rv as [|n t IH]; intros s Ht Hs Hcp; simpl.
  { exists (hs_mem s). split; [destruct s; simpl in Hs; now subst | reflexivity]. }
  apply all_tensors_cons in Ht as [[o Ho] Ht].
  unfold bind at 1. rewrite (kw_tensor_ok _ _ _ _ _ Ho). unfold bind at 1, get.
  rewrite Hs, (Hcp n o (or_introl eq_refl) Ho). unfold bind at 1, put.
  destruct (IH (mkHookState (tset (hs_mem s) o (f o)) (Some cp)) Ht eq_refl) as [m' [E Hm]].
  { intros n' o' Hn' Ho'. apply Hcp; [now right | exact Ho']. }
  exists m'. split; [exact E|]. intros o'. rewrite Hm.
  change (names_tensor kw (n :: t) o') with
    ((match tensor_id kw n with Some o'' => Nat.eqb o' o'' | None => false end) || names_tensor kw t o').
  rewrite Ho. simpl hs_mem. destruct (Nat.eqb o' o) eqn:Eo.
  - apply Nat.eqb_eq in Eo. subst o'. rewrite tget_tset_same. simpl.
    destruct (names_tensor kw t o); reflexivity.
  - apply Nat.eqb_neq in Eo. rewrite tget_tset_other by exact Eo. reflexivity.
Qed.

Lemma bind_step {S A B : Type} (m : M S A) (k : A -> M S B) s w a s1 w1 :
  m s w = Done a s1 w1 -> bind m k s w = k a s1 w1.
Proof. unfold bind. now intros ->. Qed.

Lemma BaseAutotuner_init_hooks fresh fn an configs0 key rz rv pre post pcb warmup rep cg db b :
  BaseAutotuner___init__ fresh fn an configs0 key rz rv pre post pcb warmup rep cg db = PyOk b ->
  reset_to_zero b = option_default [] rz /\ restore_value b = option_default [] rv /\
  tuner_pre_hook b = match pre with
                     | Some f => HookUser f
                     | None => if nonempty (option_default [] rz) || nonempty (option_default [] rv)
                               then HookResetRestore else HookNoop
                     end /\
  tuner_post_hook b = match post with
                      | Some f => HookUser f
                      | None => if nonempty (option_default [] rv) then HookResetRestore else HookNoop
                      end.
Proof.
  unfold BaseAutotuner___init__.
  destruct configs0 as [[|c cs]|]; simpl; destruct pcb as [p|]; simpl;
    intros H; injection H as <-; simpl; repeat split.
Qed.

(** [_bench]'s [kernel_call] with the hooks [BaseAutotuner.__init__]
    builds from [reset_to_zero] and [restore_value] (no user hooks, no
    config pre-hook), when those names are tensors of [full_nargs]:
    whatever the kernel does to the tensors, and whether it returns or
    raises, afterwards every tensor of [restore_value] holds what it held
    when the kernel started: its contents before the call, or zeros when it
    is also a tensor of [reset_to_zero] (the copies are taken after the
    reset).  A kernel that returns makes [kernel_call] return; a kernel
    that raises makes it raise the same exception. *)
Theorem kernel_call_restores fresh fn an configs0 key rz rv pcb warmup rep cg db b
    user effect config kw s w r rest :
  BaseAutotuner___init__ fresh fn an configs0 key rz rv None None pcb warmup rep cg db = PyOk b ->
  pre_hook (cfg config) = None ->
  all_tensors kw (reset_to_zero b ++ restore_value b) ->
  launches w = r :: rest ->
  match kernel_call user effect b config kw s w with
  | Done _ s' _ =>
      (exists v, r = LaunchReturns v) /\
      forall o, names_tensor kw (restore_value b) o = true ->
        tget (hs_mem s') o = after_reset (reset_to_zero b) kw (hs_mem s) o
  | Thrown e s' _ =>
      r = LaunchRaises e /\
      forall o, names_tensor kw (restore_value b) o = true ->
        tget (hs_mem s') o = after_reset (reset_to_zero b) kw (hs_mem s) o
  | Stuck => False
  end.
Proof.
  intros Hb Hph Ht Hw.
  destruct (BaseAutotuner_init_hooks _ _ _ _ _ _ _ _ _ _ _ _ _ _ _ Hb) as (Hrz & Hrv & Hpre & Hpost).
  assert (Hrz' : all_tensors kw (reset_to_zero b)) by (intros n Hn; apply Ht, in_or_app; now left).
  assert (Hrv' : all_tensors kw (restore_value b)) by (intros n Hn; apply Ht, in_or_app; now right).
  unfold kernel_call. rewrite Hph. unfold bind at 1, ret at 1.
  (* the pre-hook *)
  assert (Hpre' : exists s1, call_pre_hook user b kw false s w = Done tt s1 w /\
            (forall o, tget (hs_mem s1) o = after_reset (reset_to_zero b) kw (hs_mem s) o) /\
            (restore_value b <> [] -> exists cp, restore_copies s1 = Some cp /\
               forall n o, In n (restore_value b) -> tensor_id kw n = Some o ->
                 dget String.eqb cp n = Some (after_reset (reset_to_zero b) kw (hs_mem s) o))).
  { unfold call_pre_hook. rewrite Hpre.
    destruct (nonempty (option_default [] rz) || nonempty (option_default [] rv)) eqn:Ene.
    - unfold _pre_hook, bind at 1.
      destruct (zero_all_spec kw (reset_to_zero b) s w Hrz') as [m1 [E1 H1]]. rewrite E1.
      unfold bind at 1.
      destruct (clone_all_spec kw (restore_value b) [] (mkHookState m1 (restore_copies s)) w Hrv')
        as [cp [E2 [H2 _]]]. rewrite E2. unfold bind, get, put.
      eexists. split; [reflexivity|]. split; [exact H1|]. intros _. exists cp. split; [reflexivity|].
      intros n o Hn Ho. rewrite (H2 n o Hn Ho). simpl. now rewrite H1.
    - exists s. split; [reflexivity|]. split.
      + intros o. unfold after_reset. rewrite Hrz.
        destruct rz as [[|x t]|]; simpl in Ene |- *; try discriminate; reflexivity.
      + intros Hne. exfalso. rewrite Hrv in Hne.
        apply Bool.orb_false_iff in Ene as [_ Ene].
        destruct rv as [[|x t]|]; simpl in Ene, Hne; congruence. }
  destruct Hpre' as (s1 & E1 & Hm1 & Hcp1). rewrite (bind_step _ _ _ _ _ _ _ E1).
  rewrite (bind_step _ _ s1 w tt s1 (log (EvLaunch (oid config)) w) eq_refl).
  set (w1 := log (EvLaunch (oid config)) w).
  set (w2 := mkWorld rest (choices w1) (randoms w1) (elapsed w1) (benches w1) (trace w1)).
  rewrite (bind_step next_launch _ s1 w1 r s1 w2)
    by (unfold next_launch; subst w1; simpl; now rewrite Hw).
  set (s2 := mkHookState (effect (hs_mem s1)) (restore_copies s1)).
  rewrite (bind_step (modify_mem effect) _ s1 w2 tt s2 w2 eq_refl).
  assert (Hpost' : exists s3, call_post_hook user b kw s2 w2 = Done tt s3 w2 /\
            forall o, names_tensor kw (restore_value b) o = true ->
              tget (hs_mem s3) o = after_reset (reset_to_zero b) kw (hs_mem s) o).
  { unfold call_post_hook. rewrite Hpost.
    destruct (nonempty (option_default [] rv)) eqn:Ene.
    - destruct (Hcp1 ltac:(rewrite Hrv; destruct rv as [[|x t]|]; simpl in Ene; try discriminate; intros Hc; discriminate Hc))
        as [cp [Ecp Hcp]].
      unfold _post_hook, bind at 1.
      destruct (restore_all_spec kw (restore_value b) (after_reset (reset_to_zero b) kw (hs_mem s))
                  cp s2 w2 Hrv' Ecp Hcp) as [m3 [E3 H3]].
      rewrite E3. unfold bind, get, put. eexists. split; [reflexivity|].
      intros o Ho. simpl. now rewrite H3, Ho.
    - exists s2. split; [reflexivity|]. intros o Ho. exfalso.
      rewrite Hrv in Ho. destruct rv as [[|x t]|]; simpl in Ene, Ho; congruence. }
  destruct Hpost' as (s3 & E3 & H3).
  destruct r as [v|e].
  - rewrite E3. split; [now exists v | exact H3].
  - unfold bind. rewrite E3. split; [reflexivity | exact H3].
Qed.

(** With a user [pre_hook] and no [post_hook], [BaseAutotuner.__init__]
    still installs [_post_hook] for a non-empty [restore_value], but no
    [_pre_hook] ever takes the copies.  When the user [pre_hook] (and the
    config's [pre_hook], if any) return normally, [kernel_call] then ends
    in an exception of [_post_hook] on the first name of [restore_value]
    (a tensor of [full_nargs]), whether the kernel returned or raised:
    [AttributeError] while [self.restore_copies] was never assigned,
    [KeyError] when the copies lack that name; a kernel exception is
    replaced by it. *)
Theorem kernel_call_user_pre_hook_no_copies fresh fn an configs0 key rz n rvt f pcb warmup rep cg db b
    user effect config kw s w r rest o dt :
  BaseAutotuner___init__ fresh fn an configs0 key rz (Some (n :: rvt)) (Some f) None pcb warmup rep cg db = PyOk b ->
  (forall m, exists m', user f kw m = PyOk m') ->
  (forall g, pre_hook (cfg config) = Some g -> forall m, exists m', user g kw m = PyOk m') ->
  sget kw n = Some (PTensor o dt) ->
  match restore_copies s with None => True | Some cp => dget String.eqb cp n = None end ->
  launches w = r :: rest ->
  exists s' w', kernel_call user effect b config kw s w =
    Thrown (match restore_copies s with None => AttributeError | Some _ => KeyError end) s' w'.
Proof.
  intros Hb Hf Hg Hn Hcp Hw.
  destruct (BaseAutotuner_init_hooks _ _ _ _ _ _ _ _ _ _ _ _ _ _ _ Hb) as (Hrz & Hrv & Hpre & Hpost).
  simpl in Hrv, Hpost.
  unfold kernel_call.
  set (s0 := match pre_hook (cfg config) with Some g => _ | None => _ end).
  set (w0 := match pre_hook (cfg config) with
             | Some _ => log (EvConfigPreHook (oid config)) w | None => w end).
  assert (E0 : exists m0, s0 s w = Done tt (mkHookState m0 (restore_copies s)) w0).
  { subst s0 w0. destruct (pre_hook (cfg config)) as [g|] eqn:Eg.
    - destruct (Hg g eq_refl (hs_mem s)) as [m' Hm'].
      exists m'. unfold bind, emit, run_user. simpl. rewrite Hm'. reflexivity.
    - exists (hs_mem s). destruct s; reflexivity. }
  destruct E0 as [m0 E0]. rewrite (bind_step _ _ _ _ _ _ _ E0).
  unfold call_pre_hook. rewrite Hpre.
  destruct (Hf m0) as [m1 Hm1].
  rewrite (bind_step (run_user user f kw) _ _ w0 tt (mkHookState m1 (restore_copies s)) w0)
    by (unfold run_user; simpl; rewrite Hm1; reflexivity).
  rewrite (bind_step (emit (EvLaunch (oid config))) _ _ w0 tt _ (log (EvLaunch (oid config)) w0) eq_refl).
  set (w1 := log (EvLaunch (oid config)) w0).
  set (w2 := mkWorld rest (choices w1) (randoms w1) (elapsed w1) (benches w1) (trace w1)).
  rewrite (bind_step next_launch _ _ w1 r _ w2)
    by (unfold next_launch; assert (launches w1 = launches w) as ->
          by (subst w1 w0; destruct (pre_hook (cfg config)); reflexivity);
        now rewrite Hw).
  rewrite (bind_step (modify_mem effect) _ _ w2 tt _ w2 eq_refl).
  unfold call_post_hook. rewrite Hpost, Hrv.
  assert (E : forall s1, restore_copies s1 = restore_copies s ->
            _post_hook (n :: rvt) kw s1 w2 =
            Thrown (match restore_copies s with None => AttributeError | Some _ => KeyError end) s1 w2).
  { intros s1 Hs1. unfold _post_hook, restore_all, kw_tensor. rewrite Hn.
    unfold bind, ret, get. rewrite Hs1.
    destruct (restore_copies s) as [cp|].
    - rewrite Hcp. reflexivity.
    - reflexivity. }
  destruct r as [v|e].
  - rewrite E by reflexivity. eauto.
  - unfold bind at 1. rewrite E by reflexivity. eauto.
Qed.

(** ** Pruning bounds *)

Lemma In_insert_by {A : Type} (f : A -> flt) (a x : A) (l : list A) :
  In x (insert_by f a l) <-> a = x \/ In x l.
Proof.
  induction l as [|y t IH]; simpl.
  - tauto.
  - destruct (flt_lt (f a) (f y)); simpl; [tauto|]. rewrite IH. tauto.
Qed.

Lemma length_insert_by {A : Type} (f : A -> flt) (a : A) (l : list A) :
  List.length (insert_by f a l) = S (List.length l).
Proof.
  induction l as [|y t IH]; simpl; [reflexivity|].
  destruct (flt_lt (f a) (f y)); simpl; congruence.
Qed.

Lemma In_sorted_by_acc {A : Type} (f : A -> flt) (l acc : list A) (x : A) :
  In x (fold_left (fun acc x => insert_by f x acc) l acc) <-> In x acc \/ In x l.
Proof.
  revert acc. induction l as [|y t IH]; intros acc; simpl.
  - tauto.
  - rewrite IH, In_insert_by. tauto.
Qed.

Lemma In_sorted_by {A : Type} (f : A -> flt) (l : list A) (x : A) :
  In x (sorted_by f l) <-> In x l.
Proof. unfold sorted_by. rewrite In_sorted_by_acc. simpl. tauto. Qed.

Lemma In_dkeys_dset_obj (d : list (ConfigObj * flt)) c v x :
  In x (dkeys (dset obj_is d c v)) -> x = c \/ In x (dkeys d).
Proof.
  induction d as [|[k' v'] t IH]; simpl.
  - intros [H|[]]. now left.
  - destruct (obj_is c k'); simpl.
    + intros [H|H]; [now left | tauto].
    + intros [H|H]; [tauto|]. destruct (IH H); tauto.
Qed.

(** The estimates' keys are the configs of the list. *)
Lemma est_keys (pm : pydict -> flt) (na kwargs : pydict) (pruned : list ConfigObj)
    (acc : pyresult (list (ConfigObj * flt))) (d : list (ConfigObj * flt)) :
  fold_left (fun acc c =>
    match acc with
    | PyRaise e => PyRaise e
    | PyOk d =>
      match call_kwargs [] [na; kwargs; all_kwargs (cfg c)] with
      | PyRaise e => PyRaise e
      | PyOk args => PyOk (dset obj_is d c (pm args))
      end
    end) pruned acc = PyOk d ->
  forall x, In x (dkeys d) ->
    (exists d0, acc = PyOk d0 /\ In x (dkeys d0)) \/ In x pruned.
Proof.
  revert acc. induction pruned as [|c t IH]; intros acc; cbn [fold_left].
  - intros -> x Hx. left. eauto.
  - intros H x Hx. destruct (IH _ H x Hx) as [(d0 & E & Hd0)|Hin]; [|right; now right].
    cbv beta in E. destruct acc as [d1|e]; [|discriminate E].
    destruct (call_kwargs [] [na; kwargs; all_kwargs (cfg c)]); simpl in E; [|discriminate E].
    injection E as <-. destruct (In_dkeys_dset_obj _ _ _ _ Hd0) as [->|Hx']; [right; now left|].
    left. eauto.
Qed.

(** With a [perf_model] and an integer [top_k] [n >= 0], [prune_configs]
    returns at most [n] configs, all of them kept by [early_config_prune]
    (or all configs when there is none). *)
Theorem prune_configs_at_most_top_k b kwargs n l pm :
  perf_model b = Some pm ->
  (0 <= n)%Z ->
  configs_top_k b = TopKInt n ->
  prune_configs b kwargs = PyOk l ->
  (List.length l <= Z.to_nat n)%nat /\
  forall c, In c l -> In c (match early_config_prune b with
                            | Some f => f (configs b) (nargs b) kwargs
                            | None => configs b
                            end).
Proof.
  intros Hpm Hn Hk. unfold prune_configs. rewrite Hpm.
  set (pruned := match early_config_prune b with
                 | Some f => f (configs b) (nargs b) kwargs
                 | None => configs b end).
  assert (Htk : match configs_top_k b with
                | TopKFloat q =>
                    if Qle_bool q 1
                    then TopKInt (py_int (inject_Z (Z.of_nat (List.length (configs b))) * q))
                    else TopKFloat q
                | t => t end = TopKInt n).
  { now rewrite Hk. }
  cbv zeta. rewrite Htk.
  destruct (negb (qltb (inject_Z n) (inject_Z (Z.of_nat (List.length pruned))))) eqn:Ex.
  - intros H. injection H as <-. split; [|tauto].
    unfold qltb in Ex. rewrite negb_involutive, Qle_bool_iff, <- Zle_Qle in Ex. lia.
  - destruct (nargs b) as [na|]; [|discriminate].
    destruct (fold_left _ pruned (PyOk [])) as [d|e] eqn:Ed; [|discriminate].
    intros H. injection H as <-. split.
    + rewrite length_firstn. lia.
    + intros c Hc.
      assert (Hc' : In c (sorted_by (fun c => option_default NaN (odget d c)) (dkeys d))).
      { rewrite <- (firstn_skipn (Z.to_nat n) (sorted_by _ _)). apply in_or_app. now left. }
      apply In_sorted_by in Hc'.
      destruct (est_keys _ _ _ _ _ _ Ed c Hc') as [(d0 & E0 & H0)|H0]; [|exact H0].
      injection E0 as <-. destruct H0.
Qed.

(** With a [perf_model], a float [top_k] above 1.0 is kept as a float; when
    fewer configs than it survive early pruning, [prune_configs] raises
    (slicing with a float or [**None]) instead of returning a list. *)
Theorem prune_configs_float_top_k_raises b kwargs pm q :
  perf_model b = Some pm ->
  configs_top_k b = TopKFloat q ->
  Qle_bool q 1 = false ->
  (q < inject_Z (Z.of_nat (List.length (match early_config_prune b with
                                        | Some f => f (configs b) (nargs b) kwargs
                                        | None => configs b
                                        end))))%Q ->
  exists e, prune_configs b kwargs = PyRaise e.
Proof.
  intros Hpm Hk Hq Hlt. unfold prune_configs. rewrite Hpm. cbv zeta. rewrite Hk, Hq.
  apply qltb_iff in Hlt. rewrite Hlt. simpl negb. cbv iota.
  destruct (nargs b) as [na|]; [|eexists; reflexivity].
  destruct (fold_left _ _ (PyOk [])); eexists; reflexivity.
Qed.

Lemma get_key_with_nargs b n kw : _get_key (with_nargs b n) kw = _get_key b kw.
Proof. reflexivity. Qed.

(** [Autotuner.run] with more than one config and a key not in the cache
    raises [ValueError] ([min()] of an empty timing dict) when pruning
    leaves no config; nothing is launched or benchmarked, and [self.nargs]
    keeps the call's arguments. *)
Theorem Autotuner_run_nothing_pruned_raises args kwargs s w :
  let na := zip_args (arg_names (at_base s)) args in
  let key := _get_key (at_base s) (smerge na kwargs) in
  (1 < List.length (configs (at_base s)))%nat ->
  kdget (cache (at_base s)) key = None ->
  prune_configs (with_nargs (at_base s) (Some na)) kwargs = PyOk [] ->
  Autotuner_run args kwargs s w =
  Thrown ValueError (mkAutotuner (with_nargs (at_base s) (Some na)) (best_config s) (configs_timings s))
         (log (EvGetKey key) w).
Proof.
  intros na key Hlen Hk Hp.
  cbv [Autotuner_run bind get ret put set_nargs emit lift base_of with_base Autotuner_HasBase].
  cbn [at_base]. fold na. rewrite get_key_with_nargs. fold key.
  change (configs (with_nargs (at_base s) (Some na))) with (configs (at_base s)).
  change (cache (with_nargs (at_base s) (Some na))) with (cache (at_base s)).
  apply Nat.ltb_lt in Hlen. rewrite Hlen, Hk, Hp. reflexivity.
Qed.

(** ** Stepwise: at most [min_try] samples per config *)

Lemma dget_In {K V : Type} (keq : K -> K -> bool) (d : list (K * V)) k v :
  dget keq d k = Some v -> exists k', In (k', v) d.
Proof.
  induction d as [|[k' v'] t IH]; simpl; [discriminate|].
  destruct (keq k k'); [intros H; injection H as <-; eauto|].
  intros H. destruct (IH H) as [k'' Hk]. eauto.
Qed.

Lemma In_dset {K V : Type} (keq : K -> K -> bool) (d : list (K * V)) k v k' v' :
  In (k', v') (dset keq d k v) -> (k' = k /\ v' = v) \/ In (k', v') d.
Proof.
  induction d as [|[k0 v0] t IH]; simpl.
  - intros [H|[]]. injection H as -> ->. now left.
  - destruct (keq k k0); simpl.
    + intros [H|H]; [injection H as -> ->; now left | tauto].
    + intros [H|H]; [tauto|]. destruct (IH H); tauto.
Qed.

Lemma dict_bounded_dset n d c v :
  dict_bounded n d ->
  (forall l, v = Some l -> (List.length l <= n)%nat) ->
  dict_bounded n (dset obj_is d c v).
Proof.
  intros Hd Hv c' l H. destruct (In_dset _ _ _ _ _ _ H) as [[_ E]|H'].
  - now apply Hv.
  - exact (Hd _ _ H').
Qed.

Lemma dict_bounded_touch n d pruned :
  dict_bounded n d -> dict_bounded n (touch_all d pruned).
Proof.
  unfold touch_all. revert d. induction pruned as [|c t IH]; intros d Hd; simpl; [exact Hd|].
  apply IH. match goal with |- context [match ?x with Some _ => _ | None => _ end] => destruct x end;
    [exact Hd|].
  apply dict_bounded_dset; [exact Hd|]. intros l E. injection E as <-. simpl. lia.
Qed.

Lemma samples_bounded_set n t k e :
  samples_bounded n t -> entry_bounded n e -> samples_bounded n (kdset t k e).
Proof.
  intros Ht He K d c l HK Hin. destruct (key_eqb K k) eqn:E.
  - rewrite (kdget_kdset_congr _ _ _ _ E) in HK. injection HK as ->. exact (He _ _ Hin).
  - rewrite (kdget_kdset_other _ _ _ _ E) in HK. exact (Ht _ _ _ _ HK Hin).
Qed.

Lemma samples_bounded_get n t k :
  samples_bounded n t -> forall e, kdget t k = Some e -> entry_bounded n e.
Proof.
  intros Ht [c|d] E; simpl; [exact I|]. intros c l Hin. exact (Ht _ _ _ _ E Hin).
Qed.

Section StepwiseBound.
Variable m : Z.

Lemma stepwise_eligible_sample d pruned c :
  In c (stepwise_eligible m d pruned) ->
  exists l, sample_of d c = Some l /\ (Z.of_nat (List.length l) < m)%Z.
Proof.
  unfold stepwise_eligible. rewrite filter_In. intros [_ H].
  destruct (sample_of d c) as [l|]; [|discriminate]. exists l. split; [reflexivity|].
  now apply Z.ltb_lt.
Qed.

Lemma hoare_stepwise_select_bounded key d1 pruned :
  hoare (sw_bounded m) any_event
    (fun s => (sw_bounded m) s /\ dict_bounded (Z.to_nat m) d1 /\
              forall d'', kdget (sw_tcache s) key = Some (Exploring d'') -> d'' = d1)
    (stepwise_select key d1 pruned)
    (fun cb s => sw_sel_ok m key (fst cb) (snd cb) (Exploring d1) s).
Proof.
  unfold stepwise_select. apply hoare_bind_get_eq. intros s0 [(Hm & Hb) [Hd1 Hk]].
  apply (hoare_conseq _ _ (fun s => s = s0) _
           (fun cb s => sw_sel_ok m key (fst cb) (snd cb) (Exploring d1) s));
    [| intros s [_ ->]; reflexivity | intros a s H; exact H].
  assert (Hs0 : (sw_bounded m) s0) by (split; assumption).
  destruct (stepwise_eligible (_min_try s0) d1 pruned) as [|c0 rest] eqn:Ee.
  - apply hoare_bind with (Mid := fun _ s => s = s0).
    { apply hoare_lift; [intros a _ s ->; reflexivity|]. intros s ->; exact Hs0. }
    intros config.
    apply hoare_bind with (Mid := fun _ s => (sw_bounded m) s).
    { intros s w ->. split; [|apply trace_ext_refl].
      split; [exact Hm|]. apply samples_bounded_set; [exact Hb | exact I]. }
    intros _. apply hoare_ret. intros s Hs. split; [exact Hs|]. split; [exact Hd1|].
    simpl. discriminate.
  - apply hoare_bind with (Mid := fun a s => s = s0 /\ In a (c0 :: rest)).
    { apply hoare_next_choice. discriminate. }
    intros config. apply hoare_ret. intros s [-> Hin]. split; [exact Hs0|].
    split; [exact Hd1|]. intros _. exists d1. split; [exact Hk|].
    rewrite <- Ee, Hm in Hin. exact (stepwise_eligible_sample _ _ _ Hin).
Qed.
Lemma hoare_tc_append_bounded key config t d1 l0 :
  hoare (sw_bounded m) any_event
    (fun s => (sw_bounded m) s /\ (forall d'', kdget (sw_tcache s) key = Some (Exploring d'') -> d'' = d1) /\
              sample_of d1 config = Some l0 /\ (Z.of_nat (List.length l0) < m)%Z)
    (tc_append key config t)
    (fun d' s => (sw_bounded m) s /\ dict_bounded (Z.to_nat m) d').
Proof.
  intros s w ((Hm & Hb) & Hk & Hl & Hlt). unfold tc_append. cbn [tcache_of Stepwise_HasTCache].
  destruct (kdget (sw_tcache s) key) as [[c|d'']|] eqn:E; cbn [option_default].
  - split; [split; assumption | apply trace_ext_refl].
  - rewrite (Hk _ eq_refl) in E |- *.
    change (option_default (Some []) (dget obj_is d1 config)) with (sample_of d1 config).
    rewrite Hl.
    assert (Hd : dict_bounded (Z.to_nat m) (dset obj_is d1 config (Some (l0 ++ [t])%list))).
    { apply dict_bounded_dset.
      - exact (samples_bounded_get _ _ _ Hb _ E).
      - intros l E'. injection E' as <-. rewrite length_app. simpl. lia. }
    split; [|apply trace_ext_refl]. split; [|exact Hd].
    split; [exact Hm|]. apply samples_bounded_set; [exact Hb | exact Hd].
  - cbn [dget option_default app].
    assert (Hd : dict_bounded (Z.to_nat m) (dset obj_is [] config (Some [t]))).
    { intros c l H. destruct H as [H|[]]. injection H as _ <-. simpl. lia. }
    split; [|apply trace_ext_refl]. split; [|exact Hd].
    split; [exact Hm|]. apply samples_bounded_set; [exact Hb | exact Hd].
Qed.

Lemma hoare_tc_mark_failed_bounded key config :
  hoare (sw_bounded m) any_event (sw_bounded m) (tc_mark_failed key config)
    (fun d' s => (sw_bounded m) s /\ dict_bounded (Z.to_nat m) d').
Proof.
  intros s w (Hm & Hb). unfold tc_mark_failed. cbn [tcache_of Stepwise_HasTCache].
  destruct (option_default (Exploring []) (kdget (sw_tcache s) key)) as [c|d''] eqn:E.
  - split; [split; assumption | apply trace_ext_refl].
  - assert (Hd'' : dict_bounded (Z.to_nat m) d'').
    { destruct (kdget (sw_tcache s) key) as [e|] eqn:E'; cbn [option_default] in E.
      - subst e. exact (samples_bounded_get _ _ _ Hb _ E').
      - injection E as <-. intros c l [] . }
    assert (Hd : dict_bounded (Z.to_nat m) (dset obj_is d'' config None)).
    { apply dict_bounded_dset; [exact Hd'' | discriminate]. }
    split; [|apply trace_ext_refl]. split; [|exact Hd].
    split; [exact Hm|]. apply samples_bounded_set; [exact Hb | exact Hd].
Qed.

Lemma hoare_stepwise_loop_bounded fuel args kwargs key cache :
  hoare (sw_bounded m) any_event (fun s => (sw_bounded m) s /\ entry_bounded (Z.to_nat m) cache)
    (Stepwise_loop fuel args kwargs key cache) (fun _ => (sw_bounded m)).
Proof.
  revert cache. induction fuel as [|fuel IH]; intros cache; [intros s w _; exact I|].
  unfold Stepwise_loop; cbn [explore_loop]. fold Stepwise_loop.
  apply hoare_bind_get_eq. intros s0 [Hs0 Hc].
  apply (hoare_conseq _ _ (fun s => s = s0) _ (fun _ => (sw_bounded m)));
    [| intros s [_ ->]; reflexivity | intros a s H; exact H].
  apply hoare_bind with (Mid := fun sel s => sw_sel_ok m key (fst (fst sel)) (snd (fst sel)) (snd sel) s).
  - destruct cache as [c|d].
    + apply hoare_ret. intros s ->. split; [exact Hs0|]. split; [exact I|]. discriminate.
    + apply hoare_bind with (Mid := fun _ s => s = s0).
      { apply hoare_lift; [intros a _ s ->; reflexivity | intros s ->; exact Hs0]. }
      intros pruned.
      set (d1 := touch_all d pruned).
      assert (Hd1 : dict_bounded (Z.to_nat m) d1) by (apply dict_bounded_touch; exact Hc).
      apply hoare_bind with (Mid := fun _ s => (sw_bounded m) s /\ dict_bounded (Z.to_nat m) d1 /\
              forall d'', kdget (sw_tcache s) key = Some (Exploring d'') -> d'' = d1).
      { intros s w ->. unfold local_sync. cbn [tcache_of Stepwise_HasTCache].
        destruct Hs0 as [Hm Hb].
        destruct (kdget (sw_tcache s0) key) as [[c'|d'']|] eqn:E.
        - split; [|apply trace_ext_refl]. split; [split; assumption|]. split; [exact Hd1|].
          intros d3 E3. rewrite E in E3. discriminate.
        - split; [|apply trace_ext_refl]. split; [split; [exact Hm|]|split; [exact Hd1|]].
          + apply samples_bounded_set; [exact Hb | exact Hd1].
          + cbn [sw_tcache with_tcache Stepwise_HasTCache]. rewrite kdget_kdset_same.
            intros d3 E3. injection E3 as <-. reflexivity.
        - split; [|apply trace_ext_refl]. split; [split; assumption|]. split; [exact Hd1|].
          intros d3 E3. rewrite E in E3. discriminate. }
      intros _.
      apply hoare_bind with (Mid := fun cb s => sw_sel_ok m key (fst cb) (snd cb) (Exploring d1) s).
      { apply hoare_stepwise_select_bounded. }
      intros [config isconfig]. apply hoare_ret. intros s H. exact H.
  - intros [[config isconfig] cache1]. cbn [fst snd].
    apply hoare_bind with (Mid := fun _ s => sw_sel_ok m key config isconfig cache1 s).
    { apply hoare_launch; [exact I | exact I | intros s H; exact (proj1 H)]. }
    intros r.
    apply hoare_bind with (Mid := fun _ s => sw_sel_ok m key config isconfig cache1 s).
    { destruct r as [v|e]; [apply hoare_ret; auto|].
      destruct e; first [apply hoare_ret; now auto | apply hoare_raise; intros s H; exact (proj1 H)]. }
    intros rv.
    apply hoare_bind with (Mid := fun c2 s => (sw_bounded m) s /\ entry_bounded (Z.to_nat m) c2).
    { destruct isconfig.
      - apply hoare_ret. intros s (Hs & Hc1 & _). split; assumption.
      - apply hoare_bind with (Mid := fun _ s => sw_sel_ok m key config false cache1 s);
          [apply hoare_next_elapsed|].
        intros t.
        apply hoare_bind with (Mid := fun d' s => (sw_bounded m) s /\ dict_bounded (Z.to_nat m) d').
        + destruct (truthy rv).
          * intros s w (Hs & Hc1 & Hsel). destruct (Hsel eq_refl) as (d1 & Hk & l0 & Hl & Hlt).
            apply (hoare_tc_append_bounded key config t d1 l0). split; [exact Hs|].
            split; [exact Hk|]. split; assumption.
          * apply (hoare_conseq _ _ (sw_bounded m) _ (fun d' s => (sw_bounded m) s /\ dict_bounded (Z.to_nat m) d'));
              [apply hoare_tc_mark_failed_bounded | intros s H; exact (proj1 H) | tauto].
        + intros d'. apply hoare_ret. intros s H. exact H. }
    intros cache2. destruct (is_none rv).
    + apply IH.
    + apply hoare_ret. intros s H. exact (proj1 H).
Qed.
End StepwiseBound.

Lemma hoare_stepwise_run_bounded m args kwargs :
  hoare (sw_bounded m) any_event (sw_bounded m) (StepwiseAutotuner_run args kwargs)
    (fun _ => sw_bounded m).
Proof.
  unfold StepwiseAutotuner_run. apply hoare_bind_get. intros s0 _.
  apply hoare_bind with (Mid := fun _ => sw_bounded m); [apply hoare_set_nargs; auto|].
  intros _. apply hoare_bind_get. intros s1 _.
  apply hoare_bind with (Mid := fun _ => sw_bounded m); [apply hoare_emit; exact I|].
  intros _. set (key := _get_key _ _).
  apply hoare_bind with (Mid := fun e s => sw_bounded m s /\ entry_bounded (Z.to_nat m) e).
  { intros s w [Hm Hb]. unfold tc_fetch. cbn [tcache_of Stepwise_HasTCache].
    destruct (kdget (sw_tcache s) key) as [e|] eqn:E.
    - split; [|apply trace_ext_refl]. split; [split; assumption|].
      exact (samples_bounded_get _ _ _ Hb _ E).
    - split; [|apply trace_ext_refl]. split; [split; [exact Hm|]|].
      + apply samples_bounded_set; [exact Hb | intros c l []].
      + intros c l []. }
  intros cache.
  apply hoare_bind with (Mid := fun _ s => sw_bounded m s /\ entry_bounded (Z.to_nat m) cache);
    [apply hoare_get_world|].
  intros w. apply hoare_bind with (Mid := fun _ => sw_bounded m).
  { apply hoare_stepwise_loop_bounded. }
  intros rv. apply hoare_bind with (Mid := fun _ => sw_bounded m);
    [apply hoare_set_nargs; auto | intros _; apply hoare_ret; auto].
Qed.

(** [StepwiseAutotuner.run] appends a timing to [cache[config]] only for a
    config that had fewer than [self._min_try] samples: over any sequence
    of calls, whether they return or raise, no sample list of any key ever
    holds more than [min_try] timings (none when [min_try <= 0]). *)
Theorem StepwiseAutotuner_samples_at_most_min_try m calls :
  hoare (sw_bounded m) any_event (sw_bounded m)
    (run_seq StepwiseAutotuner_run calls) (fun _ => sw_bounded m).
Proof.
  apply hoare_run_seq; [auto|]. intros args kwargs. apply hoare_stepwise_run_bounded.
Qed.

(** ** Stepwise with a non-positive [min_try] *)

Lemma all_empty_touch d pruned : all_empty d -> all_empty (touch_all d pruned).
Proof.
  unfold touch_all. revert d. induction pruned as [|c t IH]; intros d Hd; simpl; [exact Hd|].
  apply IH. match goal with |- context [match ?x with Some _ => _ | None => _ end] => destruct x end;
    [exact Hd|].
  intros c' v H. destruct (In_dset _ _ _ _ _ _ H) as [[_ E]|H']; [exact E | exact (Hd _ _ H')].
Qed.

Lemma touch_all_nonempty d pruned : d <> [] -> touch_all d pruned <> [].
Proof.
  unfold touch_all. revert d. induction pruned as [|c t IH]; intros d Hd; simpl; [exact Hd|].
  apply IH. match goal with |- context [match ?x with Some _ => _ | None => _ end] => destruct x end;
    [exact Hd|].
  destruct d as [|[k v] d]; [congruence|]. simpl. destruct (obj_is c k); discriminate.
Qed.

Lemma touch_all_cons_nonempty c pruned : touch_all [] (c :: pruned) <> [].
Proof. change (touch_all [(c, Some [])] pruned <> []). apply touch_all_nonempty. discriminate. Qed.

Lemma stepwise_eligible_nonpos m d pruned : (m <= 0)%Z -> stepwise_eligible m d pruned = [].
Proof.
  intros Hm. unfold stepwise_eligible. induction pruned as [|c t IH]; simpl; [reflexivity|].
  destruct (sample_of d c) as [l|]; [|exact IH].
  replace (Z.of_nat (List.length l) <? m)%Z with false by (symmetry; apply Z.ltb_ge; lia).
  exact IH.
Qed.

Lemma all_empty_sample d c : all_empty d -> In c (dkeys d) -> sample_of d c = Some [].
Proof.
  intros Hd Hc. unfold sample_of.
  destruct (dget obj_is d c) as [v|] eqn:E.
  - destruct (dget_In _ _ _ _ E) as [k' Hk']. rewrite (Hd _ _ Hk'). reflexivity.
  - exfalso. unfold dkeys in Hc. apply in_map_iff in Hc as [[k v] [Hk Hin]]. simpl in Hk. subst k.
    clear Hd. induction d as [|[k' v'] t IH]; [destruct Hin|]. simpl in E.
    destruct Hin as [H|H].
    + injection H as -> ->. unfold obj_is in E. rewrite Nat.eqb_refl in E. discriminate.
    + destruct (obj_is c k'); [discriminate | exact (IH H E)].
Qed.

Lemma stepwise_commit_zero_division d :
  all_empty d -> d <> [] ->
  py_min_res flt_lt (stepwise_mean d) (filter (not_failed d) (dkeys d)) = PyRaise ZeroDivisionError.
Proof.
  intros Hd Hne.
  destruct d as [|[c v] t]; [congruence|].
  assert (Hc : sample_of ((c, v) :: t) c = Some [])
    by (apply all_empty_sample; [exact Hd | now left]).
  unfold py_min_res. cbn [dkeys map fst filter].
  unfold not_failed at 1. rewrite Hc. cbn [map find snd].
  unfold stepwise_mean. rewrite Hc. reflexivity.
Qed.

Lemma kdset_kdset_same {V : Type} (d : list (list pyval * V)) k v v' :
  kdset (kdset d k v) k v' = kdset d k v'.
Proof.
  unfold kdset. induction d as [|[k' x] t IH]; simpl.
  - now rewrite key_eqb_refl.
  - destruct (key_eqb k k') eqn:E; simpl.
    + now rewrite key_eqb_refl.
    + rewrite E. now rewrite IH.
Qed.

(** With [min_try <= 0] no config is ever eligible ([len(...) < min_try]
    fails), so the first call for a new key goes straight to the commit,
    which divides the empty sample list's sum by its length: [run] raises
    [ZeroDivisionError] before launching anything, whenever pruning leaves
    a config.  The key's entry is left as the dictionary of empty sample
    lists and [nargs] stays set. *)
Theorem StepwiseAutotuner_run_min_try_nonpositive args kwargs s w c0 pruned :
  let na := zip_args (arg_names (sw_base s)) args in
  let key := run_key (sw_base s) args kwargs in
  (_min_try s <= 0)%Z ->
  kdget (sw_tcache s) key = None ->
  prune_configs (with_nargs (sw_base s) (Some na)) kwargs = PyOk (c0 :: pruned) ->
  StepwiseAutotuner_run args kwargs s w =
  Thrown ZeroDivisionError
    (mkStepwise (with_nargs (sw_base s) (Some na)) (_min_try s)
       (kdset (sw_tcache s) key (Exploring (touch_all [] (c0 :: pruned)))))
    (log (EvGetKey key) w).
Proof.
  intros na key Hm Hk Hp.
  cbv [StepwiseAutotuner_run bind get ret put set_nargs emit lift base_of with_base
       Stepwise_HasBase tc_fetch get_world tcache_of with_tcache Stepwise_HasTCache].
  cbn [sw_base sw_tcache _min_try]. fold na. rewrite get_key_with_nargs.
  change (_get_key (sw_base s) (smerge na kwargs)) with key. rewrite Hk.
  unfold Stepwise_loop. cbn [explore_loop].
  cbv [bind get ret lift local_sync tcache_of with_tcache Stepwise_HasTCache].
  cbn [sw_base sw_tcache _min_try]. rewrite Hp. cbv beta iota. cbn [sw_base sw_tcache _min_try].
  rewrite kdget_kdset_same. cbv beta iota.
  unfold stepwise_select. cbv [bind get lift ret]. cbn [sw_base sw_tcache _min_try].
  rewrite (stepwise_eligible_nonpos _ _ _ Hm).
  rewrite stepwise_commit_zero_division.
  - unfold raise. rewrite kdset_kdset_same. reflexivity.
  - apply all_empty_touch. intros c v [].
  - apply touch_all_cons_nonempty.
Qed.

(** ** Confidence: a new key is decided without a measurement *)

Lemma all_empty_sample_any d c : all_empty d -> sample_of d c = Some [].
Proof.
  intros Hd. unfold sample_of. destruct (dget obj_is d c) as [v|] eqn:E; [|reflexivity].
  destruct (dget_In _ _ _ _ E) as [k' Hk']. rewrite (Hd _ _ Hk'). reflexivity.
Qed.

Lemma py_min_from_const {A B : Type} (lt : B -> B -> bool) (f : A -> B) b l :
  (forall x, In x l -> lt (f x) (f b) = false) -> py_min_from lt f b l = b.
Proof.
  induction l as [|x t IH]; intros H; simpl; [reflexivity|].
  rewrite (H x (or_introl eq_refl)). apply IH. intros y Hy. apply H. now right.
Qed.

Lemma confidence_empty_bounds r :
  _get_lower_boundary (Fin r) (Some []) = PyOk (flt_sub float_max (flt_mul (Fin r) (Fin 0))) /\
  _get_upper_boundary (Fin r) (Some []) = PyOk (flt_add float_max (flt_mul (Fin r) (Fin 0))) /\
  flt_ge (flt_sub float_max (flt_mul (Fin r) (Fin 0)))
         (flt_add float_max (flt_mul (Fin r) (Fin 0))) = true /\
  flt_lt (flt_sub float_max (flt_mul (Fin r) (Fin 0)))
         (flt_sub float_max (flt_mul (Fin r) (Fin 0))) = false.
Proof.
  split; [reflexivity|]. split; [reflexivity|]. split.
  - unfold flt_ge. apply Bool.orb_true_iff. right. unfold float_max. cbn [flt_sub flt_add flt_neg flt_mul flt_eq].
    apply Qeq_bool_iff. ring.
  - unfold float_max. cbn [flt_sub flt_add flt_neg flt_mul flt_lt]. unfold qltb.
    rewrite Bool.negb_false_iff. apply Qle_bool_iff. apply Qle_refl.
Qed.

Lemma conf_all_empty r d config :
  all_empty d ->
  conf_all (Fin r) d config (flt_add float_max (flt_mul (Fin r) (Fin 0))) = PyOk true.
Proof.
  destruct (confidence_empty_bounds r) as (Hl & _ & Hge & _).
  induction d as [|[k v] t IH]; intros Hd; cbn [conf_all]; [reflexivity|].
  assert (Ht : all_empty t) by (intros c v' H; apply (Hd c v'); now right).
  destruct (obj_is k config); [now apply IH|].
  rewrite (Hd k v (or_introl eq_refl)), Hl, Hge. now apply IH.
Qed.

Lemma confidence_decide_empty r d c0 pruned :
  all_empty d -> confidence_decide (Fin r) d (c0 :: pruned) = PyOk (c0, true).
Proof.
  intros Hd. destruct (confidence_empty_bounds r) as (Hl & Hu & Hge & Hlt).
  unfold confidence_decide.
  assert (Hf : filter (not_failed d) (c0 :: pruned) = c0 :: pruned).
  { apply forallb_filter_id. apply forallb_forall. intros c _.
    unfold not_failed. now rewrite (all_empty_sample_any d c Hd). }
  rewrite Hf. unfold py_min_res.
  assert (Hmap : forall l, find (fun p => match snd p with PyRaise _ => true | PyOk _ => false end)
                   (map (fun x => (x, _get_lower_boundary (Fin r) (sample_of d x))) l) = None).
  { induction l as [|x t IH]; simpl; [reflexivity|].
    rewrite (all_empty_sample_any d x Hd), Hl. exact IH. }
  rewrite Hmap. unfold py_min.
  rewrite py_min_from_const.
  - rewrite (all_empty_sample_any d c0 Hd), Hu. rewrite conf_all_empty by exact Hd. reflexivity.
  - intros x _. rewrite !(all_empty_sample_any d _ Hd), Hl. exact Hlt.
Qed.

Lemma launch_next {S : Type} args kwargs config (s : S) w kw r rest :
  call_kwargs [] [kwargs; all_kwargs (cfg config)] = PyOk kw ->
  launches w = r :: rest ->
  exists w', launch args kwargs config s w = Done r s w' /\ launches w' = rest /\ elapsed w' = elapsed w.
Proof.
  intros Hc Hw. unfold launch.
  destruct (pre_hook (cfg config)); cbv [bind emit ret lift]; rewrite Hc;
    unfold next_launch; cbn [launches log]; rewrite Hw; eexists; split; try reflexivity; split; reflexivity.
Qed.

(** On a new key every sample list is empty, so every lower and upper
    boundary is [sys.float_info.max] (the mean of an empty list, plus or
    minus [ratio * 0.0]): with a finite [ratio], [ConfidenceAutotuner.run]
    commits the first pruned config at once, before timing anything.  When
    that launch returns a value other than [None], [run] returns it, the
    key is decided for that config, and no elapsed time is read. *)
Theorem ConfidenceAutotuner_run_new_key_decides_first args kwargs s w r c0 pruned kw v rest :
  let na := zip_args (arg_names (cf_base s)) args in
  let key := run_key (cf_base s) args kwargs in
  _ratio s = Fin r ->
  kdget (cf_tcache s) key = None ->
  prune_configs (with_nargs (cf_base s) (Some na)) kwargs = PyOk (c0 :: pruned) ->
  call_kwargs [] [kwargs; all_kwargs (cfg c0)] = PyOk kw ->
  launches w = LaunchReturns v :: rest ->
  is_none v = false ->
  exists s' w', ConfidenceAutotuner_run args kwargs s w = Done v s' w' /\
    kdget (cf_tcache s') key = Some (Decided c0) /\
    nargs (cf_base s') = None /\
    launches w' = rest /\ elapsed w' = elapsed w.
Proof.
  intros na key Hr Hk Hp Hc Hw Hv.
  cbv [ConfidenceAutotuner_run bind get ret put set_nargs emit lift base_of with_base
       Confidence_HasBase tc_fetch get_world tcache_of with_tcache Confidence_HasTCache].
  cbn [cf_base cf_tcache _ratio]. fold na. rewrite get_key_with_nargs.
  change (_get_key (cf_base s) (smerge na kwargs)) with key. rewrite Hk.
  unfold Confidence_loop. cbn [explore_loop].
  cbv [bind get ret lift local_sync tcache_of with_tcache Confidence_HasTCache].
  cbn [cf_base cf_tcache _ratio]. rewrite Hp. cbv beta iota. cbn [cf_base cf_tcache _ratio].
  rewrite kdget_kdset_same. cbv beta iota.
  unfold confidence_select. cbv [bind get lift ret]. cbn [cf_base cf_tcache _ratio].
  rewrite Hr, confidence_decide_empty by (apply all_empty_touch; intros c v' []).
  cbv beta iota. unfold tc_decide. cbv [tcache_of with_tcache Confidence_HasTCache].
  cbn [cf_base cf_tcache _ratio].
  destruct (launch_next args kwargs c0
              {| cf_base := with_nargs (cf_base s) (Some na); _ratio := Fin r;
                 cf_tcache := kdset (kdset (kdset (cf_tcache s) key (Exploring [])) key
                                (Exploring (touch_all [] (c0 :: pruned)))) key (Decided c0) |}
              (log (EvGetKey key) w) kw (LaunchReturns v) rest Hc Hw) as (w1 & E1 & Hl1 & He1).
  rewrite E1. cbv beta iota. rewrite Hv.
  eexists. eexists. split; [reflexivity|]. cbn [cf_tcache cf_base].
  split; [apply kdget_kdset_same|]. split; [reflexivity|]. split; assumption.
Qed.

(** ** Epsilon: the recorded best time never grows *)

Lemma flt_ge_lt_trans p p' x : flt_ge p p' = true -> flt_lt x p' = true -> flt_ge p x = true.
Proof.
  unfold flt_ge. intros H Hx. apply Bool.orb_true_iff. left.
  apply Bool.orb_true_iff in H as [H|H].
  - exact (flt_lt_trans _ _ _ Hx H).
  - rewrite (flt_eq_lt_r x p p' H). exact Hx.
Qed.

Lemma best_time_le_set K p s0 key (nw : option ConfigObj * flt * flt) :
  best_time_le K p s0 ->
  (key_eqb K key = true -> flt_ge p (snd nw) = true) ->
  best_time_le K p (mkEpsilon (ep_base s0) (_epsilon s0) (_decay s0) (kdset (ep_tcache s0) key nw)).
Proof.
  intros (c & e & p' & E & Hp) Hnw. unfold best_time_le. cbn [ep_tcache].
  destruct (key_eqb K key) eqn:Ek.
  - rewrite (kdget_kdset_congr _ _ _ _ Ek). destruct nw as [[c2 e2] p2].
    exists c2, e2, p2. split; [reflexivity | exact (Hnw eq_refl)].
  - rewrite (kdget_kdset_other _ _ _ _ Ek). exists c, e, p'. split; assumption.
Qed.

Lemma best_time_le_base K p s b : best_time_le K p s ->
  best_time_le K p (mkEpsilon b (_epsilon s) (_decay s) (ep_tcache s)).
Proof. intros H. exact H. Qed.

Lemma hoare_epsilon_loop_best K p fuel args kwargs key :
  hoare (best_time_le K p) any_event (best_time_le K p)
    (Epsilon_loop fuel args kwargs key) (fun _ => best_time_le K p).
Proof.
  induction fuel as [|fuel IH]; [intros s w _; exact I|]. cbn [Epsilon_loop].
  apply hoare_bind_get_eq. intros s0 H0.
  apply (hoare_conseq _ _ (fun s => s = s0) _ (fun _ => best_time_le K p));
    [| intros s [_ ->]; reflexivity | intros a s H; exact H].
  set (Pf := fun (perf : flt) =>
    (forall tup, kdget (ep_tcache s0) key = Some tup -> snd tup = perf)).
  apply hoare_bind with (Mid := fun st s => s = s0 /\ Pf (snd st)).
  { destruct (kdget (ep_tcache s0) key) as [[[cand eps] perf]|] eqn:E.
    - apply hoare_bind with (Mid := fun _ s => s = s0); [apply hoare_next_random|].
      intros u. apply hoare_ret. intros s ->. split; [reflexivity|].
      intros tup Et. try rewrite E in Et. injection Et as <-. reflexivity.
    - apply hoare_ret. intros s ->. split; [reflexivity|]. intros tup Et. try rewrite E in Et. discriminate. }
  intros [[[is_explore cand] eps] perf]. cbn [snd].
  apply hoare_pure_pre. intros Hperf.
  apply hoare_bind with (Mid := fun _ s => s = s0).
  { destruct is_explore.
    - apply hoare_bind with (Mid := fun _ s => s = s0).
      { apply hoare_lift; [intros a _ s ->; reflexivity | intros s ->; exact H0]. }
      intros pruned. destruct (filter _ pruned) as [|c0 rest].
      + apply hoare_ret. intros s ->. reflexivity.
      + apply hoare_bind with (Mid := fun _ s => s = s0).
        * apply (hoare_conseq _ _ (fun s => s = s0) _ (fun a s => s = s0 /\ In a (c0 :: rest)));
            [apply hoare_next_choice; discriminate | tauto | tauto].
        * intros c. apply hoare_ret. intros s ->. reflexivity.
    - apply hoare_ret. intros s ->. reflexivity. }
  intros choice.
  apply hoare_bind with (Mid := fun _ s => s = s0).
  { destruct choice as [c|]; [apply hoare_ret; auto|].
    destruct cand as [c|]; [apply hoare_ret; auto|].
    apply hoare_raise. intros s ->. exact H0. }
  intros config.
  apply hoare_bind with (Mid := fun _ s => s = s0).
  { apply hoare_launch; [exact I | exact I | intros s ->; exact H0]. }
  intros r.
  apply hoare_bind with (Mid := fun _ s => s = s0).
  { destruct r as [v|e]; [apply hoare_ret; auto|].
    destruct e; first [apply hoare_ret; now auto | apply hoare_raise; intros s ->; exact H0]. }
  intros rv. destruct (is_none rv).
  { apply (hoare_conseq _ _ (best_time_le K p) _ (fun _ => best_time_le K p));
      [apply IH | intros s ->; exact H0 | tauto]. }
  apply hoare_bind with (Mid := fun _ => best_time_le K p).
  2:{ intros _. apply hoare_ret. auto. }
  destruct is_explore; [|apply hoare_ret; intros s ->; exact H0].
  apply hoare_bind with (Mid := fun _ s => s = s0); [apply hoare_next_elapsed|].
  intros t.
  intros s w ->. cbv beta iota.
  assert (Hnew : best_time_le K p
    (mkEpsilon (ep_base s0) (_epsilon s0) (_decay s0)
       (kdset (ep_tcache s0) key
          (if flt_lt (Fin t) perf then (Some config, _epsilon s0, Fin t)
           else (cand, flt_mul eps (flt_sub (Fin 1) (_decay s0)), perf))))).
  { apply best_time_le_set; [exact H0|]. intros Ek.
    destruct H0 as (c & e & p' & E & Hp).
    rewrite key_eqb_sym in Ek. unfold Pf in Hperf. rewrite (kdget_congr _ _ _ Ek) in Hperf.
    specialize (Hperf _ E). cbn [snd] in Hperf. subst perf.
    destruct (flt_lt (Fin t) p') eqn:Elt; cbn [snd].
    - exact (flt_ge_lt_trans _ _ _ Hp Elt).
    - exact Hp. }
  destruct (flt_lt (Fin t) perf); (split; [exact Hnew | apply trace_ext_refl]).
Qed.

(** [EpsilonAutotuner.run] replaces [perf] of a key only by a smaller
    measured [timecost] ([if perf > timecost]): over any sequence of calls,
    returning or raising, once the key [K] holds a best time of at most
    [p], it keeps one. *)
Theorem EpsilonAutotuner_best_time_never_grows K p calls :
  hoare (best_time_le K p) any_event (best_time_le K p)
    (run_seq EpsilonAutotuner_run calls) (fun _ => best_time_le K p).
Proof.
  apply hoare_run_seq; [auto|]. intros args kwargs.
  unfold EpsilonAutotuner_run. apply hoare_bind_get. intros s0 _.
  apply hoare_bind with (Mid := fun _ => best_time_le K p); [apply hoare_set_nargs; auto|].
  intros _. apply hoare_bind_get. intros s1 _.
  apply hoare_bind with (Mid := fun _ => best_time_le K p); [apply hoare_emit; exact I|].
  intros _. apply hoare_bind with (Mid := fun _ => best_time_le K p); [apply hoare_get_world|].
  intros w. apply hoare_epsilon_loop_best.
Qed.

(** ** The call key *)

Lemma filter_dset_out (names : list string) (d : pydict) k v :
  existsb (String.eqb k) names = false ->
  filter (fun kv => existsb (String.eqb (fst kv)) names) (dset String.eqb d k v) =
  filter (fun kv => existsb (String.eqb (fst kv)) names) d.
Proof.
  intros Hk. induction d as [|[k' v'] t IH]; simpl.
  - now rewrite Hk.
  - destruct (String.eqb k k') eqn:E; simpl.
    + apply String.eqb_eq in E. subst k'. now rewrite Hk.
    + now rewrite IH.
Qed.

Lemma filter_smerge_out (names : list string) (kw extra : pydict) :
  (forall kv, In kv extra -> ~ In (fst kv) names) ->
  filter (fun kv => existsb (String.eqb (fst kv)) names) (smerge kw extra) =
  filter (fun kv => existsb (String.eqb (fst kv)) names) kw.
Proof.
  unfold smerge, dmerge. revert kw. induction extra as [|[k v] t IH]; intros kw H; simpl; [reflexivity|].
  rewrite IH by (intros kv Hin; apply H; now right).
  apply filter_dset_out.
  destruct (existsb (String.eqb k) names) eqn:E; [|reflexivity].
  exfalso. apply existsb_exists in E as [n [Hn En]]. apply String.eqb_eq in En. subst n.
  exact (H (k, v) (or_introl eq_refl) Hn).
Qed.

(** [_get_key] first keeps only the entries whose name is one of
    [self.arg_names]: merging into the call's dictionary any keywords
    whose names are not arguments of the kernel (meta-parameters such as
    a block size) never changes the key. *)
Theorem _get_key_ignores_non_arguments b kw extra :
  (forall kv, In kv extra -> ~ In (fst kv) (arg_names b)) ->
  _get_key b (smerge kw extra) = _get_key b kw.
Proof.
  intros H. unfold _get_key. now rewrite filter_smerge_out.
Qed.

(** On a key it has not seen, [EpsilonAutotuner.run] explores with
    [candidate = None]; when pruning leaves no config, [config] stays
    [None] and [config.pre_hook] raises [AttributeError] before anything is
    launched, leaving [nargs] set and the key unrecorded. *)
Theorem EpsilonAutotuner_run_new_key_no_configs args kwargs s w :
  let na := zip_args (arg_names (ep_base s)) args in
  let key := run_key (ep_base s) args kwargs in
  kdget (ep_tcache s) key = None ->
  prune_configs (with_nargs (ep_base s) (Some na)) kwargs = PyOk [] ->
  EpsilonAutotuner_run args kwargs s w =
  Thrown AttributeError
    (mkEpsilon (with_nargs (ep_base s) (Some na)) (_epsilon s) (_decay s) (ep_tcache s))
    (log (EvGetKey key) w).
Proof.
  intros na key Hk Hp.
  cbv [EpsilonAutotuner_run bind get ret set_nargs emit lift base_of with_base
       Epsilon_HasBase get_world].
  cbn [ep_base ep_tcache _epsilon _decay]. fold na. rewrite get_key_with_nargs.
  change (_get_key (ep_base s) (smerge na kwargs)) with key.
  cbn [Epsilon_loop]. cbv [bind get ret lift raise].
  cbn [ep_base ep_tcache _epsilon _decay]. rewrite Hk. cbv beta iota.
  rewrite Hp. reflexivity.
Qed.

(** [Autotuner.run] clears [self.nargs] only after a successful launch: an
    exception from pruning, benchmarking, [min] over the timings or the
    kernel itself propagates with [nargs] still holding the arguments of
    the failed call. *)
Theorem Autotuner_run_raise_keeps_nargs args kwargs s w e s' w' :
  Autotuner_run args kwargs s w = Thrown e s' w' ->
  nargs (at_base s') = Some (zip_args (arg_names (at_base s)) args).
Proof.
  set (na := zip_args (arg_names (at_base s)) args).
  set (Inv := fun x : Autotuner => nargs (at_base x) = Some na).
  assert (H : hoare Inv any_event (fun x => x = s) (Autotuner_run args kwargs) (fun _ _ => True)).
  { unfold Autotuner_run. apply hoare_bind_get. intros s0 ->.
    apply hoare_bind with (Mid := fun _ => Inv); [intros x w0 ->; split; [reflexivity | apply trace_ext_refl]|].
    intros _. fold na.
    apply hoare_bind with (Mid := fun _ => Inv).
    { apply hoare_bind_get. intros s1 Hs1.
      destruct (Nat.ltb 1 _).
      - apply hoare_bind with (Mid := fun _ => Inv); [apply hoare_emit; exact I|].
        intros _. destruct (kdget _ _) as [c|]; [apply hoare_ret; auto|].
        apply hoare_bind with (Mid := fun _ => Inv); [apply hoare_lift; auto|].
        intros pruned. apply hoare_bind with (Mid := fun _ => Inv); [apply hoare_bench_all; auto|].
        intros timings. apply hoare_bind with (Mid := fun _ => Inv); [apply hoare_lift; auto|].
        intros best. apply hoare_bind_get. intros s2 Hs2.
        apply hoare_bind with (Mid := fun _ => Inv); [intros x w0 Hx; split; [exact Hs2 | apply trace_ext_refl]|].
        intros _. apply hoare_bind with (Mid := fun _ => Inv); [apply hoare_emit; exact I|].
        intros _. apply hoare_bind_get. intros s3 Hs3.
        apply hoare_bind with (Mid := fun _ => Inv); [intros x w0 Hx; split; [exact Hs3 | apply trace_ext_refl]|].
        intros _. apply hoare_ret. auto.
      - destruct (configs (at_base s1)) as [|c _]; [apply hoare_raise; auto | apply hoare_ret; auto]. }
    intros config. apply hoare_bind_get. intros s3 Hs3.
    apply hoare_bind with (Mid := fun _ => Inv); [intros x w0 Hx; split; [exact Hs3 | apply trace_ext_refl]|].
    intros _. apply hoare_bind with (Mid := fun _ => Inv); [apply hoare_launch; auto; exact I|].
    intros [v|e0]; [|apply hoare_raise; auto].
    apply hoare_bind with (Mid := fun _ _ => True); [intros x w0 _; split; [exact I | apply trace_ext_refl]|].
    intros _. apply hoare_ret. auto. }
  intros E. specialize (H s w eq_refl). rewrite E in H. exact (proj1 H).
Qed.

(** ** Witnesses *)

Lemma BaseAutotuner_warmup_ok_witness :
  BaseAutotuner_warmup example_warmup example_args [] example_autotuner (example_world [] [] [] [])
  = Done [PNone; PNone] (with_base example_autotuner (with_nargs (base_of example_autotuner) None))
         (example_world [] [] [] []).
Proof.
  apply (BaseAutotuner_warmup_ok (S:=Autotuner)) with (pruned := [example_c1; example_c2]).
  - intros s b; reflexivity.
  - intros [] b b'; reflexivity.
  - reflexivity.
  - intros c _ k _; reflexivity.
  - repeat constructor.
Defined.

Lemma BaseAutotuner_warmup_raise_keeps_nargs_witness :
  match BaseAutotuner_warmup example_warmup_raising example_args [] example_autotuner
          (example_world [] [] [] []) with
  | Thrown e s' w' => nargs (at_base s') = Some (zip_args ["x"; "n"] example_args) /\
                      w' = example_world [] [] [] []
  | _ => False
  end.
Proof.
  destruct (BaseAutotuner_warmup example_warmup_raising example_args [] example_autotuner
              (example_world [] [] [] [])) as [a s' w'|e s' w'|] eqn:E;
    [vm_compute in E; discriminate | | vm_compute in E; discriminate].
  exact (@BaseAutotuner_warmup_raise_keeps_nargs Autotuner Autotuner_HasBase ltac:(intros s b; reflexivity)
           _ _ _ _ _ _ _ _ E).
Defined.

Lemma kernel_call_restores_witness :
  match kernel_call example_user example_kernel_effect (example_hook_base (Some ["x"]) (Some ["x"; "out"]) None)
          example_c1 example_hook_kwargs (mkHookState example_hook_mem None)
          (example_world [LaunchRaises OutOfResources] [] [] []) with
  | Done _ s' _ =>
      (exists v, LaunchRaises OutOfResources = LaunchReturns v) /\
      forall o, names_tensor example_hook_kwargs ["x"; "out"] o = true ->
        tget (hs_mem s') o = after_reset ["x"] example_hook_kwargs example_hook_mem o
  | Thrown e s' _ =>
      LaunchRaises OutOfResources = LaunchRaises e /\
      forall o, names_tensor example_hook_kwargs ["x"; "out"] o = true ->
        tget (hs_mem s') o = after_reset ["x"] example_hook_kwargs example_hook_mem o
  | Stuck => False
  end.
Proof.
  apply (kernel_call_restores 3 7 ["x"; "out"] (Some [example_c1]) ["x"] (Some ["x"])
           (Some ["x"; "out"]) None None None false None) with (rest := []).
  - reflexivity.
  - reflexivity.
  - intros n Hn. simpl in Hn.
    destruct Hn as [<-|[<-|[<-|[]]]]; eexists; reflexivity.
  - reflexivity.
Defined.

Lemma kernel_call_user_pre_hook_no_copies_witness :
  exists s' w', kernel_call example_user example_kernel_effect
                  (example_hook_base None (Some ["out"]) (Some 5%nat)) example_c1
                  example_hook_kwargs (mkHookState example_hook_mem None)
                  (example_world [LaunchReturns PNone] [] [] []) =
                Thrown AttributeError s' w'.
Proof.
  exact (kernel_call_user_pre_hook_no_copies 3 7 ["x"; "out"] (Some [example_c1]) ["x"] None
           "out" [] 5 None None None false None _ example_user example_kernel_effect
           example_c1 example_hook_kwargs (mkHookState example_hook_mem None)
           (example_world [LaunchReturns PNone] [] [] []) _ [] 101 "float32"
           eq_refl (fun m => ex_intro _ m eq_refl) (fun g H => match H with eq_refl => I end)
           eq_refl I eq_refl).
Defined.

Lemma prune_configs_at_most_top_k_witness :
  (List.length [example_c1] <= Z.to_nat 1)%nat /\
  forall c, In c [example_c1] -> In c [example_c1; example_c2].
Proof.
  apply (prune_configs_at_most_top_k
           (with_nargs (example_pruning_base (Some example_perf_model) (TopKInt 1) None
                          [example_c1; example_c2]) (Some [("n", PInt 1024)]))
           [] 1 [example_c1] example_perf_model).
  - reflexivity.
  - lia.
  - reflexivity.
  - vm_compute; reflexivity.
Defined.

Lemma prune_configs_float_top_k_raises_witness :
  exists e, prune_configs
              (with_nargs (example_pruning_base (Some example_perf_model) (TopKFloat (3 # 2)) None
                             [example_c1; example_c2]) (Some [("n", PInt 1024)])) [] = PyRaise e.
Proof.
  apply (prune_configs_float_top_k_raises _ [] example_perf_model (3 # 2)).
  - reflexivity.
  - reflexivity.
  - reflexivity.
  - vm_compute; reflexivity.
Defined.

Lemma Autotuner_run_nothing_pruned_raises_witness :
  Autotuner_run example_args []
    (mkAutotuner (example_pruning_base None (TopKFloat 1) (Some example_prune_all)
                    [example_c1; example_c2]) None [])
    (example_world [] [] [] []) =
  Thrown ValueError
    (mkAutotuner (with_nargs (example_pruning_base None (TopKFloat 1) (Some example_prune_all)
                                [example_c1; example_c2]) (Some (zip_args ["x"; "n"] example_args)))
       None [])
    (log (EvGetKey example_key) (example_world [] [] [] [])).
Proof.
  exact (Autotuner_run_nothing_pruned_raises example_args []
           (mkAutotuner (example_pruning_base None (TopKFloat 1) (Some example_prune_all)
                           [example_c1; example_c2]) None [])
           (example_world [] [] [] []) ltac:(simpl; lia) eq_refl eq_refl).
Defined.

Lemma StepwiseAutotuner_run_min_try_nonpositive_witness :
  StepwiseAutotuner_run example_args []
    (mkStepwise (example_pruning_base None (TopKFloat 1) None [example_c1; example_c2]) 0 [])
    (example_world [] [] [] []) =
  Thrown ZeroDivisionError
    (mkStepwise (with_nargs (example_pruning_base None (TopKFloat 1) None [example_c1; example_c2])
                   (Some (zip_args ["x"; "n"] example_args))) 0
       (kdset [] example_key (Exploring (touch_all [] [example_c1; example_c2]))))
    (log (EvGetKey example_key) (example_world [] [] [] [])).
Proof.
  exact (StepwiseAutotuner_run_min_try_nonpositive example_args []
           (mkStepwise (example_pruning_base None (TopKFloat 1) None [example_c1; example_c2]) 0 [])
           (example_world [] [] [] []) example_c1 [example_c2]
           ltac:(simpl; lia) eq_refl eq_refl).
Defined.

Lemma ConfidenceAutotuner_run_new_key_decides_first_witness :
  exists s' w', ConfidenceAutotuner_run example_args []
                  (mkConfidence (example_pruning_base None (TopKFloat 1) None [example_c1; example_c2])
                     default_ratio [])
                  (example_world [LaunchReturns (PInt 0)] [] [] []) = Done (PInt 0) s' w' /\
    kdget (cf_tcache s') example_key = Some (Decided example_c1) /\
    nargs (cf_base s') = None /\
    launches w' = [] /\ elapsed w' = elapsed (example_world [LaunchReturns (PInt 0)] [] [] []).
Proof.
  exact (ConfidenceAutotuner_run_new_key_decides_first example_args []
           (mkConfidence (example_pruning_base None (TopKFloat 1) None [example_c1; example_c2])
              default_ratio [])
           (example_world [LaunchReturns (PInt 0)] [] [] []) 3 example_c1 [example_c2] _ (PInt 0) []
           eq_refl eq_refl eq_refl eq_refl eq_refl eq_refl).
Defined.

Lemma _get_key_ignores_non_arguments_witness :
  _get_key example_base (smerge [("n", PInt 1024)] [("BLOCK", PInt 64)]) =
  _get_key example_base [("n", PInt 1024)].
Proof.
  apply _get_key_ignores_non_arguments.
  intros kv [<-|[]] H. simpl in H. destruct H as [H|[H|[]]]; discriminate.
Defined.

Lemma EpsilonAutotuner_run_new_key_no_configs_witness :
  EpsilonAutotuner_run example_args []
    (mkEpsilon (example_pruning_base None (TopKFloat 1) (Some example_prune_all)
                  [example_c1; example_c2]) default_epsilon default_decay [])
    (example_world [] [] [] []) =
  Thrown AttributeError
    (mkEpsilon (with_nargs (example_pruning_base None (TopKFloat 1) (Some example_prune_all)
                              [example_c1; example_c2]) (Some (zip_args ["x"; "n"] example_args)))
       default_epsilon default_decay [])
    (log (EvGetKey example_key) (example_world [] [] [] [])).
Proof.
  exact (EpsilonAutotuner_run_new_key_no_configs example_args []
           (mkEpsilon (example_pruning_base None (TopKFloat 1) (Some example_prune_all)
                         [example_c1; example_c2]) default_epsilon default_decay [])
           (example_world [] [] [] []) eq_refl eq_refl).
Defined.

Lemma Autotuner_run_raise_keeps_nargs_witness :
  match Autotuner_run example_args []
          (mkAutotuner (example_pruning_base None (TopKFloat 1) None [example_c1]) None [])
          (example_world [LaunchRaises OutOfResources] [] [] []) with
  | Thrown e s' w' => nargs (at_base s') = Some (zip_args ["x"; "n"] example_args)
  | _ => False
  end.
Proof.
  destruct (Autotuner_run example_args []
              (mkAutotuner (example_pruning_base None (TopKFloat 1) None [example_c1]) None [])
              (example_world [LaunchRaises OutOfResources] [] [] [])) as [a s' w'|e s' w'|] eqn:E;
    [vm_compute in E; discriminate | | vm_compute in E; discriminate].
  exact (Autotuner_run_raise_keeps_nargs _ _ _ _ _ _ _ E).
Defined.
